(** * medical_chatbot: the chat orchestrator of [ChatInterface.tsx]

    A shallow embedding of [src/components/ChatInterface.tsx] and of the
    tables, defaults and row-level policies of the SQL migration it talks
    to, followed by the properties of the response selector, of the two
    store clients and of the send flow.

    Modelling conventions.
    - A JavaScript string is a [string]: one [ascii] per UTF-16 code unit,
      so the strings of the model are the JavaScript strings whose code
      units are below 256 (Latin-1).  [toLowerCase] and [trim] are the
      ECMAScript functions restricted to that alphabet.
    - A [uuid] is a natural number and a [timestamptz] a natural number of
      clock ticks; the database hands out identifiers from a counter and
      stamps rows from a logical clock that advances with every insert.
    - A React state cell is a field of [View]; [setX] writes the field.  A
      handler reads the cells once, on entry, as its closure does.
    - Every [await supabase...] is one request.  The environment decides
      whether a request reaches the database: [tape] holds, head first,
      the verdict for each coming request.  A request that is let through
      is answered by the schema and its policies.
    - The handlers are embedded twice: as [Task]s, each run in one go,
      which is what a handler does when nothing else happens before its
      answers arrive; and cut at their awaits ([Page], [handle]), where
      the user's actions, the store's work and the arrival or loss of
      answers interleave in any order.  The two agree on the schedules
      without a race. *)

From Stdlib Require Import Bool Arith Lia List Ascii String.
From Stdlib Require Import Sorting.Sorted Sorting.Permutation.
Import ListNotations.

Local Open Scope string_scope.
Local Open Scope list_scope.
Local Open Scope bool_scope.
Local Open Scope nat_scope.

(* ================================================================= *)
(** ** JavaScript string primitives *)

Module Js.

(** [String.prototype.toLowerCase] on one code unit below 256: the
    letters A-Z and the Latin-1 capitals U+00C0-U+00DE, the
    multiplication sign U+00D7 apart, move up by 32. *)
Definition lower_unit (c : ascii) : ascii :=
  let n := nat_of_ascii c in
  if ((65 <=? n) && (n <=? 90))
     || ((192 <=? n) && (n <=? 222) && negb (n =? 215))
  then ascii_of_nat (n + 32)
  else c.

Fixpoint toLowerCase (s : string) : string :=
  match s with
  | EmptyString => EmptyString
  | String c s' => String (lower_unit c) (toLowerCase s')
  end.

(** [s.startsWith(needle)]. *)
Fixpoint startsWith (s needle : string) : bool :=
  match needle, s with
  | EmptyString, _ => true
  | String _ _, EmptyString => false
  | String a needle', String b s' =>
      if Ascii.eqb a b then startsWith s' needle' else false
  end.

(** [s.includes(needle)]: [needle] starts at some position of [s]. *)
Fixpoint includes (s needle : string) : bool :=
  startsWith s needle
  || match s with
     | EmptyString => false
     | String _ s' => includes s' needle
     end.

(** WhiteSpace and LineTerminator code units below 256: TAB, LF, VT, FF,
    CR, SP and NBSP. *)
Definition isWhiteSpace (c : ascii) : bool :=
  let n := nat_of_ascii c in
  ((9 <=? n) && (n <=? 13)) || (n =? 32) || (n =? 160).

Fixpoint trimStart (s : string) : string :=
  match s with
  | EmptyString => EmptyString
  | String c s' => if isWhiteSpace c then trimStart s' else s
  end.

Fixpoint trimEnd (s : string) : string :=
  match s with
  | EmptyString => EmptyString
  | String c s' =>
      match trimEnd s' with
      | EmptyString => if isWhiteSpace c then EmptyString else String c EmptyString
      | t => String c t
      end
  end.

(** [s.trim()]. *)
Definition trim (s : string) : string := trimEnd (trimStart s).

(** A string is truthy when it is not empty. *)
Definition truthy (s : string) : bool :=
  match s with
  | EmptyString => false
  | String _ _ => true
  end.

End Js.

(** [needle] occurs in [s]: the declarative reading of "contains". *)
Definition Substring (needle s : string) : Prop :=
  exists pre post, s = (pre ++ needle ++ post)%string.

(* ================================================================= *)
(** ** The response selector (ChatInterface.tsx, lines 135-155) *)

Definition HEADACHE_ADVICE : string :=
  "For headaches, try resting in a quiet, dark room. Stay hydrated and consider over-the-counter pain relievers like acetaminophen or ibuprofen. If headaches persist or worsen, consult a healthcare provider.".

(** The source text holds the two code units U+00C2 U+00B0 before each
    of F and C. *)
Definition DEGREE : string :=
  String (ascii_of_nat 194) (String (ascii_of_nat 176) EmptyString).

Definition FEVER_ADVICE : string :=
  ("For fever, stay hydrated, rest, and monitor your temperature. Over-the-counter fever reducers like acetaminophen or ibuprofen can help. Seek medical attention if fever exceeds 103"
   ++ DEGREE ++ "F (39.4" ++ DEGREE ++ "C) or lasts more than 3 days.")%string.

Definition COLD_FLU_ADVICE : string :=
  "For cold or flu symptoms, get plenty of rest, stay hydrated, and use over-the-counter medications for symptom relief. Wash hands frequently and avoid close contact with others. Consult a doctor if symptoms worsen or persist beyond 10 days.".

Definition COUGH_ADVICE : string :=
  "For a cough, stay hydrated, use honey (for ages 1+), and consider cough suppressants. Avoid irritants like smoke. If cough persists beyond 3 weeks, produces blood, or is accompanied by fever, see a healthcare provider.".

Definition GENERIC_DISCLAIMER : string :=
  "I understand you have a health concern. While I can provide general information, I recommend consulting with a qualified healthcare professional for personalized medical advice and proper diagnosis. Always seek immediate medical attention for emergencies.".

Definition generateMedicalResponse (query : string) : string :=
  let lowerQuery := Js.toLowerCase query in
  if Js.includes lowerQuery "headache" then HEADACHE_ADVICE
  else if Js.includes lowerQuery "fever" then FEVER_ADVICE
  else if Js.includes lowerQuery "cold" || Js.includes lowerQuery "flu"
  then COLD_FLU_ADVICE
  else if Js.includes lowerQuery "cough" then COUGH_ADVICE
  else GENERIC_DISCLAIMER.

(** The selector as the specification words it: a table of rules in
    priority order, each a group of keywords with its advice; the first
    rule one of whose keywords occurs in the lower-cased input wins, and
    the disclaimer is the answer when none does. *)
Definition priority_rules : list (list string * string) :=
  [ (["headache"], HEADACHE_ADVICE);
    (["fever"], FEVER_ADVICE);
    (["cold"; "flu"], COLD_FLU_ADVICE);
    (["cough"], COUGH_ADVICE) ].

Definition canned_responses : list string :=
  [HEADACHE_ADVICE; FEVER_ADVICE; COLD_FLU_ADVICE; COUGH_ADVICE;
   GENERIC_DISCLAIMER].

Inductive Selects (lowered : string) :
  list (list string * string) -> string -> Prop :=
| Selects_none : Selects lowered [] GENERIC_DISCLAIMER
| Selects_here : forall kws advice rest kw,
    In kw kws -> Substring kw lowered ->
    Selects lowered ((kws, advice) :: rest) advice
| Selects_later : forall kws advice rest r,
    (forall kw, In kw kws -> ~ Substring kw lowered) ->
    Selects lowered rest r ->
    Selects lowered ((kws, advice) :: rest) r.

(* ================================================================= *)
(** ** Rows (types/index.ts and the migration's tables) *)

Definition uuid : Type := nat.
Definition timestamptz : Type := nat.

(** [role text NOT NULL CHECK (role IN ('user', 'assistant'))]. *)
Inductive Role : Type := user | assistant.

Record ChatSession : Type := mkChatSession {
  cs_id : uuid;
  cs_user_id : uuid;
  cs_title : string;
  cs_created_at : timestamptz;
  cs_updated_at : timestamptz
}.

Record Message : Type := mkMessage {
  m_id : uuid;
  m_session_id : uuid;
  m_role : Role;
  m_content : string;
  m_created_at : timestamptz
}.

(** What a rejected request reports. *)
Inductive PostgrestError : Type :=
| RowLevelSecurity
| ForeignKey
| FetchFailed.

(** The [{ data, error }] object every supabase call resolves to. *)
Record PostgrestResponse (T : Type) : Type := mkResponse {
  data : option T;
  error : option PostgrestError
}.
Arguments mkResponse {T} _ _.
Arguments data {T} _.
Arguments error {T} _.

Definition fulfilled {T : Type} (d : option T) : PostgrestResponse T :=
  mkResponse d None.
Definition rejected {T : Type} (e : PostgrestError) : PostgrestResponse T :=
  mkResponse None (Some e).

(* ================================================================= *)
(** ** ORDER BY *)

Section OrderBy.
Context {A : Type} (key : A -> timestamptz) (ascending : bool).

(** [x] may stand before [y] in the requested direction. *)
Definition before (x y : A) : bool :=
  if ascending then key x <=? key y else key y <=? key x.

Fixpoint insert_row (x : A) (rows : list A) : list A :=
  match rows with
  | [] => [x]
  | y :: rows' =>
      if before x y then x :: rows else y :: insert_row x rows'
  end.

Definition order_by (rows : list A) : list A :=
  fold_right insert_row [] rows.
End OrderBy.

(* ================================================================= *)
(** ** The database: tables, defaults and row-level policies *)

Module Db.

Record t : Type := mk {
  users : list uuid;                (* the ids of the rows of users *)
  chat_sessions : list ChatSession; (* oldest insert first *)
  messages : list Message;          (* oldest insert first *)
  next_uuid : uuid;                 (* gen_random_uuid() *)
  now : timestamptz                 (* now() *)
}.

(** [EXISTS (SELECT 1 FROM chat_sessions WHERE chat_sessions.id = sid
    AND chat_sessions.user_id = auth.uid())]. *)
Definition owns_session (d : t) (auth_uid sid : uuid) : bool :=
  existsb (fun s => (cs_id s =? sid) && (cs_user_id s =? auth_uid))
          (chat_sessions d).

(** [from('chat_sessions').select('*').order('updated_at',
    { ascending: false })] under "Users can view own chat sessions". *)
Definition listSessions (auth_uid : uuid) (d : t) : list ChatSession :=
  order_by cs_updated_at false
    (filter (fun s => cs_user_id s =? auth_uid) (chat_sessions d)).

(** [from('messages').select('*').eq('session_id', sid).order(
    'created_at', { ascending: true })] under "Users can view messages
    from own sessions". *)
Definition listMessages (auth_uid sid : uuid) (d : t) : list Message :=
  order_by m_created_at true
    (filter (fun m => (m_session_id m =? sid)
                      && owns_session d auth_uid (m_session_id m))
            (messages d)).

(** [from('chat_sessions').insert([{ user_id, title }]).select()
    .single()]: the policy's WITH CHECK, the foreign key to users, then
    the defaults of the remaining columns. *)
Definition createSession (auth_uid user_id : uuid) (title : string) (d : t)
  : PostgrestResponse ChatSession * t :=
  if negb (user_id =? auth_uid) then (rejected RowLevelSecurity, d)
  else if negb (existsb (Nat.eqb user_id) (users d))
  then (rejected ForeignKey, d)
  else
    let row := mkChatSession (next_uuid d) user_id title (now d) (now d) in
    (fulfilled (Some row),
     mk (users d) (chat_sessions d ++ [row]) (messages d)
        (S (next_uuid d)) (S (now d))).

(** [from('messages').insert([{ session_id, role, content }])]: no
    [.select()], so [data] is null also on success. *)
Definition appendMessage (auth_uid sid : uuid) (role : Role)
    (content : string) (d : t) : PostgrestResponse unit * t :=
  if negb (owns_session d auth_uid sid) then (rejected RowLevelSecurity, d)
  else
    let row := mkMessage (next_uuid d) sid role content (now d) in
    (fulfilled None,
     mk (users d) (chat_sessions d) (messages d ++ [row])
        (S (next_uuid d)) (S (now d))).

(** [from('chat_sessions').update({ updated_at }).eq('id', sid)]: rows
    the policy hides are not updated, and that is no error. *)
Definition touchSession (auth_uid sid : uuid) (updated_at : timestamptz)
    (d : t) : PostgrestResponse unit * t :=
  (fulfilled None,
   mk (users d)
      (map (fun s =>
              if (cs_id s =? sid) && (cs_user_id s =? auth_uid)
              then mkChatSession (cs_id s) (cs_user_id s) (cs_title s)
                                 (cs_created_at s) updated_at
              else s)
           (chat_sessions d))
      (messages d) (next_uuid d) (now d)).

(** Rows of messages were stamped by inserts of the past. *)
Definition stamped (d : t) : Prop :=
  Forall (fun m => m_created_at m < now d) (messages d).

End Db.

(* ================================================================= *)
(** ** The component's world *)

(** The five [useState] cells of [ChatInterface]. *)
Record View : Type := mkView {
  sessions : list ChatSession;
  currentSession : option ChatSession;
  messages : list Message;
  input : string;
  loading : bool
}.

(** A request as the client builds it. *)
Inductive Request : Type :=
| SelectChatSessions
| SelectMessages (session_id : uuid)
| InsertChatSession (user_id : uuid) (title : string)
| InsertMessage (session_id : uuid) (role : Role) (content : string)
| UpdateChatSession (id : uuid) (updated_at : timestamptz).

Record World : Type := mkWorld {
  view : View;
  db : Db.t;
  uid : uuid;          (* [user.id] of the prop, also auth.uid() *)
  clock : timestamptz; (* what [new Date()] reads *)
  tape : list (option PostgrestError);
                       (* verdicts for the coming requests: [Some e]
                          rejects the request with [e] before it reaches
                          the database, so that nothing is written;
                          [None] and the end of the tape let it
                          through *)
  requests : list Request;                   (* issued, oldest first *)
  console : list (string * PostgrestError)   (* console.error calls *)
}.

Definition with_view (v : View) (w : World) : World :=
  mkWorld v (db w) (uid w) (clock w) (tape w) (requests w) (console w).

(** No exchange is in flight. *)
Definition idle (w : World) : Prop := loading (view w) = false.

(** An async function of the component. *)
Definition Task (A : Type) : Type := World -> A * World.

Definition ret {A : Type} (a : A) : Task A := fun w => (a, w).

Definition bind {A B : Type} (m : Task A) (k : A -> Task B) : Task B :=
  fun w => let (a, w') := m w in k a w'.

Declare Scope task_scope.
Delimit Scope task_scope with task.
Notation "x <- m ;; k" := (bind m (fun x => k))
  (at level 61, m at next level, right associativity) : task_scope.
Notation "m ;; k" := (bind m (fun _ => k))
  (at level 61, right associativity) : task_scope.
Local Open Scope task_scope.

(** The world a task leaves behind. *)
Definition exec {A : Type} (m : Task A) (w : World) : World := snd (m w).

(** The state cells as the running handler's closure holds them. *)
Definition closure : Task View := fun w => (view w, w).

Definition setSessions (l : list ChatSession) : Task unit := fun w =>
  let v := view w in
  (tt, with_view (mkView l (currentSession v) (messages v) (input v)
                         (loading v)) w).

Definition setCurrentSession (c : option ChatSession) : Task unit := fun w =>
  let v := view w in
  (tt, with_view (mkView (sessions v) c (messages v) (input v) (loading v)) w).

Definition setMessages (l : list Message) : Task unit := fun w =>
  let v := view w in
  (tt, with_view (mkView (sessions v) (currentSession v) l (input v)
                         (loading v)) w).

Definition setInput (s : string) : Task unit := fun w =>
  let v := view w in
  (tt, with_view (mkView (sessions v) (currentSession v) (messages v) s
                         (loading v)) w).

Definition setLoading (b : bool) : Task unit := fun w =>
  let v := view w in
  (tt, with_view (mkView (sessions v) (currentSession v) (messages v)
                         (input v) b) w).

Definition console_error (label : string) (e : PostgrestError) : Task unit :=
  fun w =>
    (tt, mkWorld (view w) (db w) (uid w) (clock w) (tape w) (requests w)
                 (console w ++ [(label, e)])).

Definition new_Date : Task timestamptz := fun w => (clock w, w).

(** The verdict for the [n]-th coming request; the end of the tape lets
    every request through. *)
Definition verdict (n : nat) (w : World) : option PostgrestError :=
  nth n (tape w) None.

(** One awaited request: it is recorded, the tape's verdict is consumed,
    and the database answers when the request is let through. *)
Definition await {T : Type} (rq : Request)
    (handler : Db.t -> PostgrestResponse T * Db.t)
  : Task (PostgrestResponse T) :=
  fun w =>
    let sent d :=
      mkWorld (view w) d (uid w) (clock w) (tl (tape w)) (requests w ++ [rq])
              (console w) in
    match verdict 0 w with
    | Some e => (rejected e, sent (db w))
    | None => let (r, d) := handler (db w) in (r, sent d)
    end.

(** The five queries of the component, each with the request it sends
    and the answer of the database to the signed-in user. *)
Definition select_chat_sessions : Task (PostgrestResponse (list ChatSession)) :=
  fun w =>
    await SelectChatSessions
          (fun d => (fulfilled (Some (Db.listSessions (uid w) d)), d)) w.

Definition select_messages (sessionId : uuid)
  : Task (PostgrestResponse (list Message)) :=
  fun w =>
    await (SelectMessages sessionId)
          (fun d => (fulfilled (Some (Db.listMessages (uid w) sessionId d)), d))
          w.

Definition insert_chat_session (user_id : uuid) (title : string)
  : Task (PostgrestResponse ChatSession) :=
  fun w =>
    await (InsertChatSession user_id title)
          (Db.createSession (uid w) user_id title) w.

Definition insert_message (session_id : uuid) (role : Role) (content : string)
  : Task (PostgrestResponse unit) :=
  fun w =>
    await (InsertMessage session_id role content)
          (Db.appendMessage (uid w) session_id role content) w.

Definition update_chat_session (id : uuid) (updated_at : timestamptz)
  : Task (PostgrestResponse unit) :=
  fun w =>
    await (UpdateChatSession id updated_at)
          (Db.touchSession (uid w) id updated_at) w.

(** [data || []]. *)
Definition or_empty {A : Type} (d : option (list A)) : list A :=
  match d with
  | Some rows => rows
  | None => []
  end.

(* ================================================================= *)
(** ** The handlers (ChatInterface.tsx, lines 32-133) *)

(** Lines 32-47. *)
Definition loadSessions : Task unit :=
  v <- closure ;;
  r <- select_chat_sessions ;;
  match error r with
  | Some e => console_error "Error loading sessions:" e
  | None =>
      setSessions (or_empty (data r)) ;;
      match data r, currentSession v with
      | Some (first :: _), None => setCurrentSession (Some first)
      | _, _ => ret tt
      end
  end.

(** Lines 49-62. *)
Definition loadMessages (sessionId : uuid) : Task unit :=
  r <- select_messages sessionId ;;
  match error r with
  | Some e => console_error "Error loading messages:" e
  | None => setMessages (or_empty (data r))
  end.

(** Lines 64-86; [sessions] is the list the closure holds. *)
Definition createNewSession : Task unit :=
  v <- closure ;;
  u <- (fun w => (uid w, w)) ;;
  r <- insert_chat_session u "New Chat" ;;
  match error r with
  | Some e => console_error "Error creating session:" e
  | None =>
      match data r with
      | Some row =>
          setSessions (row :: sessions v) ;;
          setCurrentSession (Some row) ;;
          setMessages []
      | None => ret tt
      end
  end.

(** Lines 88-133.  The guard of line 89 tests the trimmed input, the
    selected session and the loading flag; the session is needed below,
    so its test is the outer match. *)
Definition sendMessage : Task unit :=
  v <- closure ;;
  match currentSession v with
  | None => ret tt
  | Some cur =>
      if negb (Js.truthy (Js.trim (input v))) || loading v then ret tt
      else
        let userMessage := Js.trim (input v) in
        setInput "" ;;
        setLoading true ;;
        r1 <- insert_message (cs_id cur) user userMessage ;;
        match error r1 with
        | Some e =>
            console_error "Error saving user message:" e ;;
            setLoading false
        | None =>
            loadMessages (cs_id cur) ;;
            let assistantResponse := generateMedicalResponse userMessage in
            r2 <- insert_message (cs_id cur) assistant assistantResponse ;;
            match error r2 with
            | Some e => console_error "Error saving assistant message:" e
            | None => ret tt
            end ;;
            loadMessages (cs_id cur) ;;
            date <- new_Date ;;
            update_chat_session (cs_id cur) date ;;
            setLoading false
        end
  end.

(** The rows one exchange writes for the session [cur]. *)
Definition user_turn (w : World) (cur : ChatSession) : Message :=
  mkMessage (Db.next_uuid (db w)) (cs_id cur) user
            (Js.trim (input (view w))) (Db.now (db w)).

Definition assistant_turn (w : World) (cur : ChatSession) : Message :=
  mkMessage (S (Db.next_uuid (db w))) (cs_id cur) assistant
            (generateMedicalResponse (Js.trim (input (view w))))
            (S (Db.now (db w))).

(** The requests of one full exchange, in the order they are sent. *)
Definition exchange (w : World) (cur : ChatSession) : list Request :=
  [ InsertMessage (cs_id cur) user (Js.trim (input (view w)));
    SelectMessages (cs_id cur);
    InsertMessage (cs_id cur) assistant
                  (generateMedicalResponse (Js.trim (input (view w))));
    SelectMessages (cs_id cur);
    UpdateChatSession (cs_id cur) (clock w) ].

(** The sessions table once [sid] has been touched at [t]. *)
Definition touched (auth_uid sid : uuid) (t : timestamptz) (d : Db.t)
  : list ChatSession :=
  Db.chat_sessions (snd (Db.touchSession auth_uid sid t d)).

(** What the console gains when a request with verdict [v] is reported
    under [label]. *)
Definition logged (label : string) (v : option PostgrestError)
  : list (string * PostgrestError) :=
  match v with
  | Some e => [(label, e)]
  | None => []
  end.

(** A database with one user and one empty session of theirs, and a
    world in which that session is selected and a message is typed. *)
Definition surgery_session : ChatSession := mkChatSession 100 7 "New Chat" 10 10.

Definition surgery_db : Db.t := Db.mk [7] [surgery_session] [] 101 11.

Definition surgery (typed : string) (verdicts : list (option PostgrestError))
  : World :=
  mkWorld (mkView [surgery_session] (Some surgery_session) [] typed false)
          surgery_db 7 50 verdicts [] [].

(** The same world on a day the touch, the fifth request of an exchange,
    does not reach the database. *)
Definition touch_fails : World :=
  surgery "a cold" [None; None; None; None; Some FetchFailed].

(** The rows the scenario "create A, create B, touch A" works with. *)
Definition session_A (u : uuid) (d : Db.t) : ChatSession :=
  mkChatSession (Db.next_uuid d) u "New Chat" (Db.now d) (Db.now d).

Definition session_B (u : uuid) (d : Db.t) : ChatSession :=
  mkChatSession (S (Db.next_uuid d)) u "New Chat" (S (Db.now d)) (S (Db.now d)).

Definition with_updated_at (t : timestamptz) (s : ChatSession) : ChatSession :=
  mkChatSession (cs_id s) (cs_user_id s) (cs_title s) (cs_created_at s) t.

(** A task keeps a property of the database. *)
Definition keeps (P : Db.t -> Prop) {A : Type} (m : Task A) : Prop :=
  forall w, P (db w) -> P (db (snd (m w))).

(** A user who has just signed in and owns no session yet. *)
Definition signed_in : World :=
  mkWorld (mkView [] None [] "" false) (Db.mk [7] [] [] 1 1) 7 5 [] [] [].

(* ================================================================= *)
(** ** Further vocabulary for the properties below *)

(** Every unit of [s] passes the test [p]. *)
Fixpoint every_unit (p : ascii -> bool) (s : string) : bool :=
  match s with
  | EmptyString => true
  | String c s' => p c && every_unit p s'
  end.

(** Only whitespace, or nothing at all. *)
Definition blank (s : string) : bool := every_unit Js.isWhiteSpace s.

(** No whitespace anywhere. *)
Definition solid (s : string) : bool :=
  every_unit (fun c => negb (Js.isWhiteSpace c)) s.

(** The keywords the selector looks for (lines 138-150). *)
Definition keywords : list string :=
  ["headache"; "fever"; "cold"; "flu"; "cough"].

(** The first and the last unit of a string. *)
Definition first_unit (s : string) : option ascii :=
  match s with
  | EmptyString => None
  | String c _ => Some c
  end.

Fixpoint last_unit (s : string) : option ascii :=
  match s with
  | EmptyString => None
  | String c EmptyString => Some c
  | String _ s' => last_unit s'
  end.

(** What the schema declares of keys and references: the primary keys
    of a table are pairwise distinct and were handed out by the counter,
    every session references a user and every message a session. *)
Definition db_consistent (d : Db.t) : Prop :=
  NoDup (map cs_id (Db.chat_sessions d))
  /\ NoDup (map m_id (Db.messages d))
  /\ Forall (fun s => cs_id s < Db.next_uuid d) (Db.chat_sessions d)
  /\ Forall (fun m => m_id m < Db.next_uuid d) (Db.messages d)
  /\ Forall (fun s => In (cs_user_id s) (Db.users d)) (Db.chat_sessions d)
  /\ Forall (fun m => In (m_session_id m) (map cs_id (Db.chat_sessions d)))
            (Db.messages d).

(** The database along one exchange for the session [cur]: after the
    [user] insert, after the [assistant] insert when it is let through,
    and after the touch when it is let through. *)
Definition after_user (w : World) (cur : ChatSession) : Db.t :=
  snd (Db.appendMessage (uid w) (cs_id cur) user (Js.trim (input (view w)))
                        (db w)).

Definition after_assistant (w : World) (cur : ChatSession) : Db.t :=
  match verdict 2 w with
  | None =>
      snd (Db.appendMessage (uid w) (cs_id cur) assistant
             (generateMedicalResponse (Js.trim (input (view w))))
             (after_user w cur))
  | Some _ => after_user w cur
  end.

Definition after_touch (w : World) (cur : ChatSession) : Db.t :=
  match verdict 4 w with
  | None =>
      snd (Db.touchSession (uid w) (cs_id cur) (clock w)
                           (after_assistant w cur))
  | Some _ => after_assistant w cur
  end.

(** The message list on screen after that exchange: the last reload that
    was let through decides, and the former list stays when none was. *)
Definition shown_after (w : World) (cur : ChatSession) : list Message :=
  match verdict 3 w, verdict 1 w with
  | None, _ => Db.listMessages (uid w) (cs_id cur) (after_assistant w cur)
  | Some _, None => Db.listMessages (uid w) (cs_id cur) (after_user w cur)
  | Some _, Some _ => messages (view w)
  end.

(** The three ways a call of [sendMessage] can go, each with the world it
    leaves: stopped by the guard; stopped after a failed [user] insert;
    or run to the end, whatever the four later requests answer. *)
Inductive SendRun (w : World) : World -> Prop :=
| send_guarded :
    currentSession (view w) = None
    \/ loading (view w) = true
    \/ Js.trim (input (view w)) = "" ->
    SendRun w w
| send_stopped : forall cur e,
    currentSession (view w) = Some cur ->
    loading (view w) = false ->
    Js.trim (input (view w)) <> "" ->
    error (fst (insert_message (cs_id cur) user (Js.trim (input (view w))) w))
    = Some e ->
    SendRun w
      (mkWorld (mkView (sessions (view w)) (Some cur) (messages (view w))
                       "" false)
               (db w) (uid w) (clock w) (skipn 1 (tape w))
               (requests w
                ++ [InsertMessage (cs_id cur) user
                                  (Js.trim (input (view w)))])
               (console w ++ [("Error saving user message:", e)]))
| send_exchanged : forall cur,
    currentSession (view w) = Some cur ->
    loading (view w) = false ->
    Js.trim (input (view w)) <> "" ->
    verdict 0 w = None ->
    Db.owns_session (db w) (uid w) (cs_id cur) = true ->
    SendRun w
      (mkWorld (mkView (sessions (view w)) (Some cur) (shown_after w cur)
                       "" false)
               (after_touch w cur) (uid w) (clock w) (skipn 5 (tape w))
               (requests w ++ exchange w cur)
               (console w
                ++ logged "Error loading messages:" (verdict 1 w)
                ++ logged "Error saving assistant message:" (verdict 2 w)
                ++ logged "Error loading messages:" (verdict 3 w))).

(** The state cells as [useState] creates them (lines 11-15). *)
Definition initial_view : View := mkView [] None [] "" false.

(** Two values of the selection cell are the same value.  React compares
    the cell by object identity; rows are compared field by field here,
    which is the same thing as long as distinct rows differ in their
    ids. *)
Definition ChatSession_eqb (a b : ChatSession) : bool :=
  (cs_id a =? cs_id b) && (cs_user_id a =? cs_user_id b)
  && String.eqb (cs_title a) (cs_title b)
  && (cs_created_at a =? cs_created_at b)
  && (cs_updated_at a =? cs_updated_at b).

Definition selection_eqb (a b : option ChatSession) : bool :=
  match a, b with
  | Some x, Some y => ChatSession_eqb x y
  | None, None => true
  | _, _ => false
  end.

(** Lines 22-26, the body of the effect that depends on the selection. *)
Definition currentSession_effect : Task unit :=
  v <- closure ;;
  match currentSession v with
  | Some c => loadMessages (cs_id c)
  | None => ret tt
  end.

(** What follows a handler that was entered with the cells [before]: the
    effect runs when the selection is no longer the one the handler
    found. *)
Definition rerender (before : View) : Task unit :=
  v <- closure ;;
  if selection_eqb (currentSession before) (currentSession v)
  then ret tt
  else currentSession_effect.

(** Mounting the component: fresh cells, the effect of lines 18-20, and
    the effect of lines 22-26 once the selection was set. *)
Definition mount : Task unit :=
  (fun w => (tt, with_view initial_view w)) ;;
  loadSessions ;;
  rerender initial_view.

(** A click on "+ New Chat" (line 176). *)
Definition newChat : Task unit :=
  v <- closure ;;
  createNewSession ;;
  rerender v.

(** A click on an item of the session list (line 185). *)
Definition selectSession (session : ChatSession) : Task unit :=
  v <- closure ;;
  setCurrentSession (Some session) ;;
  rerender v.

(** What the JSX (lines 168-247) makes of the state cells. *)
Record SendButton : Type := mkSendButton {
  disabled : bool;
  caption : string
}.

(** Lines 227-244: the input row is rendered for a selected session
    only. *)
Definition send_button (v : View) : option SendButton :=
  match currentSession v with
  | Some _ =>
      Some (mkSendButton (loading v || negb (Js.truthy (Js.trim (input v))))
                         (if loading v then "Sending..." else "Send"))
  | None => None
  end.

(** Line 184: the list item of [session] carries the class [active]. *)
Definition item_active (v : View) (session : ChatSession) : bool :=
  match currentSession v with
  | Some c => cs_id c =? cs_id session
  | None => false
  end.

(** The part of a keyboard event [handleKeyPress] reads. *)
Record KeyboardEvent : Type := mkKeyboardEvent {
  key : string;
  shiftKey : bool
}.

(** Lines 157-162; the result tells whether [preventDefault] was
    called. *)
Definition handleKeyPress (e : KeyboardEvent) : Task bool :=
  if String.eqb (key e) "Enter" && negb (shiftKey e)
  then sendMessage ;; ret true
  else ret false.

(* ================================================================= *)
(** ** Signing in (hooks/useAuth.ts and App.tsx) *)

(** What the code reads of a supabase user and of an auth session. *)
Record SupabaseUser : Type := mkSupabaseUser {
  su_id : uuid;
  su_email : string
}.

Record AuthSession : Type := mkAuthSession {
  session_user : SupabaseUser
}.

(** The two state cells of [useAuth], and whether the component that
    called it is still mounted (after the cleanup of the effect the
    subscription is gone and React drops every update). *)
Record AuthState : Type := mkAuthState {
  auth_user : option SupabaseUser;
  auth_loading : bool;
  auth_mounted : bool
}.

Definition useAuth_initial : AuthState := mkAuthState None true true.

Inductive AuthEvent : Type :=
| SessionResolved (session : option AuthSession) (* [getSession().then] *)
| AuthStateChange (session : option AuthSession) (* the subscription *)
| Unmount.                                       (* the effect's cleanup *)

(** [session?.user ?? null]. *)
Definition user_or_null (session : option AuthSession) : option SupabaseUser :=
  option_map session_user session.

Definition useAuth_step (st : AuthState) (ev : AuthEvent) : AuthState :=
  if auth_mounted st then
    match ev with
    | SessionResolved session => mkAuthState (user_or_null session) false true
    | AuthStateChange session =>
        mkAuthState (user_or_null session) (auth_loading st) true
    | Unmount => mkAuthState (auth_user st) (auth_loading st) false
    end
  else st.

Definition useAuth_after (evs : list AuthEvent) : AuthState :=
  fold_left useAuth_step evs useAuth_initial.

(** What [App] renders. *)
Inductive Screen : Type :=
| LoadingScreen
| AuthScreen
| ChatScreen (user : SupabaseUser).

Definition App (st : AuthState) : Screen :=
  if auth_loading st then LoadingScreen
  else match auth_user st with
       | None => AuthScreen
       | Some u => ChatScreen u
       end.

Definition is_resolution (ev : AuthEvent) : bool :=
  match ev with
  | SessionResolved _ => true
  | _ => false
  end.

Definition is_unmount (ev : AuthEvent) : bool :=
  match ev with
  | Unmount => true
  | _ => false
  end.

(** The surgery after one exchange about the flu, a click on "+ New Chat"
    and a message typed into the new chat. *)
Definition second_chat : World :=
  exec (setInput "a cough")
       (exec createNewSession (exec sendMessage (surgery "flu" []))).

(** A user whose clock is behind the database's, signed in and without a
    session. *)
Definition clock_behind : World :=
  mkWorld initial_view (Db.mk [7] [] [] 1 20) 7 5 [] [] [].

(** The scenario "create A, create B, touch A" as the component runs it:
    two clicks on "+ New Chat", a click on A, a message sent in A, whose
    last request is the touch, and a fresh load of the list. *)
Definition create_A_create_B_touch_A : Task unit :=
  createNewSession ;;
  createNewSession ;;
  setCurrentSession (Some (mkChatSession 1 7 "New Chat" 20 20)) ;;
  setInput "a cough" ;;
  sendMessage ;;
  loadSessions.

(* ================================================================= *)
(** ** The component between its awaits *)

(** The handlers are async functions: at an [await] a handler hands its
    request to the network and returns, the page stays usable, and the
    rest of the handler runs when the answer arrives, with the values its
    closure has held since the call.  What follows cuts the four handlers
    at their six awaits. *)

(** Who called [loadMessages] and goes on when it returns: the effect of
    lines 22-26, or [sendMessage] at line 109 or at line 125. *)
Inductive Caller : Type :=
| the_effect
| send_line_109 (cur : ChatSession) (userMessage : string)
| send_line_125 (cur : ChatSession).

(** A handler waiting at an [await]: what its closure holds of the
    values it still needs, and the answer, once there is one. *)
Inductive Pending : Type :=
| awaits_sessions                                       (* line 33 *)
    (answer : option (PostgrestResponse (list ChatSession)))
| awaits_messages (sessionId : uuid) (caller : Caller)  (* line 50 *)
    (answer : option (PostgrestResponse (list Message)))
| awaits_new_session (sessions_held : list ChatSession) (* line 65 *)
    (answer : option (PostgrestResponse ChatSession))
| awaits_user_insert (cur : ChatSession) (userMessage : string)
    (answer : option (PostgrestResponse unit))          (* line 95 *)
| awaits_assistant_insert (cur : ChatSession) (assistantResponse : string)
    (answer : option (PostgrestResponse unit))          (* line 113 *)
| awaits_touch (cur : ChatSession) (date : timestamptz)
    (answer : option (PostgrestResponse unit)).         (* line 127 *)

Definition answered (h : Pending) : bool :=
  match h with
  | awaits_sessions (Some _)
  | awaits_messages _ _ (Some _)
  | awaits_new_session _ (Some _)
  | awaits_user_insert _ _ (Some _)
  | awaits_assistant_insert _ _ (Some _)
  | awaits_touch _ _ (Some _) => true
  | _ => false
  end.

(** The page: the world of the component (its tape is not read here, the
    schedule decides what fails), the handlers that wait, oldest first,
    and the list item whose object the selection cell holds, if any:
    React compares the cell by object identity, every answer brings new
    objects, and a click stores the object of the clicked item. *)
Record Page : Type := mkPage {
  world : World;
  pending : list Pending;
  picked : option nat
}.

Definition update (m : Task unit) (p : Page) : Page :=
  mkPage (exec m (world p)) (pending p) (picked p).

Definition pick (n : option nat) (p : Page) : Page :=
  mkPage (world p) (pending p) n.

Definition with_db (d : Db.t) (w : World) : World :=
  mkWorld (view w) d (uid w) (clock w) (tape w) (requests w) (console w).

Definition record_request (rq : Request) : Task unit := fun w =>
  (tt, mkWorld (view w) (db w) (uid w) (clock w) (tape w)
               (requests w ++ [rq]) (console w)).

(** A request leaves and its handler waits. *)
Definition fetch (rq : Request) (h : Pending) (p : Page) : Page :=
  mkPage (exec (record_request rq) (world p)) (pending p ++ [h]) (picked p).

(** The handlers up to their first [await]. *)
Definition begin_loadSessions : Page -> Page :=
  fetch SelectChatSessions (awaits_sessions None).

Definition begin_loadMessages (sessionId : uuid) (caller : Caller)
  : Page -> Page :=
  fetch (SelectMessages sessionId) (awaits_messages sessionId caller None).

Definition begin_createNewSession (p : Page) : Page :=
  fetch (InsertChatSession (uid (world p)) "New Chat")
        (awaits_new_session (sessions (view (world p))) None) p.

(** Lines 89-95. *)
Definition begin_sendMessage (p : Page) : Page :=
  let v := view (world p) in
  match currentSession v with
  | None => p
  | Some cur =>
      if negb (Js.truthy (Js.trim (input v))) || loading v then p
      else
        let userMessage := Js.trim (input v) in
        fetch (InsertMessage (cs_id cur) user userMessage)
              (awaits_user_insert cur userMessage None)
              (update (setInput "" ;; setLoading true) p)
  end.

(** Lines 22-26, run after a render in which the selection cell holds
    another object than before. *)
Definition selection_effect (p : Page) : Page :=
  match currentSession (view (world p)) with
  | Some c => begin_loadMessages (cs_id c) the_effect p
  | None => p
  end.

(** The handler [h] goes on with its answer, up to its next [await] or
    its end. *)
Definition resume (h : Pending) (p : Page) : Page :=
  match h with
  | awaits_sessions (Some r) =>                          (* lines 38-46 *)
      match error r with
      | Some e => update (console_error "Error loading sessions:" e) p
      | None =>
          let p' := update (setSessions (or_empty (data r))) p in
          match data r with
          | Some (first :: _) =>
              selection_effect
                (pick (Some 0) (update (setCurrentSession (Some first)) p'))
          | _ => pick None p'
          end
      end
  | awaits_messages _ caller (Some r) =>                 (* lines 56-61 *)
      let p' :=
        match error r with
        | Some e => update (console_error "Error loading messages:" e) p
        | None => update (setMessages (or_empty (data r))) p
        end in
      match caller with
      | the_effect => p'
      | send_line_109 cur userMessage =>                 (* lines 111-113 *)
          let assistantResponse := generateMedicalResponse userMessage in
          fetch (InsertMessage (cs_id cur) assistant assistantResponse)
                (awaits_assistant_insert cur assistantResponse None) p'
      | send_line_125 cur =>                             (* lines 127-130 *)
          let date := clock (world p') in
          fetch (UpdateChatSession (cs_id cur) date)
                (awaits_touch cur date None) p'
      end
  | awaits_new_session sessions_held (Some r) =>         (* lines 76-85 *)
      match error r with
      | Some e => update (console_error "Error creating session:" e) p
      | None =>
          match data r with
          | Some row =>
              selection_effect
                (pick (Some 0)
                   (update (setSessions (row :: sessions_held) ;;
                            setCurrentSession (Some row) ;;
                            setMessages []) p))
          | None => p
          end
      end
  | awaits_user_insert cur userMessage (Some r) =>       (* lines 103-109 *)
      match error r with
      | Some e =>
          update (console_error "Error saving user message:" e ;;
                  setLoading false) p
      | None => begin_loadMessages (cs_id cur) (send_line_109 cur userMessage) p
      end
  | awaits_assistant_insert cur _ (Some r) =>            (* lines 121-125 *)
      let p' :=
        match error r with
        | Some e =>
            update (console_error "Error saving assistant message:" e) p
        | None => p
        end in
      begin_loadMessages (cs_id cur) (send_line_125 cur) p'
  | awaits_touch _ _ (Some _) => update (setLoading false) p (* line 132 *)
  | _ => p
  end.

(** The store deals with the request of [h] for the signed-in user [u]
    and writes its answer. *)
Definition serve (u : uuid) (h : Pending) (d : Db.t) : Pending * Db.t :=
  match h with
  | awaits_sessions None =>
      (awaits_sessions (Some (fulfilled (Some (Db.listSessions u d)))), d)
  | awaits_messages sid caller None =>
      (awaits_messages sid caller
         (Some (fulfilled (Some (Db.listMessages u sid d)))), d)
  | awaits_new_session held None =>
      let (r, d') := Db.createSession u u "New Chat" d in
      (awaits_new_session held (Some r), d')
  | awaits_user_insert cur userMessage None =>
      let (r, d') := Db.appendMessage u (cs_id cur) user userMessage d in
      (awaits_user_insert cur userMessage (Some r), d')
  | awaits_assistant_insert cur assistantResponse None =>
      let (r, d') :=
        Db.appendMessage u (cs_id cur) assistant assistantResponse d in
      (awaits_assistant_insert cur assistantResponse (Some r), d')
  | awaits_touch cur date None =>
      let (r, d') := Db.touchSession u (cs_id cur) date d in
      (awaits_touch cur date (Some r), d')
  | _ => (h, d)
  end.

(** The request of [h], or the answer to it, is lost on the way: the
    client is told [e], whatever the store did. *)
Definition lose (e : PostgrestError) (h : Pending) : Pending :=
  match h with
  | awaits_sessions _ => awaits_sessions (Some (rejected e))
  | awaits_messages sid caller _ =>
      awaits_messages sid caller (Some (rejected e))
  | awaits_new_session held _ => awaits_new_session held (Some (rejected e))
  | awaits_user_insert cur userMessage _ =>
      awaits_user_insert cur userMessage (Some (rejected e))
  | awaits_assistant_insert cur assistantResponse _ =>
      awaits_assistant_insert cur assistantResponse (Some (rejected e))
  | awaits_touch cur date _ => awaits_touch cur date (Some (rejected e))
  end.

(** What can happen next: the user does something, the store deals with
    a request, a request or its answer is lost, or an answer arrives. *)
Inductive Event : Type :=
| ClickNewChat                  (* line 176 *)
| ClickSession (n : nat)        (* line 185, the [n]-th item of the list *)
| TypeText (text : string)      (* line 233 *)
| PressKey (e : KeyboardEvent)  (* line 234 *)
| ClickSend                     (* line 239 *)
| Served (i : nat)
| Lost (i : nat) (e : PostgrestError)
| Answered (i : nat).

Definition put {A : Type} (i : nat) (x : A) (l : list A) : list A :=
  firstn i l ++ x :: skipn (S i) l.

Definition drop {A : Type} (i : nat) (l : list A) : list A :=
  firstn i l ++ skipn (S i) l.

Definition same_item (held : option nat) (n : nat) : bool :=
  match held with
  | Some m => m =? n
  | None => false
  end.

(** One event.  The textarea exists for a selected session and is
    disabled while loading, a disabled button does not click (lines
    227-241); "+ New Chat" and the items of the list are always there.
    An event that cannot happen leaves the page as it is. *)
Definition handle (ev : Event) (p : Page) : Page :=
  let w := world p in
  let v := view w in
  match ev with
  | ClickNewChat => begin_createNewSession p
  | ClickSession n =>
      match nth_error (sessions v) n with
      | Some session =>
          if same_item (picked p) n then p
          else selection_effect
                 (pick (Some n) (update (setCurrentSession (Some session)) p))
      | None => p
      end
  | TypeText text =>
      match currentSession v with
      | Some _ => if loading v then p else update (setInput text) p
      | None => p
      end
  | PressKey e =>
      match currentSession v with
      | Some _ =>
          if loading v then p
          else if String.eqb (key e) "Enter" && negb (shiftKey e)
               then begin_sendMessage p
               else p
      | None => p
      end
  | ClickSend =>
      match send_button v with
      | Some b => if disabled b then p else begin_sendMessage p
      | None => p
      end
  | Served i =>
      match nth_error (pending p) i with
      | Some h =>
          let (h', d') := serve (uid w) h (db w) in
          mkPage (with_db d' w) (put i h' (pending p)) (picked p)
      | None => p
      end
  | Lost i e =>
      match nth_error (pending p) i with
      | Some h => mkPage w (put i (lose e h) (pending p)) (picked p)
      | None => p
      end
  | Answered i =>
      match nth_error (pending p) i with
      | Some h =>
          if answered h
          then resume h (mkPage w (drop i (pending p)) (picked p))
          else p
      | None => p
      end
  end.

Definition run (evs : list Event) (p : Page) : Page :=
  fold_left (fun p ev => handle ev p) evs p.

(** The first render: fresh cells, [loadSessions] called by the effect
    of lines 18-20, and nothing for the effect of lines 22-26 to do. *)
Definition mounted (w : World) : Page :=
  begin_loadSessions (mkPage (with_view initial_view w) [] None).

(** What a page must keep for the screen to make sense.  A session list
    is sound when its keys are distinct and every row is a session of the
    user in the store; a message list is sound when it is the beginning
    of the stored conversation of one session, as the user reads it. *)
Definition sessions_sound (d : Db.t) (u : uuid) (l : list ChatSession)
  : Prop :=
  NoDup (map cs_id l)
  /\ Forall (fun s => Db.owns_session d u (cs_id s) = true) l.

Definition conversation_prefix (d : Db.t) (u : uuid) (l : list Message)
  : Prop :=
  exists sid rest, Db.listMessages u sid d = l ++ rest.

(** The selection cell holds the object of the item [picked] names; when
    it names none, nothing is selected or nothing is listed. *)
Definition selection_sound (v : View) (held : option nat) : Prop :=
  match held with
  | Some n =>
      exists c, currentSession v = Some c /\ nth_error (sessions v) n = Some c
  | None => currentSession v = None \/ sessions v = []
  end.

(** What a waiting handler holds is sound, and so is the answer it is
    going to show. *)
Definition pending_sound (d : Db.t) (u : uuid) (h : Pending) : Prop :=
  match h with
  | awaits_sessions (Some r) => sessions_sound d u (or_empty (data r))
  | awaits_messages _ _ (Some r) => conversation_prefix d u (or_empty (data r))
  | awaits_new_session held a =>
      sessions_sound d u held
      /\ forall r row, a = Some r -> data r = Some row ->
           Db.owns_session d u (cs_id row) = true
           /\ ~ In (cs_id row) (map cs_id held)
  | _ => True
  end.

Definition page_sound (p : Page) : Prop :=
  db_consistent (db (world p))
  /\ Db.stamped (db (world p))
  /\ sessions_sound (db (world p)) (uid (world p)) (sessions (view (world p)))
  /\ conversation_prefix (db (world p)) (uid (world p))
                         (messages (view (world p)))
  /\ selection_sound (view (world p)) (picked p)
  /\ (forall c, currentSession (view (world p)) = Some c ->
                Db.owns_session (db (world p)) (uid (world p)) (cs_id c)
                = true)
  /\ Forall (pending_sound (db (world p)) (uid (world p))) (pending p).

(** The store [d'] is the store [d] some requests later, as the user [u]
    reads it: no session of theirs is gone and every conversation has
    only grown at its end. *)
Definition grown (u : uuid) (d d' : Db.t) : Prop :=
  (forall sid, Db.owns_session d u sid = true ->
               Db.owns_session d' u sid = true)
  /\ (forall sid, exists more,
         Db.listMessages u sid d' = Db.listMessages u sid d ++ more).

(** A schedule without a race: the next request is dealt with and
    answered, or lost, as the tape of the world says, before anything
    else happens.  [promptly n tape] does so for the next [n] requests. *)
Definition prompt_answer (v : option PostgrestError) : list Event :=
  match v with
  | None => [Served 0; Answered 0]
  | Some e => [Lost 0 e; Answered 0]
  end.

Fixpoint promptly (n : nat) (tape : list (option PostgrestError))
  : list Event :=
  match n with
  | 0 => []
  | S n' => prompt_answer (hd None tape) ++ promptly n' (tl tape)
  end.

Definition with_tape (tp : list (option PostgrestError)) (w : World)
  : World :=
  mkWorld (view w) (db w) (uid w) (clock w) tp (requests w) (console w).

(** A user who selects the other chat while a message is being sent:
    the list arrives and the first chat opens, a second chat is made and
    left again for the first, "flu" is typed and sent, and before the
    store has dealt with the message the second chat is clicked; then
    every request is dealt with and answered in turn. *)
Definition click_B_while_A_sends : list Event :=
  [Served 0; Answered 0; Served 0; Answered 0;
   ClickNewChat; Served 0; Answered 0; Served 0; Answered 0;
   ClickSession 1; Served 0; Answered 0;
   TypeText "flu"; ClickSend; ClickSession 0;
   Served 0; Answered 0; Served 0; Answered 0; Served 0; Answered 0;
   Served 0; Answered 0; Served 0; Answered 0; Served 0; Answered 0].

(** The handler that waits is [sendMessage], at one of its five awaits
    (two of them inside [loadMessages]). *)
Definition in_exchange (h : Pending) : bool :=
  match h with
  | awaits_user_insert _ _ _
  | awaits_assistant_insert _ _ _
  | awaits_touch _ _ _
  | awaits_messages _ (send_line_109 _ _) _
  | awaits_messages _ (send_line_125 _) _ => true
  | _ => false
  end.

(** How many exchanges are under way. *)
Definition exchanges (p : Page) : nat :=
  List.length (filter in_exchange (pending p)).

(** [loading] is on exactly while one exchange is under way. *)
Definition exclusive (p : Page) : Prop :=
  exchanges p = if loading (view (world p)) then 1 else 0.

(** The request for the session list, and the handler that waits for
    it. *)
Definition is_list_request (rq : Request) : bool :=
  match rq with
  | SelectChatSessions => true
  | _ => false
  end.

Definition awaits_list (h : Pending) : bool :=
  match h with
  | awaits_sessions _ => true
  | _ => false
  end.

(** How often the list was asked for, and how many handlers wait for
    it. *)
Definition list_requests (p : Page) : nat :=
  List.length (filter is_list_request (requests (world p))).

Definition list_handlers (p : Page) : nat :=
  List.length (filter awaits_list (pending p)).

(* ================================================================= *)
(** * Properties *)

(** ** Substring search *)

Lemma startsWith_spec (s needle : string) :
  Js.startsWith s needle = true <-> exists post, s = (needle ++ post)%string.
Proof.
  revert s; induction needle as [|a needle IH]; intros s; simpl.
  - split; [intros _; now exists s | intros _; now destruct s].
  - destruct s as [|b s]; simpl.
    + split; [discriminate | intros [post H]; discriminate H].
    + destruct (Ascii.eqb_spec a b) as [->|Hab].
      * rewrite IH. split; intros [post H]; exists post.
        -- now rewrite H.
        -- now inversion H.
      * split; [discriminate | intros [post H]; congruence].
Qed.

Lemma includes_spec (s needle : string) :
  Js.includes s needle = true <-> Substring needle s.
Proof.
  unfold Substring. induction s as [|c s IH].
  - cbn [Js.includes]. rewrite orb_false_r, startsWith_spec. split.
    + intros [post H]. now exists EmptyString, post.
    + intros [[|a pre] [post H]]; [now exists post | discriminate H].
  - cbn [Js.includes]. rewrite orb_true_iff, startsWith_spec, IH. split.
    + intros [[post H] | [pre [post H]]].
      * now exists EmptyString, post.
      * exists (String c pre), post. simpl. now rewrite H.
    + intros [[|a pre] [post H]].
      * left. now exists post.
      * right. exists pre, post. now inversion H.
Qed.

Lemma includes_false (s needle : string) :
  Js.includes s needle = false <-> ~ Substring needle s.
Proof.
  rewrite <- includes_spec. destruct (Js.includes s needle); split;
    intros H; try reflexivity; try discriminate; easy.
Qed.

Lemma toLowerCase_app (a b : string) :
  Js.toLowerCase (a ++ b) = (Js.toLowerCase a ++ Js.toLowerCase b)%string.
Proof.
  induction a as [|c a IH]; simpl; [reflexivity | now rewrite IH].
Qed.

(** ** The response selector *)

Lemma headache_tested_first (query : string) :
  Js.includes (Js.toLowerCase query) "headache" = true ->
  generateMedicalResponse query = HEADACHE_ADVICE.
Proof. intros H. unfold generateMedicalResponse. cbv zeta. now rewrite H. Qed.

(** The lower-cased form is taken unit by unit, so any casing of the
    keyword inside any text is found. *)
Lemma headache_in_any_case (pre kw post : string) :
  Js.toLowerCase kw = "headache" ->
  generateMedicalResponse (pre ++ kw ++ post) = HEADACHE_ADVICE.
Proof.
  intros H. apply headache_tested_first, includes_spec.
  exists (Js.toLowerCase pre), (Js.toLowerCase post).
  now rewrite !toLowerCase_app, H.
Qed.

Lemma headache_in_any_case_witness :
  generateMedicalResponse ("My " ++ "HeadAche" ++ " is back")%string
  = HEADACHE_ADVICE.
Proof.
  exact (headache_in_any_case "My " "HeadAche" " is back" eq_refl).
Defined.

(** C1: every input whose lower-cased form contains "headache", at any
    position, is answered with the headache advice, whatever other
    keywords it holds: "headache" is tested first. *)
Theorem headache_has_first_priority (query : string) :
  Substring "headache" (Js.toLowerCase query) ->
  generateMedicalResponse query = HEADACHE_ADVICE.
Proof. intros H. now apply headache_tested_first, includes_spec. Qed.

Lemma headache_has_first_priority_witness :
  Substring "fever" (Js.toLowerCase "Cough, FEVER and a bad HeadAche since noon")
  /\ generateMedicalResponse "Cough, FEVER and a bad HeadAche since noon"
     = HEADACHE_ADVICE.
Proof.
  split.
  - now exists "cough, ", " and a bad headache since noon".
  - apply headache_has_first_priority.
    now exists "cough, fever and a bad ", " since noon".
Defined.

Lemma canned_responses_distinct : NoDup canned_responses.
Proof.
  assert (Hneq : forall a b, String.eqb a b = false -> a <> b)
    by (intros a b H; now apply String.eqb_neq).
  unfold canned_responses.
  repeat (constructor;
          [ simpl; intros H;
            repeat (destruct H as [H|H];
                    [ revert H; apply Hneq; vm_compute; reflexivity | ]);
            exact H | ]).
  constructor.
Qed.

Lemma Selects_functional (lowered : string) rules r1 r2 :
  Selects lowered rules r1 -> Selects lowered rules r2 -> r1 = r2.
Proof.
  intros H1; revert r2.
  induction H1 as [| kws advice rest kw Hin Hsub
                   | kws advice rest r Hnone _ IH]; intros r2 H2;
    inversion H2; subst; try reflexivity.
  - exfalso. eapply H4; eassumption.
  - exfalso. eapply Hnone; eassumption.
  - now apply IH.
Qed.

Lemma generateMedicalResponse_Selects (query : string) :
  Selects (Js.toLowerCase query) priority_rules (generateMedicalResponse query).
Proof.
  unfold generateMedicalResponse, priority_rules. cbv zeta.
  set (l := Js.toLowerCase query).
  assert (Hskip : forall kws, Forall (fun kw => Js.includes l kw = false) kws ->
                              forall kw, In kw kws -> ~ Substring kw l).
  { intros kws HF kw Hin. rewrite Forall_forall in HF.
    apply includes_false. now apply HF. }
  destruct (Js.includes l "headache") eqn:E1.
  { eapply Selects_here; [left; reflexivity | now apply includes_spec]. }
  apply Selects_later; [apply Hskip; repeat constructor; assumption |].
  destruct (Js.includes l "fever") eqn:E2.
  { eapply Selects_here; [left; reflexivity | now apply includes_spec]. }
  apply Selects_later; [apply Hskip; repeat constructor; assumption |].
  destruct (Js.includes l "cold") eqn:E3; simpl.
  { eapply Selects_here; [left; reflexivity | now apply includes_spec]. }
  destruct (Js.includes l "flu") eqn:E4.
  { eapply Selects_here; [right; left; reflexivity | now apply includes_spec]. }
  apply Selects_later; [apply Hskip; repeat constructor; assumption |].
  destruct (Js.includes l "cough") eqn:E5.
  { eapply Selects_here; [left; reflexivity | now apply includes_spec]. }
  apply Selects_later; [apply Hskip; repeat constructor; assumption |].
  constructor.
Qed.

(** C2: the selector is a function of its input alone; its answer is the
    one the priority table (headache, fever, cold or flu, cough) selects
    on the lower-cased input, no other answer is selected, it is one of
    five distinct fixed strings, and it is the disclaimer when no keyword
    occurs. *)
Theorem selector_follows_priority_table (query : string) :
  Selects (Js.toLowerCase query) priority_rules (generateMedicalResponse query)
  /\ (forall r, Selects (Js.toLowerCase query) priority_rules r ->
                r = generateMedicalResponse query)
  /\ In (generateMedicalResponse query) canned_responses
  /\ NoDup canned_responses
  /\ ((forall kw, In kw ["headache"; "fever"; "cold"; "flu"; "cough"] ->
                  ~ Substring kw (Js.toLowerCase query)) ->
      generateMedicalResponse query = GENERIC_DISCLAIMER).
Proof.
  pose proof (generateMedicalResponse_Selects query) as HS.
  split; [exact HS |].
  split; [intros r Hr; exact (Selects_functional _ _ _ _ Hr HS) |].
  split.
  { unfold generateMedicalResponse, canned_responses. cbv zeta.
    repeat match goal with
           | |- context [if ?b then _ else _] => destruct b
           end; simpl; auto 6. }
  split; [exact canned_responses_distinct |].
  intros Hnone.
  unfold generateMedicalResponse. cbv zeta.
  assert (Hf : forall kw, In kw ["headache"; "fever"; "cold"; "flu"; "cough"] ->
                          Js.includes (Js.toLowerCase query) kw = false).
  { intros kw Hin. apply includes_false. now apply Hnone. }
  rewrite (Hf "headache"), (Hf "fever"), (Hf "cold"), (Hf "flu"), (Hf "cough");
    simpl; auto 6.
Qed.

Lemma selector_follows_priority_table_witness :
  generateMedicalResponse "My knee hurts" = GENERIC_DISCLAIMER.
Proof.
  apply (selector_follows_priority_table "My knee hurts").
  intros kw Hin. apply includes_false.
  simpl in Hin.
  repeat (destruct Hin as [<-|Hin]; [vm_compute; reflexivity |]).
  contradiction.
Defined.

(* ================================================================= *)
(** ** ORDER BY sorts, keeps the rows, and keeps a latest row last *)

Section OrderByFacts.
Context {A : Type} (key : A -> timestamptz) (ascending : bool).

Let in_order (x y : A) : Prop := before key ascending x y = true.

Lemma before_total (x y : A) :
  before key ascending x y = false -> before key ascending y x = true.
Proof.
  unfold before. destruct ascending; intros H;
    apply Nat.leb_gt in H; apply Nat.leb_le; lia.
Qed.

Lemma before_trans (x y z : A) :
  in_order x y -> in_order y z -> in_order x z.
Proof.
  unfold in_order, before. destruct ascending; intros H1 H2;
    apply Nat.leb_le in H1; apply Nat.leb_le in H2; apply Nat.leb_le; lia.
Qed.

Lemma insert_row_Permutation (x : A) (rows : list A) :
  Permutation (insert_row key ascending x rows) (x :: rows).
Proof.
  induction rows as [|y rows IH]; simpl; [reflexivity |].
  destruct (before key ascending x y); [reflexivity |].
  rewrite IH. apply perm_swap.
Qed.

Lemma order_by_Permutation (rows : list A) :
  Permutation (order_by key ascending rows) rows.
Proof.
  induction rows as [|x rows IH]; simpl; [reflexivity |].
  rewrite insert_row_Permutation. now constructor.
Qed.

Lemma insert_row_HdRel (a x : A) (rows : list A) :
  in_order a x -> HdRel in_order a rows ->
  HdRel in_order a (insert_row key ascending x rows).
Proof.
  intros Hax Hd. destruct rows as [|y rows]; simpl.
  - now constructor.
  - destruct (before key ascending x y); constructor;
      first [assumption | now inversion Hd].
Qed.

Lemma insert_row_Sorted (x : A) (rows : list A) :
  Sorted in_order rows -> Sorted in_order (insert_row key ascending x rows).
Proof.
  induction 1 as [|y rows Hs IH Hd]; simpl.
  - repeat constructor.
  - destruct (before key ascending x y) eqn:E.
    + repeat constructor; assumption.
    + constructor; [assumption |].
      apply insert_row_HdRel; [now apply before_total | assumption].
Qed.

Lemma order_by_Sorted (rows : list A) :
  StronglySorted in_order (order_by key ascending rows).
Proof.
  apply Sorted_StronglySorted; [exact before_trans |].
  induction rows as [|x rows IH]; simpl;
    [constructor | now apply insert_row_Sorted].
Qed.

Lemma insert_row_last (y x : A) (rows : list A) :
  in_order y x ->
  insert_row key ascending y (rows ++ [x])
  = insert_row key ascending y rows ++ [x].
Proof.
  intros Hyx. induction rows as [|z rows IH]; simpl.
  - unfold in_order in Hyx. now rewrite Hyx.
  - destruct (before key ascending y z); [reflexivity | now rewrite IH].
Qed.

Lemma order_by_last (x : A) (rows : list A) :
  Forall (fun y => in_order y x) rows ->
  order_by key ascending (rows ++ [x]) = order_by key ascending rows ++ [x].
Proof.
  induction 1 as [|y rows Hy _ IH]; simpl; [reflexivity |].
  fold (order_by key ascending (rows ++ [x])).
  now rewrite IH, insert_row_last.
Qed.
End OrderByFacts.

Lemma StronglySorted_weaken (A : Type) (R S : A -> A -> Prop) (l : list A) :
  (forall x y, R x y -> S x y) -> StronglySorted R l -> StronglySorted S l.
Proof.
  intros HRS. induction 1 as [|a l _ IH Ha]; constructor; [exact IH |].
  eapply Forall_impl; [| exact Ha]. intros y. apply HRS.
Qed.

Lemma ascending_order (A : Type) (key : A -> timestamptz) (rows : list A) :
  StronglySorted (fun x y => key x <= key y) (order_by key true rows).
Proof.
  eapply StronglySorted_weaken; [| exact (order_by_Sorted key true rows)].
  intros x y H. now apply Nat.leb_le in H.
Qed.

Lemma descending_order (A : Type) (key : A -> timestamptz) (rows : list A) :
  StronglySorted (fun x y => key y <= key x) (order_by key false rows).
Proof.
  eapply StronglySorted_weaken; [| exact (order_by_Sorted key false rows)].
  intros x y H. now apply Nat.leb_le in H.
Qed.

(* ================================================================= *)
(** ** The database keeps its stamps, and a new message is read last *)

Lemma owns_session_chat_sessions (d d' : Db.t) (auth_uid sid : uuid) :
  Db.chat_sessions d' = Db.chat_sessions d ->
  Db.owns_session d' auth_uid sid = Db.owns_session d auth_uid sid.
Proof. unfold Db.owns_session. now intros ->. Qed.

Lemma appendMessage_owned (d : Db.t) (auth_uid sid : uuid) role content :
  Db.owns_session d auth_uid sid = true ->
  Db.appendMessage auth_uid sid role content d
  = (fulfilled None,
     Db.mk (Db.users d) (Db.chat_sessions d)
           (Db.messages d
            ++ [mkMessage (Db.next_uuid d) sid role content (Db.now d)])
           (S (Db.next_uuid d)) (S (Db.now d))).
Proof. unfold Db.appendMessage. now intros ->. Qed.

Lemma appendMessage_denied (d : Db.t) (auth_uid sid : uuid) role content :
  Db.owns_session d auth_uid sid = false ->
  Db.appendMessage auth_uid sid role content d = (rejected RowLevelSecurity, d).
Proof. unfold Db.appendMessage. now intros ->. Qed.

Lemma stamped_appendMessage (d : Db.t) (auth_uid sid : uuid) role content :
  Db.stamped d ->
  Db.stamped (snd (Db.appendMessage auth_uid sid role content d)).
Proof.
  unfold Db.stamped, Db.appendMessage. intros H.
  destruct (negb _); simpl; [exact H |].
  apply Forall_app. split.
  - eapply Forall_impl; [| exact H]. simpl. intros m Hm. lia.
  - repeat constructor.
Qed.

Lemma stamped_createSession (d : Db.t) (auth_uid user_id : uuid) title :
  Db.stamped d ->
  Db.stamped (snd (Db.createSession auth_uid user_id title d)).
Proof.
  unfold Db.stamped, Db.createSession. intros H.
  repeat (destruct (negb _); simpl; [exact H |]).
  eapply Forall_impl; [| exact H]. simpl. intros m Hm. lia.
Qed.

Lemma stamped_touchSession (d : Db.t) (auth_uid sid : uuid) t :
  Db.stamped d -> Db.stamped (snd (Db.touchSession auth_uid sid t d)).
Proof. intros H. exact H. Qed.

Lemma listMessages_appended (d : Db.t) (auth_uid sid : uuid) role content :
  Db.stamped d ->
  Db.owns_session d auth_uid sid = true ->
  Db.listMessages auth_uid sid
    (Db.mk (Db.users d) (Db.chat_sessions d)
           (Db.messages d
            ++ [mkMessage (Db.next_uuid d) sid role content (Db.now d)])
           (S (Db.next_uuid d)) (S (Db.now d)))
  = Db.listMessages auth_uid sid d
    ++ [mkMessage (Db.next_uuid d) sid role content (Db.now d)].
Proof.
  intros Hst Hown. unfold Db.listMessages. cbn [Db.messages].
  rewrite filter_ext
    with (g := fun m => (m_session_id m =? sid)
                        && Db.owns_session d auth_uid (m_session_id m))
    by reflexivity.
  rewrite filter_app. cbn [filter m_session_id].
  rewrite Nat.eqb_refl, Hown. cbn [andb].
  apply order_by_last.
  apply Forall_forall. intros m Hm. apply filter_In in Hm as [Hm _].
  unfold Db.stamped in Hst. rewrite Forall_forall in Hst.
  apply Hst in Hm. simpl. apply Nat.leb_le. lia.
Qed.

(* ================================================================= *)
(** ** One request at a time *)

Arguments Db.listMessages : simpl never.
Arguments Db.listSessions : simpl never.
Arguments Db.owns_session : simpl never.
Arguments generateMedicalResponse : simpl never.
Arguments Js.trim : simpl never.

Lemma nth_tl (A : Type) (n : nat) (l : list A) (d : A) :
  nth n (tl l) d = nth (S n) l d.
Proof. destruct l; [now destruct n | reflexivity]. Qed.

Lemma await_let_through (T : Type) rq
    (h : Db.t -> PostgrestResponse T * Db.t) (w : World) :
  verdict 0 w = None ->
  await rq h w
  = (fst (h (db w)),
     mkWorld (view w) (snd (h (db w))) (uid w) (clock w) (tl (tape w))
             (requests w ++ [rq]) (console w)).
Proof. unfold await. intros ->. now destruct (h (db w)). Qed.

Lemma await_rejected (T : Type) rq
    (h : Db.t -> PostgrestResponse T * Db.t) (w : World) e :
  verdict 0 w = Some e ->
  await rq h w
  = (rejected e,
     mkWorld (view w) (db w) (uid w) (clock w) (tl (tape w))
             (requests w ++ [rq]) (console w)).
Proof. unfold await. now intros ->. Qed.

Lemma loadMessages_let_through (sid : uuid) (w : World) :
  verdict 0 w = None ->
  loadMessages sid w
  = (tt,
     mkWorld (mkView (sessions (view w)) (currentSession (view w))
                     (Db.listMessages (uid w) sid (db w))
                     (input (view w)) (loading (view w)))
             (db w) (uid w) (clock w) (tl (tape w))
             (requests w ++ [SelectMessages sid]) (console w)).
Proof.
  intros H. unfold loadMessages, bind, select_messages.
  now rewrite await_let_through.
Qed.

Lemma loadMessages_rejected (sid : uuid) (w : World) e :
  verdict 0 w = Some e ->
  loadMessages sid w
  = (tt,
     mkWorld (view w) (db w) (uid w) (clock w) (tl (tape w))
             (requests w ++ [SelectMessages sid])
             (console w ++ [("Error loading messages:", e)])).
Proof.
  intros H. unfold loadMessages, bind, select_messages.
  now rewrite await_rejected with (e := e).
Qed.

Lemma insert_message_let_through (sid : uuid) role content (w : World) :
  verdict 0 w = None ->
  Db.owns_session (db w) (uid w) sid = true ->
  insert_message sid role content w
  = (fulfilled None,
     mkWorld (view w)
             (Db.mk (Db.users (db w)) (Db.chat_sessions (db w))
                    (Db.messages (db w)
                     ++ [mkMessage (Db.next_uuid (db w)) sid role content
                                   (Db.now (db w))])
                    (S (Db.next_uuid (db w))) (S (Db.now (db w))))
             (uid w) (clock w) (tl (tape w))
             (requests w ++ [InsertMessage sid role content]) (console w)).
Proof.
  intros H Hown. unfold insert_message.
  rewrite await_let_through by assumption.
  now rewrite appendMessage_owned.
Qed.

Lemma insert_message_denied (sid : uuid) role content (w : World) :
  verdict 0 w = None ->
  Db.owns_session (db w) (uid w) sid = false ->
  insert_message sid role content w
  = (rejected RowLevelSecurity,
     mkWorld (view w) (db w) (uid w) (clock w) (tl (tape w))
             (requests w ++ [InsertMessage sid role content]) (console w)).
Proof.
  intros H Hown. unfold insert_message.
  rewrite await_let_through by assumption.
  now rewrite appendMessage_denied.
Qed.

Lemma insert_message_rejected (sid : uuid) role content (w : World) e :
  verdict 0 w = Some e ->
  insert_message sid role content w
  = (rejected e,
     mkWorld (view w) (db w) (uid w) (clock w) (tl (tape w))
             (requests w ++ [InsertMessage sid role content]) (console w)).
Proof. intros H. unfold insert_message. now apply await_rejected. Qed.

Lemma update_chat_session_let_through (sid : uuid) t (w : World) :
  verdict 0 w = None ->
  update_chat_session sid t w
  = (fulfilled None,
     mkWorld (view w) (snd (Db.touchSession (uid w) sid t (db w)))
             (uid w) (clock w) (tl (tape w))
             (requests w ++ [UpdateChatSession sid t]) (console w)).
Proof.
  intros H. unfold update_chat_session. now rewrite await_let_through.
Qed.

Lemma update_chat_session_rejected (sid : uuid) t (w : World) e :
  verdict 0 w = Some e ->
  update_chat_session sid t w
  = (rejected e,
     mkWorld (view w) (db w) (uid w) (clock w) (tl (tape w))
             (requests w ++ [UpdateChatSession sid t]) (console w)).
Proof. intros H. unfold update_chat_session. now apply await_rejected. Qed.

(** Proof steps shared by the theorems on the handlers: name the parts of
    the world, settle the verdict of the coming request, and advance the
    handler by one awaited call. *)
Ltac fields :=
  cbn [view db uid clock tape requests console
       sessions currentSession messages input loading].

Ltac open_world w :=
  destruct w as [[?ss ?cs ?ms ?inp ?ld] ?d ?u ?c ?tp ?rq ?con];
  unfold verdict, idle, user_turn, assistant_turn, exchange, touched in *;
  cbn [view db uid clock tape requests console
       sessions currentSession messages input loading] in *.

Ltac coming :=
  unfold verdict; fields; rewrite ?nth_tl;
  first [ eassumption
        | match goal with
          | H : forall n : nat, _ -> _ |- _ => apply H; lia
          end ].

Ltac step :=
  first [ rewrite insert_message_let_through by coming
        | erewrite insert_message_rejected by coming
        | rewrite insert_message_denied by coming
        | rewrite loadMessages_let_through by coming
        | erewrite loadMessages_rejected by coming
        | rewrite update_chat_session_let_through by coming
        | erewrite update_chat_session_rejected by coming ];
  cbn [error data fulfilled rejected ret console_error new_Date setLoading
       with_view fst snd];
  fields.

Ltac enter_send :=
  unfold exec, sendMessage, bind, closure; fields;
  cbn [Js.truthy negb orb setInput setLoading with_view]; fields.

(** ** What a touch leaves in the sessions table *)


Lemma touched_session_exists (auth_uid sid : uuid) (t : timestamptz)
    (d : Db.t) :
  Db.owns_session d auth_uid sid = true ->
  exists s, In s (touched auth_uid sid t d)
            /\ cs_id s = sid /\ cs_user_id s = auth_uid
            /\ cs_updated_at s = t.
Proof.
  unfold Db.owns_session, touched. cbn [Db.touchSession snd Db.chat_sessions].
  intros H. apply existsb_exists in H as [s0 [Hin Hs0]].
  exists (with_updated_at t s0). repeat split.
  - apply in_map_iff. exists s0. rewrite Hs0. now split.
  - apply andb_true_iff in Hs0 as [H1 _]. now apply Nat.eqb_eq.
  - apply andb_true_iff in Hs0 as [_ H2]. now apply Nat.eqb_eq.
Qed.

(* ================================================================= *)
(** ** The send flow *)

(** C3: with a session selected, no exchange in flight, a non-blank
    input and every store call succeeding, send writes one [user] row
    holding the trimmed input, then one [assistant] row holding the
    selector's answer to it, then touches the session and is idle again;
    the reloaded list is the former list followed by that pair. *)
Theorem send_appends_user_then_assistant (w : World) (cur : ChatSession) :
  currentSession (view w) = Some cur ->
  loading (view w) = false ->
  Js.trim (input (view w)) <> "" ->
  (forall n, n < 5 -> verdict n w = None) ->
  Db.owns_session (db w) (uid w) (cs_id cur) = true ->
  Db.stamped (db w) ->
  let w' := exec sendMessage w in
  requests w' = requests w ++ exchange w cur
  /\ Db.messages (db w')
     = Db.messages (db w) ++ [user_turn w cur; assistant_turn w cur]
  /\ Db.chat_sessions (db w') = touched (uid w) (cs_id cur) (clock w) (db w)
  /\ messages (view w')
     = Db.listMessages (uid w) (cs_id cur) (db w)
       ++ [user_turn w cur; assistant_turn w cur]
  /\ input (view w') = ""
  /\ idle w'
  /\ sessions (view w') = sessions (view w)
  /\ currentSession (view w') = currentSession (view w)
  /\ console w' = console w
  /\ exists s, In s (Db.chat_sessions (db w'))
               /\ cs_id s = cs_id cur /\ cs_user_id s = uid w
               /\ cs_updated_at s = clock w.
Proof.
  intros Hcur Hload Hin Htape Hown Hst.
  pose proof (touched_session_exists (uid w) (cs_id cur) (clock w) (db w)
                Hown) as Hrow.
  open_world w. subst cs ld.
  remember (Js.trim inp) as t eqn:Et. destruct t as [|a t]; [contradiction |].
  enter_send.
  rewrite <- Et. enter_send.
  do 5 step. cbn.
  pose proof (listMessages_appended d u (cs_id cur) user (String a t) Hst Hown)
    as Hu.
  pose proof (stamped_appendMessage d u (cs_id cur) user (String a t) Hst)
    as Hst1.
  rewrite appendMessage_owned in Hst1 by assumption. cbn [snd] in Hst1.
  pose proof (listMessages_appended _ u (cs_id cur) assistant
                (generateMedicalResponse (String a t)) Hst1 Hown) as Ha.
  cbn [Db.users Db.chat_sessions Db.messages Db.next_uuid Db.now] in Ha.
  rewrite Ha, Hu, <- !app_assoc. cbn [app].
  repeat split; try reflexivity. exact Hrow.
Qed.

Lemma send_appends_user_then_assistant_witness :
  messages (view (exec sendMessage (surgery "  I have a Headache " [])))
  = [ mkMessage 101 100 user "I have a Headache" 11;
      mkMessage 102 100 assistant HEADACHE_ADVICE 12 ].
Proof.
  refine (proj1 (proj2 (proj2 (proj2
    (send_appends_user_then_assistant (surgery "  I have a Headache " [])
       surgery_session eq_refl eq_refl _ _ eq_refl _))))).
  - vm_compute. discriminate.
  - intros n _. unfold verdict. simpl. now destruct n.
  - unfold Db.stamped. simpl. constructor.
Defined.

(** C4: when the first insert went through and the store rejects the
    second, the [user] row stays and no [assistant] row joins it, the
    rejection is logged, the reload and the touch are still sent and send
    is idle again; a reload that succeeds shows the former list followed
    by the [user] row alone. *)
Theorem rejected_assistant_insert_keeps_user_row
    (w : World) (cur : ChatSession) (e : PostgrestError) :
  currentSession (view w) = Some cur ->
  loading (view w) = false ->
  Js.trim (input (view w)) <> "" ->
  verdict 0 w = None ->
  Db.owns_session (db w) (uid w) (cs_id cur) = true ->
  verdict 2 w = Some e ->
  Db.stamped (db w) ->
  let w' := exec sendMessage w in
  Db.messages (db w') = Db.messages (db w) ++ [user_turn w cur]
  /\ requests w' = requests w ++ exchange w cur
  /\ idle w'
  /\ input (view w') = ""
  /\ console w'
     = console w
       ++ logged "Error loading messages:" (verdict 1 w)
       ++ [("Error saving assistant message:", e)]
       ++ logged "Error loading messages:" (verdict 3 w)
  /\ (verdict 3 w = None ->
      messages (view w')
      = Db.listMessages (uid w) (cs_id cur) (db w) ++ [user_turn w cur])
  /\ (verdict 4 w = None ->
      Db.chat_sessions (db w')
      = touched (uid w) (cs_id cur) (clock w) (db w)).
Proof.
  intros Hcur Hload Hin H0 Hown H2 Hst.
  open_world w. subst cs ld.
  remember (Js.trim inp) as t eqn:Et. destruct t as [|a t]; [contradiction |].
  enter_send. rewrite <- Et. enter_send.
  pose proof (listMessages_appended d u (cs_id cur) user (String a t) Hst Hown)
    as Hu.
  destruct (nth 1 tp None) as [e1|] eqn:H1;
    destruct (nth 3 tp None) as [e3|] eqn:H3;
    destruct (nth 4 tp None) as [e4|] eqn:H4;
    do 5 step; cbn; rewrite <- ?app_assoc; cbn [app];
    repeat split; try reflexivity; try discriminate; intros _; exact Hu.
Qed.

Lemma rejected_assistant_insert_keeps_user_row_witness :
  messages (view (exec sendMessage
                    (surgery "fever?" [None; None; Some RowLevelSecurity])))
  = [ mkMessage 101 100 user "fever?" 11 ].
Proof.
  refine (proj1 (proj2 (proj2 (proj2 (proj2 (proj2
    (rejected_assistant_insert_keeps_user_row
       (surgery "fever?" [None; None; Some RowLevelSecurity])
       surgery_session RowLevelSecurity
       eq_refl eq_refl _ eq_refl eq_refl eq_refl _)))))) eq_refl).
  - vm_compute. discriminate.
  - unfold Db.stamped. simpl. constructor.
Defined.

(** C5: with no session selected, or an exchange in flight, or an input
    that is blank once trimmed, send sends nothing and changes nothing:
    the world it leaves, requests included, is the world it found. *)
Theorem send_guard_changes_nothing (w : World) :
  currentSession (view w) = None
  \/ loading (view w) = true
  \/ Js.trim (input (view w)) = "" ->
  exec sendMessage w = w.
Proof.
  intros H. open_world w. unfold exec, sendMessage, bind, closure. fields.
  destruct cs as [cur|]; [| reflexivity].
  destruct H as [H | [-> | ->]]; [discriminate | |].
  - now rewrite orb_true_r.
  - reflexivity.
Qed.

Lemma send_guard_changes_nothing_witness :
  exec sendMessage (surgery "   " []) = surgery "   " [].
Proof.
  apply send_guard_changes_nothing. right. right. vm_compute. reflexivity.
Defined.

(** The answer to a request does not depend on the state cells. *)
Lemma insert_message_with_view (v : View) sid role content (w : World) :
  fst (insert_message sid role content (with_view v w))
  = fst (insert_message sid role content w).
Proof.
  unfold insert_message, await, verdict. cbn [with_view tape db uid].
  destruct (nth 0 (tape w) None); [reflexivity |].
  now destruct (Db.appendMessage _ _ _ _ _).
Qed.

(** C9: when the insert of the [user] row fails, that insert is the only
    request send makes: nothing is reloaded, no [assistant] row is
    written, the session is not touched; the failure is logged, send is
    idle again, the message list is as it was and the input stays
    cleared. *)
Theorem failed_user_insert_ends_send
    (w : World) (cur : ChatSession) (e : PostgrestError) :
  currentSession (view w) = Some cur ->
  loading (view w) = false ->
  Js.trim (input (view w)) <> "" ->
  error (fst (insert_message (cs_id cur) user (Js.trim (input (view w))) w))
  = Some e ->
  let w' := exec sendMessage w in
  requests w'
  = requests w ++ [InsertMessage (cs_id cur) user (Js.trim (input (view w)))]
  /\ db w' = db w
  /\ view w'
     = mkView (sessions (view w)) (Some cur) (messages (view w)) "" false
  /\ console w' = console w ++ [("Error saving user message:", e)].
Proof.
  intros Hcur Hload Hin Herr.
  open_world w. subst cs ld.
  remember (Js.trim inp) as t eqn:Et. destruct t as [|a t]; [contradiction |].
  enter_send. rewrite <- Et. enter_send.
  destruct (nth 0 tp None) as [e0|] eqn:H0.
  - rewrite insert_message_rejected with (e := e0) in Herr by coming.
    cbn in Herr. injection Herr as ->.
    step. cbn. repeat split; reflexivity.
  - destruct (Db.owns_session d u (cs_id cur)) eqn:Hown.
    + rewrite insert_message_let_through in Herr by coming. discriminate Herr.
    + rewrite insert_message_denied in Herr by coming.
      cbn in Herr. injection Herr as <-.
      step. cbn. repeat split; reflexivity.
Qed.

Lemma failed_user_insert_ends_send_witness :
  requests (exec sendMessage (surgery "a cough" [Some FetchFailed]))
  = [InsertMessage 100 user "a cough"].
Proof.
  refine (proj1 (failed_user_insert_ends_send
                   (surgery "a cough" [Some FetchFailed]) surgery_session
                   FetchFailed eq_refl eq_refl _ eq_refl)).
  vm_compute. discriminate.
Defined.

(** ** Every way a send can go *)

Lemma tl_skipn (A : Type) (n : nat) (l : list A) :
  tl (skipn n l) = skipn (S n) l.
Proof.
  revert l; induction n as [|n IH]; intros [|x l]; simpl; try reflexivity.
  apply IH.
Qed.

Lemma send_guard_frame (w : World) :
  currentSession (view w) = None
  \/ loading (view w) = true
  \/ Js.trim (input (view w)) = "" ->
  exec sendMessage w = w.
Proof.
  intros H. open_world w. unfold exec, sendMessage, bind, closure. fields.
  destruct cs as [cur|]; [| reflexivity].
  destruct H as [H | [-> | ->]]; [discriminate | |].
  - now rewrite orb_true_r.
  - reflexivity.
Qed.

Lemma send_stop_frame (w : World) (cur : ChatSession) (e : PostgrestError) :
  currentSession (view w) = Some cur ->
  loading (view w) = false ->
  Js.trim (input (view w)) <> "" ->
  error (fst (insert_message (cs_id cur) user (Js.trim (input (view w))) w))
  = Some e ->
  exec sendMessage w
  = mkWorld (mkView (sessions (view w)) (Some cur) (messages (view w))
                    "" false)
            (db w) (uid w) (clock w) (skipn 1 (tape w))
            (requests w
             ++ [InsertMessage (cs_id cur) user (Js.trim (input (view w)))])
            (console w ++ [("Error saving user message:", e)]).
Proof.
  intros Hcur Hload Hin Herr.
  rewrite <- (tl_skipn _ 0). cbn [skipn].
  open_world w. subst cs ld.
  remember (Js.trim inp) as t eqn:Et. destruct t as [|a t]; [contradiction |].
  enter_send. rewrite <- Et. enter_send.
  destruct (nth 0 tp None) as [e0|] eqn:H0.
  - rewrite insert_message_rejected with (e := e0) in Herr by coming.
    cbn in Herr. injection Herr as ->.
    step. reflexivity.
  - destruct (Db.owns_session d u (cs_id cur)) eqn:Hown.
    + rewrite insert_message_let_through in Herr by coming. discriminate Herr.
    + rewrite insert_message_denied in Herr by coming.
      cbn in Herr. injection Herr as <-.
      step. reflexivity.
Qed.

Lemma send_exchange_frame (w : World) (cur : ChatSession) :
  currentSession (view w) = Some cur ->
  loading (view w) = false ->
  Js.trim (input (view w)) <> "" ->
  verdict 0 w = None ->
  Db.owns_session (db w) (uid w) (cs_id cur) = true ->
  exec sendMessage w
  = mkWorld (mkView (sessions (view w)) (Some cur) (shown_after w cur)
                    "" false)
            (after_touch w cur) (uid w) (clock w) (skipn 5 (tape w))
            (requests w ++ exchange w cur)
            (console w
             ++ logged "Error loading messages:" (verdict 1 w)
             ++ logged "Error saving assistant message:" (verdict 2 w)
             ++ logged "Error loading messages:" (verdict 3 w)).
Proof.
  intros Hcur Hload Hin H0 Hown.
  rewrite <- (tl_skipn _ 4), <- (tl_skipn _ 3), <- (tl_skipn _ 2),
    <- (tl_skipn _ 1), <- (tl_skipn _ 0). cbn [skipn].
  unfold shown_after, after_touch, after_assistant, after_user.
  open_world w. subst cs ld.
  rewrite (appendMessage_owned d u (cs_id cur) user _ Hown). cbn [snd].
  remember (Js.trim inp) as t eqn:Et. destruct t as [|a t]; [contradiction |].
  enter_send. rewrite <- Et. enter_send.
  destruct (nth 1 tp None) as [e1|] eqn:H1;
    destruct (nth 2 tp None) as [e2|] eqn:H2;
    destruct (nth 3 tp None) as [e3|] eqn:H3;
    destruct (nth 4 tp None) as [e4|] eqn:H4;
    do 5 step; cbn [logged app Db.touchSession snd];
    rewrite <- ?app_assoc, ?app_nil_r; cbn [app];
    try rewrite appendMessage_owned by exact Hown; reflexivity.
Qed.

Lemma sendMessage_runs (w : World) : SendRun w (exec sendMessage w).
Proof.
  destruct (currentSession (view w)) as [cur|] eqn:Hcur.
  2:{ rewrite send_guard_frame by (now left). constructor. now left. }
  destruct (loading (view w)) eqn:Hld.
  { rewrite send_guard_frame by (right; now left).
    constructor. right. now left. }
  destruct (Js.trim (input (view w))) as [|a t] eqn:Et.
  { rewrite send_guard_frame by (right; now right).
    constructor. right. now right. }
  assert (Hin : Js.trim (input (view w)) <> "") by (rewrite Et; discriminate).
  destruct (error (fst (insert_message (cs_id cur) user
                          (Js.trim (input (view w))) w))) as [e|] eqn:Herr.
  - rewrite (send_stop_frame w cur e Hcur Hld Hin Herr).
    now apply send_stopped.
  - assert (H0 : verdict 0 w = None /\
                 Db.owns_session (db w) (uid w) (cs_id cur) = true).
    { destruct (verdict 0 w) as [e0|] eqn:H0.
      - rewrite insert_message_rejected with (e := e0) in Herr by assumption.
        discriminate Herr.
      - destruct (Db.owns_session (db w) (uid w) (cs_id cur)) eqn:Hown;
          [now split |].
        rewrite insert_message_denied in Herr by assumption.
        discriminate Herr. }
    destruct H0 as [H0 Hown].
    rewrite (send_exchange_frame w cur Hcur Hld Hin H0 Hown).
    now apply send_exchanged.
Qed.

Lemma after_user_owned (w : World) (cur : ChatSession) :
  Db.owns_session (db w) (uid w) (cs_id cur) = true ->
  after_user w cur
  = Db.mk (Db.users (db w)) (Db.chat_sessions (db w))
          (Db.messages (db w) ++ [user_turn w cur])
          (S (Db.next_uuid (db w))) (S (Db.now (db w))).
Proof.
  intros Hown. unfold after_user, user_turn.
  now rewrite appendMessage_owned.
Qed.

Lemma after_assistant_owned (w : World) (cur : ChatSession) :
  Db.owns_session (db w) (uid w) (cs_id cur) = true ->
  after_assistant w cur
  = Db.mk (Db.users (db w)) (Db.chat_sessions (db w))
          (Db.messages (db w)
           ++ user_turn w cur
              :: match verdict 2 w with
                 | None => [assistant_turn w cur]
                 | Some _ => []
                 end)
          (match verdict 2 w with
           | None => S (S (Db.next_uuid (db w)))
           | Some _ => S (Db.next_uuid (db w))
           end)
          (match verdict 2 w with
           | None => S (S (Db.now (db w)))
           | Some _ => S (Db.now (db w))
           end).
Proof.
  intros Hown. unfold after_assistant. rewrite after_user_owned by assumption.
  destruct (verdict 2 w); [reflexivity |].
  rewrite appendMessage_owned by exact Hown.
  cbn [snd Db.users Db.chat_sessions Db.messages Db.next_uuid Db.now].
  unfold assistant_turn. now rewrite <- app_assoc.
Qed.

Lemma after_touch_messages (w : World) (cur : ChatSession) :
  Db.messages (after_touch w cur) = Db.messages (after_assistant w cur)
  /\ Db.users (after_touch w cur) = Db.users (after_assistant w cur)
  /\ Db.next_uuid (after_touch w cur) = Db.next_uuid (after_assistant w cur)
  /\ Db.now (after_touch w cur) = Db.now (after_assistant w cur).
Proof. unfold after_touch. now destruct (verdict 4 w). Qed.

Lemma after_touch_sessions (w : World) (cur : ChatSession) :
  Db.owns_session (db w) (uid w) (cs_id cur) = true ->
  Db.chat_sessions (after_touch w cur)
  = match verdict 4 w with
    | None => touched (uid w) (cs_id cur) (clock w) (db w)
    | Some _ => Db.chat_sessions (db w)
    end.
Proof.
  intros Hown. unfold after_touch.
  rewrite after_assistant_owned by assumption.
  now destruct (verdict 4 w).
Qed.

(** ** The touch *)



(** C8: the touch writes the client's current time and a failed touch
    does not abort send, but its failure is logged nowhere.  On the day
    the touch, and nothing else, does not reach the database, send makes
    all five requests of the exchange, the touch last, ends idle, leaves
    the session with its old [updated_at], and the console is empty. *)
Theorem touch_failure_is_not_logged :
  verdict 4 touch_fails = Some FetchFailed
  /\ requests (exec sendMessage touch_fails)
     = exchange touch_fails surgery_session
  /\ idle (exec sendMessage touch_fails)
  /\ Db.chat_sessions (db (exec sendMessage touch_fails)) = [surgery_session]
  /\ console (exec sendMessage touch_fails) = []
  /\ ~ (forall e, verdict 4 touch_fails = Some e ->
                  exists label,
                    In (label, e) (console (exec sendMessage touch_fails))).
Proof.
  assert (Hc : console (exec sendMessage touch_fails) = [])
    by (vm_compute; reflexivity).
  repeat split; try (vm_compute; reflexivity).
  intros H. destruct (H FetchFailed eq_refl) as [label Hin].
  rewrite Hc in Hin. exact Hin.
Qed.

(* ================================================================= *)
(** ** Reading the tables *)

Lemma filter_owner_none (u : uuid) (rows : list ChatSession) :
  Forall (fun s => cs_user_id s <> u) rows ->
  filter (fun s => cs_user_id s =? u) rows = [].
Proof.
  induction 1 as [|s rows Hs _ IH]; simpl; [reflexivity |].
  apply Nat.eqb_neq in Hs. now rewrite Hs.
Qed.

Lemma createSession_own (u : uuid) (title : string) (d : Db.t) :
  In u (Db.users d) ->
  Db.createSession u u title d
  = (fulfilled (Some (mkChatSession (Db.next_uuid d) u title (Db.now d)
                                    (Db.now d))),
     Db.mk (Db.users d)
           (Db.chat_sessions d
            ++ [mkChatSession (Db.next_uuid d) u title (Db.now d) (Db.now d)])
           (Db.messages d) (S (Db.next_uuid d)) (S (Db.now d))).
Proof.
  intros Hu. unfold Db.createSession. rewrite Nat.eqb_refl.
  assert (E : existsb (Nat.eqb u) (Db.users d) = true).
  { apply existsb_exists. exists u. split; [exact Hu | apply Nat.eqb_refl]. }
  now rewrite E.
Qed.

Lemma listSessions_In (u : uuid) (d : Db.t) (s : ChatSession) :
  In s (Db.listSessions u d) <-> In s (Db.chat_sessions d) /\ cs_user_id s = u.
Proof.
  unfold Db.listSessions. split.
  - intros H. eapply Permutation_in in H; [| apply order_by_Permutation].
    apply filter_In in H as [H1 H2]. apply Nat.eqb_eq in H2. now split.
  - intros [H1 H2].
    eapply Permutation_in; [symmetry; apply order_by_Permutation |].
    apply filter_In. split; [exact H1 | now apply Nat.eqb_eq].
Qed.

(** C6: a session list that is let through is what [loadSessions] shows,
    and nothing is logged; the list holds the sessions of the requesting
    user and no others, newest [updated_at] first, and is empty when the
    user owns none; after A is created, then B, B is listed first, and
    once A is touched at a later time the list is A, B. *)
Theorem listSessions_newest_first :
  (forall w, verdict 0 w = None ->
     fst (select_chat_sessions w)
     = fulfilled (Some (Db.listSessions (uid w) (db w)))
     /\ sessions (view (exec loadSessions w)) = Db.listSessions (uid w) (db w)
     /\ console (exec loadSessions w) = console w)
  /\ (forall u d,
        StronglySorted (fun a b => cs_updated_at b <= cs_updated_at a)
                       (Db.listSessions u d)
        /\ (forall s, In s (Db.listSessions u d)
                      <-> In s (Db.chat_sessions d) /\ cs_user_id s = u)
        /\ (Forall (fun s => cs_user_id s <> u) (Db.chat_sessions d) ->
            Db.listSessions u d = []))
  /\ (forall u d t,
        In u (Db.users d) ->
        Forall (fun s => cs_user_id s <> u) (Db.chat_sessions d) ->
        S (Db.now d) < t ->
        let created_A := Db.createSession u u "New Chat" d in
        let created_B := Db.createSession u u "New Chat" (snd created_A) in
        let touched_A :=
          Db.touchSession u (cs_id (session_A u d)) t (snd created_B) in
        data (fst created_A) = Some (session_A u d)
        /\ data (fst created_B) = Some (session_B u d)
        /\ Db.listSessions u (snd created_B) = [session_B u d; session_A u d]
        /\ Db.listSessions u (snd touched_A)
           = [with_updated_at t (session_A u d); session_B u d]).
Proof.
  split; [| split].
  - intros w H0. unfold exec, loadSessions, bind, closure, select_chat_sessions.
    rewrite await_let_through by assumption. cbn [fst snd error data fulfilled].
    split; [reflexivity |].
    destruct (Db.listSessions (uid w) (db w)) as [|first rest];
      destruct (currentSession (view w)); cbn; split; reflexivity.
  - intros u d. split; [apply descending_order |].
    split; [apply listSessions_In |].
    intros Hnone. unfold Db.listSessions.
    now rewrite filter_owner_none.
  - intros u d t Hu Hnone Ht created_A created_B touched_A.
    subst touched_A created_B created_A.
    rewrite (createSession_own u "New Chat" d Hu). cbn [fst snd].
    rewrite createSession_own by exact Hu.
    cbn [fst snd data fulfilled Db.users Db.chat_sessions Db.messages
         Db.next_uuid Db.now].
    fold (session_A u d). fold (session_B u d).
    split; [reflexivity |]. split; [reflexivity |].
    unfold Db.listSessions, Db.touchSession.
    cbn [snd Db.chat_sessions].
    rewrite !map_app, !filter_app.
    rewrite (filter_owner_none u (Db.chat_sessions d) Hnone).
    rewrite (filter_owner_none u (map _ (Db.chat_sessions d))).
    2:{ apply Forall_forall. intros s Hs.
        apply in_map_iff in Hs as [s0 [<- Hs0]].
        rewrite Forall_forall in Hnone. specialize (Hnone s0 Hs0).
        now destruct ((cs_id s0 =? cs_id (session_A u d))
                      && (cs_user_id s0 =? u)). }
    unfold session_A, session_B, with_updated_at.
    assert (Eid : (S (Db.next_uuid d) =? Db.next_uuid d) = false)
      by (apply Nat.eqb_neq; lia).
    assert (Elate : (S (Db.now d) <=? t) = true) by (apply Nat.leb_le; lia).
    assert (Eearly : (S (Db.now d) <=? Db.now d) = false)
      by (apply Nat.leb_gt; lia).
    cbn [map filter app cs_id cs_user_id].
    rewrite !Nat.eqb_refl, Eid.
    cbn [andb filter app cs_id cs_user_id].
    rewrite !Nat.eqb_refl.
    cbn [app order_by fold_right insert_row before cs_updated_at].
    rewrite Elate, Eearly.
    split; reflexivity.
Qed.

Lemma listSessions_newest_first_witness :
  Db.listSessions 7 surgery_db = [surgery_session]
  /\ Db.listSessions 8 surgery_db = []
  /\ Db.listSessions 7
       (snd (Db.touchSession 7 1 9
               (snd (Db.createSession 7 7 "New Chat"
                       (snd (Db.createSession 7 7 "New Chat"
                               (db signed_in)))))))
     = [mkChatSession 1 7 "New Chat" 1 9; mkChatSession 2 7 "New Chat" 2 2].
Proof.
  destruct listSessions_newest_first as (Hload & Hlist & Hscenario).
  split; [| split].
  - pose proof (Hload (surgery "" []) eq_refl) as (_ & Hs & _).
    transitivity (sessions (view (exec loadSessions (surgery "" [])))).
    + symmetry. exact Hs.
    + vm_compute. reflexivity.
  - apply (Hlist 8 surgery_db). repeat constructor; simpl; lia.
  - refine (proj2 (proj2 (proj2 (Hscenario 7 (db signed_in) 9 _ _ _)))).
    + simpl. now left.
    + constructor.
    + simpl. lia.
Defined.

(** C6, as it is stated, fails when the client's clock is behind the
    database's: the touch writes the client's reading (line 129), the
    rows were stamped by the database, so after A is created, then B, and
    A is touched, A keeps an older [updated_at] than B and the list is
    B, A, both in the table and on screen. *)
Lemma touch_by_a_clock_behind_leaves_B_first :
  Db.listSessions 7
    (snd (Db.touchSession 7 1 5
            (snd (Db.createSession 7 7 "New Chat"
                    (snd (Db.createSession 7 7 "New Chat"
                            (db clock_behind)))))))
  = [mkChatSession 2 7 "New Chat" 21 21; mkChatSession 1 7 "New Chat" 20 5]
  /\ requests (exec create_A_create_B_touch_A clock_behind)
     = [InsertChatSession 7 "New Chat"; InsertChatSession 7 "New Chat";
        InsertMessage 1 user "a cough"; SelectMessages 1;
        InsertMessage 1 assistant COUGH_ADVICE; SelectMessages 1;
        UpdateChatSession 1 5; SelectChatSessions]
  /\ console (exec create_A_create_B_touch_A clock_behind) = []
  /\ sessions (view (exec create_A_create_B_touch_A clock_behind))
     = [mkChatSession 2 7 "New Chat" 21 21; mkChatSession 1 7 "New Chat" 20 5]
  /\ map cs_id (sessions (view (exec create_A_create_B_touch_A clock_behind)))
     <> [1; 2].
Proof.
  repeat split; try (vm_compute; reflexivity).
  vm_compute. discriminate.
Qed.

Lemma listMessages_none (u sid : uuid) (d : Db.t) :
  (forall m, In m (Db.messages d) -> m_session_id m <> sid) ->
  Db.listMessages u sid d = [].
Proof.
  intros Hnone. unfold Db.listMessages.
  replace (filter _ (Db.messages d)) with (@nil Message); [reflexivity |].
  symmetry. induction (Db.messages d) as [|m rows IH]; [reflexivity |].
  cbn [filter].
  assert (E : (m_session_id m =? sid) = false)
    by (apply Nat.eqb_neq, Hnone; now left).
  rewrite E. cbn [andb]. apply IH. intros m' Hm'. apply Hnone. now right.
Qed.

(** C7: two message lists requested in succession, nothing written in
    between, are the same sequence, which is also what [loadMessages]
    shows both times; the sequence is in ascending order of
    [created_at] and is empty for a session without messages; reading
    leaves the database as it was. *)
Theorem listMessages_repeatable_ascending (w : World) (sid : uuid) :
  verdict 0 w = None ->
  verdict 1 w = None ->
  let w1 := exec (loadMessages sid) w in
  let w2 := exec (loadMessages sid) w1 in
  fst (select_messages sid w1) = fst (select_messages sid w)
  /\ fst (select_messages sid w)
     = fulfilled (Some (Db.listMessages (uid w) sid (db w)))
  /\ messages (view w1) = Db.listMessages (uid w) sid (db w)
  /\ messages (view w2) = messages (view w1)
  /\ db w2 = db w
  /\ StronglySorted (fun a b => m_created_at a <= m_created_at b)
                    (Db.listMessages (uid w) sid (db w))
  /\ ((forall m, In m (Db.messages (db w)) -> m_session_id m <> sid) ->
      Db.listMessages (uid w) sid (db w) = []).
Proof.
  intros H0 H1 w1 w2. subst w2 w1. unfold exec.
  rewrite (loadMessages_let_through sid w H0). cbn [snd].
  rewrite loadMessages_let_through by coming.
  unfold select_messages.
  rewrite (await_let_through _ _ _ w H0).
  rewrite await_let_through by coming.
  cbn. repeat split.
  - apply ascending_order.
  - apply listMessages_none.
Qed.

Lemma listMessages_repeatable_ascending_witness :
  messages (view (exec (loadMessages 100)
                    (exec (loadMessages 100)
                       (exec sendMessage (surgery "flu" [])))))
  = messages (view (exec (loadMessages 100)
                      (exec sendMessage (surgery "flu" [])))).
Proof.
  refine (proj1 (proj2 (proj2 (proj2
    (listMessages_repeatable_ascending
       (exec sendMessage (surgery "flu" [])) 100 _ _))))).
  - vm_compute. reflexivity.
  - vm_compute. reflexivity.
Defined.

(* ================================================================= *)
(** ** Store errors and the state cells *)

Lemma await_view (T : Type) rq
    (h : Db.t -> PostgrestResponse T * Db.t) (w : World) :
  view (snd (await rq h w)) = view w.
Proof.
  unfold await. destruct (verdict 0 w); [reflexivity |].
  now destruct (h (db w)).
Qed.

(** C10: a session list, a message list or a new session that comes back
    with an error leaves the five state cells as they were: the handler
    logs the error and returns. *)
Theorem store_error_leaves_view_unchanged :
  (forall w,
     error (fst (select_chat_sessions w)) <> None ->
     view (exec loadSessions w) = view w)
  /\ (forall w sessionId,
        error (fst (select_messages sessionId w)) <> None ->
        view (exec (loadMessages sessionId) w) = view w)
  /\ (forall w,
        error (fst (insert_chat_session (uid w) "New Chat" w)) <> None ->
        view (exec createNewSession w) = view w).
Proof.
  split; [| split].
  - intros w. unfold exec, loadSessions, bind, closure, select_chat_sessions.
    pose proof (await_view _ SelectChatSessions
                  (fun d => (fulfilled (Some (Db.listSessions (uid w) d)), d))
                  w) as Hv.
    destruct (await _ _ w) as [r w1]. cbn [fst snd] in *.
    destruct (error r); [intros _; exact Hv | intros H; now contradiction H].
  - intros w sessionId. unfold exec, loadMessages, bind, select_messages.
    pose proof (await_view _ (SelectMessages sessionId)
                  (fun d => (fulfilled
                               (Some (Db.listMessages (uid w) sessionId d)), d))
                  w) as Hv.
    destruct (await _ _ w) as [r w1]. cbn [fst snd] in *.
    destruct (error r); [intros _; exact Hv | intros H; now contradiction H].
  - intros w. unfold exec, createNewSession, bind, closure, insert_chat_session.
    pose proof (await_view _ (InsertChatSession (uid w) "New Chat")
                  (Db.createSession (uid w) (uid w) "New Chat") w) as Hv.
    destruct (await _ _ w) as [r w1]. cbn [fst snd] in *.
    destruct (error r); [intros _; exact Hv | intros H; now contradiction H].
Qed.

Lemma store_error_leaves_view_unchanged_witness :
  view (exec loadSessions (surgery "flu" [Some FetchFailed]))
  = view (surgery "flu" [Some FetchFailed])
  /\ view (exec (loadMessages 100) (surgery "flu" [Some RowLevelSecurity]))
     = view (surgery "flu" [Some RowLevelSecurity])
  /\ view (exec createNewSession
             (mkWorld (view (surgery "flu" [])) surgery_db 8 50 [] [] []))
     = view (surgery "flu" []).
Proof.
  destruct store_error_leaves_view_unchanged as (Hs & Hm & Hc).
  split; [| split].
  - apply Hs. vm_compute. discriminate.
  - apply Hm. vm_compute. discriminate.
  - apply (Hc (mkWorld (view (surgery "flu" [])) surgery_db 8 50 [] [] [])).
    vm_compute. discriminate.
Defined.

(* ================================================================= *)
(** ** The handlers keep the rows stamped in the past *)

Section Keeps.
Variable P : Db.t -> Prop.

Lemma keeps_ret (A : Type) (a : A) : keeps P (ret a).
Proof. intros w H. exact H. Qed.

Lemma keeps_bind (A B : Type) (m : Task A) (k : A -> Task B) :
  keeps P m -> (forall a, keeps P (k a)) -> keeps P (bind m k).
Proof.
  intros Hm Hk w H. unfold bind. specialize (Hm w H).
  destruct (m w) as [a w1]. now apply Hk.
Qed.

Lemma keeps_await (T : Type) rq (h : Db.t -> PostgrestResponse T * Db.t) :
  (forall d, P d -> P (snd (h d))) -> keeps P (await rq h).
Proof.
  intros Hh w H. unfold await. destruct (verdict 0 w); [exact H |].
  specialize (Hh (db w) H). now destruct (h (db w)).
Qed.

Lemma keeps_closure : keeps P closure.
Proof. intros w H. exact H. Qed.

Lemma keeps_setSessions l : keeps P (setSessions l).
Proof. intros w H. exact H. Qed.

Lemma keeps_setCurrentSession c : keeps P (setCurrentSession c).
Proof. intros w H. exact H. Qed.

Lemma keeps_setMessages l : keeps P (setMessages l).
Proof. intros w H. exact H. Qed.

Lemma keeps_setInput s : keeps P (setInput s).
Proof. intros w H. exact H. Qed.

Lemma keeps_setLoading b : keeps P (setLoading b).
Proof. intros w H. exact H. Qed.

Lemma keeps_console_error label e : keeps P (console_error label e).
Proof. intros w H. exact H. Qed.

Lemma keeps_new_Date : keeps P new_Date.
Proof. intros w H. exact H. Qed.
End Keeps.

Create HintDb keeps.
#[local] Hint Resolve keeps_ret keeps_closure keeps_setSessions
  keeps_setCurrentSession keeps_setMessages keeps_setInput keeps_setLoading
  keeps_console_error keeps_new_Date : keeps.

Lemma select_chat_sessions_keeps_stamped :
  keeps Db.stamped select_chat_sessions.
Proof. intros w. apply keeps_await. now intros d. Qed.

Lemma select_messages_keeps_stamped (sid : uuid) :
  keeps Db.stamped (select_messages sid).
Proof. intros w. apply keeps_await. now intros d. Qed.

Lemma insert_chat_session_keeps_stamped (user_id : uuid) title :
  keeps Db.stamped (insert_chat_session user_id title).
Proof. intros w. apply keeps_await. intros d. apply stamped_createSession. Qed.

Lemma insert_message_keeps_stamped (sid : uuid) role content :
  keeps Db.stamped (insert_message sid role content).
Proof. intros w. apply keeps_await. intros d. apply stamped_appendMessage. Qed.

Lemma update_chat_session_keeps_stamped (sid : uuid) t :
  keeps Db.stamped (update_chat_session sid t).
Proof. intros w. apply keeps_await. intros d. apply stamped_touchSession. Qed.

#[local] Hint Resolve select_chat_sessions_keeps_stamped
  select_messages_keeps_stamped insert_chat_session_keeps_stamped
  insert_message_keeps_stamped update_chat_session_keeps_stamped : keeps.

Ltac keeps_through :=
  repeat first
    [ solve [auto with keeps]
    | apply keeps_bind; [| intros ?]
    | match goal with
      | |- keeps _ (match ?x with _ => _ end) => destruct x
      | |- keeps _ (if ?b then _ else _) => destruct b
      end ].

Lemma loadSessions_keeps_stamped : keeps Db.stamped loadSessions.
Proof. unfold loadSessions. keeps_through. Qed.

Lemma loadMessages_keeps_stamped (sid : uuid) :
  keeps Db.stamped (loadMessages sid).
Proof. unfold loadMessages. keeps_through. Qed.

Lemma createNewSession_keeps_stamped : keeps Db.stamped createNewSession.
Proof.
  unfold createNewSession. keeps_through. intros w H. exact H.
Qed.

Lemma sendMessage_keeps_stamped : keeps Db.stamped sendMessage.
Proof.
  pose proof loadMessages_keeps_stamped as Hl.
  unfold sendMessage. keeps_through.
Qed.

(** The scenario of the specification: sign in, find no session, open a
    new chat, send one message. *)
Example first_exchange :
  sessions (view (exec loadSessions signed_in)) = []
  /\ let w := exec (bind createNewSession
                      (fun _ => bind (setInput "I have a headache")
                                     (fun _ => sendMessage)))
                   (exec loadSessions signed_in) in
     option_map cs_title (currentSession (view w)) = Some "New Chat"
     /\ map (fun m => (m_role m, m_content m)) (messages (view w))
        = [(user, "I have a headache"); (assistant, HEADACHE_ADVICE)].
Proof. vm_compute. repeat split. Qed.

(* ================================================================= *)
(** * Further properties of the code *)

(** ** Trimming *)

Lemma lower_unit_whitespace (c : ascii) :
  Js.isWhiteSpace c = true -> Js.lower_unit c = c.
Proof.
  destruct c as [[] [] [] [] [] [] [] []]; vm_compute; intros H;
    first [reflexivity | discriminate H].
Qed.

Lemma toLowerCase_blank (s : string) :
  blank s = true -> Js.toLowerCase s = s.
Proof.
  unfold blank. induction s as [|c s IH]; simpl; [reflexivity |].
  intros H. apply andb_true_iff in H as [Hc Hs].
  now rewrite lower_unit_whitespace, IH.
Qed.

Lemma trimStart_spec (s : string) :
  exists pre, s = (pre ++ Js.trimStart s)%string /\ blank pre = true.
Proof.
  induction s as [|c s [pre [Hs Hpre]]]; simpl.
  - now exists EmptyString.
  - destruct (Js.isWhiteSpace c) eqn:Hc.
    + exists (String c pre). simpl. split; [f_equal; assumption |].
      unfold blank in *. simpl. now rewrite Hc.
    + now exists EmptyString.
Qed.

Lemma trimEnd_spec (s : string) :
  exists post, s = (Js.trimEnd s ++ post)%string /\ blank post = true.
Proof.
  induction s as [|c s [post [Hs Hpost]]]; simpl.
  - now exists EmptyString.
  - destruct (Js.trimEnd s) as [|b t] eqn:Ht.
    + destruct (Js.isWhiteSpace c) eqn:Hc.
      * exists (String c post). simpl in *. split; [f_equal; assumption |].
        unfold blank in *. simpl. now rewrite Hc.
      * exists post. simpl in *. split; [f_equal; assumption | assumption].
    + exists post. simpl in *. split; [f_equal; assumption | assumption].
Qed.

Lemma trim_spec (s : string) :
  exists pre post,
    s = (pre ++ Js.trim s ++ post)%string
    /\ blank pre = true /\ blank post = true.
Proof.
  destruct (trimStart_spec s) as [pre [Hs Hpre]].
  destruct (trimEnd_spec (Js.trimStart s)) as [post [Ht Hpost]].
  exists pre, post. unfold Js.trim. now rewrite <- Ht.
Qed.

Lemma trimStart_first (s : string) (c : ascii) :
  first_unit (Js.trimStart s) = Some c -> Js.isWhiteSpace c = false.
Proof.
  induction s as [|b s IH]; simpl; [discriminate |].
  destruct (Js.isWhiteSpace b) eqn:Hb; [exact IH |].
  simpl. now intros [= <-].
Qed.

Lemma trimEnd_first (s : string) :
  Js.trimEnd s <> "" -> first_unit (Js.trimEnd s) = first_unit s.
Proof.
  destruct s as [|c s]; simpl; [reflexivity |].
  destruct (Js.trimEnd s); [| reflexivity].
  now destruct (Js.isWhiteSpace c).
Qed.

Lemma trimEnd_last (s : string) (c : ascii) :
  last_unit (Js.trimEnd s) = Some c -> Js.isWhiteSpace c = false.
Proof.
  induction s as [|b s IH]; simpl; [discriminate |].
  destruct (Js.trimEnd s) as [|b' t] eqn:Ht.
  - destruct (Js.isWhiteSpace b) eqn:Hb; simpl; [discriminate |].
    now intros [= <-].
  - exact IH.
Qed.

Lemma trimStart_blank (s : string) :
  Js.trimStart s = "" <-> blank s = true.
Proof.
  unfold blank. induction s as [|c s IH]; simpl; [easy |].
  destruct (Js.isWhiteSpace c); simpl; [exact IH | easy].
Qed.

Lemma trimEnd_blank (s : string) :
  Js.trimEnd s = "" <-> blank s = true.
Proof.
  unfold blank. induction s as [|c s IH]; simpl; [easy |].
  destruct (Js.trimEnd s) as [|b t].
  - destruct (Js.isWhiteSpace c); simpl.
    + split; [intros _; now apply IH | reflexivity].
    + easy.
  - split; [discriminate |]. intros H. apply andb_true_iff in H as [_ H].
    apply IH in H. discriminate H.
Qed.

Lemma blank_app (a b : string) :
  blank (a ++ b) = blank a && blank b.
Proof.
  unfold blank. induction a as [|c a IH]; simpl; [reflexivity |].
  now rewrite IH, andb_assoc.
Qed.

Lemma trim_blank (s : string) : Js.trim s = "" <-> blank s = true.
Proof.
  unfold Js.trim. rewrite trimEnd_blank.
  destruct (trimStart_spec s) as [pre [Hs Hpre]].
  rewrite Hs at 2. rewrite blank_app, Hpre. reflexivity.
Qed.

(** ** The selector, once more *)

Lemma unit_mismatch (a c : ascii) :
  Js.isWhiteSpace a = false -> Js.isWhiteSpace c = true -> Ascii.eqb a c = false.
Proof.
  intros Ha Hc. destruct (Ascii.eqb_spec a c) as [->|]; [| reflexivity].
  rewrite Hc in Ha. discriminate Ha.
Qed.

Lemma startsWith_blank_suffix (u post kw : string) :
  solid kw = true -> blank post = true ->
  Js.startsWith (u ++ post) kw = Js.startsWith u kw.
Proof.
  unfold solid, blank. revert u.
  induction kw as [|a kw IH]; intros u Hkw Hpost.
  - now destruct u, post.
  - simpl in Hkw. apply andb_true_iff in Hkw as [Ha Hkw].
    apply negb_true_iff in Ha.
    destruct u as [|b u]; simpl.
    + destruct post as [|p post]; [reflexivity |].
      simpl in Hpost. apply andb_true_iff in Hpost as [Hp _].
      simpl. now rewrite (unit_mismatch a p).
    + destruct (Ascii.eqb a b); [now apply IH | reflexivity].
Qed.

Lemma includes_blank (p kw : string) :
  kw <> "" -> solid kw = true -> blank p = true -> Js.includes p kw = false.
Proof.
  intros Hne Hkw. destruct kw as [|a kw]; [contradiction |].
  unfold solid in Hkw. simpl in Hkw. apply andb_true_iff in Hkw as [Ha _].
  apply negb_true_iff in Ha. unfold blank.
  induction p as [|c p IH]; [reflexivity |].
  simpl. intros H. apply andb_true_iff in H as [Hc Hp].
  now rewrite (unit_mismatch a c), IH.
Qed.

Lemma includes_blank_suffix (t post kw : string) :
  kw <> "" -> solid kw = true -> blank post = true ->
  Js.includes (t ++ post) kw = Js.includes t kw.
Proof.
  intros Hne Hkw Hpost. induction t as [|c t IH].
  - cbn [append]. rewrite (includes_blank post kw) by assumption.
    destruct kw; [contradiction | reflexivity].
  - cbn [append Js.includes]. rewrite IH.
    change (String c (t ++ post)) with (String c t ++ post)%string.
    now rewrite startsWith_blank_suffix.
Qed.

Lemma includes_blank_prefix (pre t kw : string) :
  kw <> "" -> solid kw = true -> blank pre = true ->
  Js.includes (pre ++ t) kw = Js.includes t kw.
Proof.
  intros Hne Hkw. destruct kw as [|a kw]; [contradiction |].
  pose proof Hkw as Hkw'. unfold solid in Hkw'. simpl in Hkw'.
  apply andb_true_iff in Hkw' as [Ha _]. apply negb_true_iff in Ha.
  unfold blank. induction pre as [|c pre IH]; [reflexivity |].
  simpl. intros H. apply andb_true_iff in H as [Hc Hp].
  now rewrite (unit_mismatch a c), IH.
Qed.

Lemma includes_trim (s kw : string) :
  kw <> "" -> solid kw = true ->
  Js.includes (Js.toLowerCase (Js.trim s)) kw
  = Js.includes (Js.toLowerCase s) kw.
Proof.
  intros Hne Hkw. destruct (trim_spec s) as (pre & post & Hs & Hpre & Hpost).
  rewrite Hs at 2. rewrite !toLowerCase_app.
  rewrite (toLowerCase_blank pre), (toLowerCase_blank post) by assumption.
  rewrite includes_blank_prefix, includes_blank_suffix by assumption.
  reflexivity.
Qed.

Lemma generateMedicalResponse_trim (typed : string) :
  generateMedicalResponse (Js.trim typed) = generateMedicalResponse typed.
Proof.
  unfold generateMedicalResponse. cbv zeta.
  rewrite !includes_trim by (first [discriminate | reflexivity]).
  reflexivity.
Qed.

Lemma generateMedicalResponse_canned (query : string) :
  In (generateMedicalResponse query) canned_responses.
Proof.
  unfold generateMedicalResponse, canned_responses. cbv zeta.
  repeat match goal with
         | |- context [if ?b then _ else _] => destruct b
         end; simpl; auto 6.
Qed.

(** What the assistant answers to the trimmed text is what it would
    answer to the text as typed: whitespace around the input never
    changes the answer. *)
Theorem reply_ignores_outer_whitespace (typed : string) :
  generateMedicalResponse (Js.trim typed) = generateMedicalResponse typed.
Proof. exact (generateMedicalResponse_trim typed). Qed.

Lemma canned_responses_differ :
  HEADACHE_ADVICE <> FEVER_ADVICE /\ HEADACHE_ADVICE <> COLD_FLU_ADVICE
  /\ HEADACHE_ADVICE <> COUGH_ADVICE /\ HEADACHE_ADVICE <> GENERIC_DISCLAIMER
  /\ FEVER_ADVICE <> COLD_FLU_ADVICE /\ FEVER_ADVICE <> COUGH_ADVICE
  /\ FEVER_ADVICE <> GENERIC_DISCLAIMER /\ COLD_FLU_ADVICE <> COUGH_ADVICE
  /\ COLD_FLU_ADVICE <> GENERIC_DISCLAIMER
  /\ COUGH_ADVICE <> GENERIC_DISCLAIMER.
Proof.
  repeat split; apply String.eqb_neq; vm_compute; reflexivity.
Qed.

(** The answer tells which rule fired: each of the five strings is
    returned exactly when its keyword occurs in the lower-cased input and
    no keyword of a rule before it does. *)
Theorem response_identifies_rule (query : string) :
  let has kw := Substring kw (Js.toLowerCase query) in
  (generateMedicalResponse query = HEADACHE_ADVICE <-> has "headache")
  /\ (generateMedicalResponse query = FEVER_ADVICE
      <-> ~ has "headache" /\ has "fever")
  /\ (generateMedicalResponse query = COLD_FLU_ADVICE
      <-> ~ has "headache" /\ ~ has "fever" /\ (has "cold" \/ has "flu"))
  /\ (generateMedicalResponse query = COUGH_ADVICE
      <-> ~ has "headache" /\ ~ has "fever" /\ ~ has "cold" /\ ~ has "flu"
          /\ has "cough")
  /\ (generateMedicalResponse query = GENERIC_DISCLAIMER
      <-> ~ has "headache" /\ ~ has "fever" /\ ~ has "cold" /\ ~ has "flu"
          /\ ~ has "cough").
Proof.
  intros has. subst has. cbv beta.
  destruct canned_responses_differ
    as (N1 & N2 & N3 & N4 & N5 & N6 & N7 & N8 & N9 & N10).
  rewrite <- !includes_spec. unfold generateMedicalResponse. cbv zeta.
  destruct (Js.includes (Js.toLowerCase query) "headache");
    destruct (Js.includes (Js.toLowerCase query) "fever");
    destruct (Js.includes (Js.toLowerCase query) "cold");
    destruct (Js.includes (Js.toLowerCase query) "flu");
    destruct (Js.includes (Js.toLowerCase query) "cough");
    cbn [orb];
    repeat split; intros; repeat match goal with
                                 | H : _ /\ _ |- _ => destruct H
                                 | H : _ \/ _ |- _ => destruct H
                                 end;
    try reflexivity; try discriminate; try congruence; auto;
    try (exfalso; auto; fail).
Qed.

(* ================================================================= *)
(** ** Keys and references of the tables *)

Lemma NoDup_snoc_fresh (ids : list nat) (n : nat) :
  NoDup ids -> Forall (fun i => i < n) ids -> NoDup (ids ++ [n]).
Proof.
  intros Hnd Hlt. apply NoDup_app.
  - exact Hnd.
  - repeat constructor. intros [].
  - intros i Hi [E|[]]. subst i. rewrite Forall_forall in Hlt.
    specialize (Hlt n Hi). lia.
Qed.

Lemma Forall_lt_S (A : Type) (f : A -> nat) (n : nat) (l : list A) :
  Forall (fun x => f x < n) l -> Forall (fun x => f x < S n) l.
Proof. intros H. eapply Forall_impl; [| exact H]. simpl. intros x Hx. lia. Qed.

Lemma owns_session_In (d : Db.t) (u sid : uuid) :
  Db.owns_session d u sid = true ->
  exists s, In s (Db.chat_sessions d) /\ cs_id s = sid /\ cs_user_id s = u.
Proof.
  unfold Db.owns_session. intros H.
  apply existsb_exists in H as [s [Hin Hs]].
  apply andb_true_iff in Hs as [H1 H2].
  exists s. repeat split; [exact Hin | |]; now apply Nat.eqb_eq.
Qed.

Lemma In_owns_session (d : Db.t) (s : ChatSession) :
  In s (Db.chat_sessions d) ->
  Db.owns_session d (cs_user_id s) (cs_id s) = true.
Proof.
  intros H. unfold Db.owns_session. apply existsb_exists.
  exists s. now rewrite !Nat.eqb_refl.
Qed.

Lemma touched_map (A : Type) (f : ChatSession -> A) (u sid : uuid)
    (t : timestamptz) (d : Db.t) :
  (forall s, f (with_updated_at t s) = f s) ->
  map f (touched u sid t d) = map f (Db.chat_sessions d).
Proof.
  intros Hf. unfold touched. cbn [Db.touchSession snd Db.chat_sessions].
  rewrite map_map. apply map_ext. intros s.
  destruct ((cs_id s =? sid) && (cs_user_id s =? u)); [apply Hf | reflexivity].
Qed.

Lemma consistent_createSession (d : Db.t) (auth_uid user_id : uuid) title :
  db_consistent d ->
  db_consistent (snd (Db.createSession auth_uid user_id title d)).
Proof.
  intros (Hs & Hm & Hsl & Hml & Hu & Hfk). unfold Db.createSession.
  destruct (negb (user_id =? auth_uid)); [now repeat split |].
  destruct (existsb (Nat.eqb user_id) (Db.users d)) eqn:E;
    cbn [negb snd]; [| now repeat split].
  unfold db_consistent.
  cbn [Db.chat_sessions Db.messages Db.next_uuid Db.users].
  rewrite map_app. cbn [map cs_id].
  repeat split.
  - now apply NoDup_snoc_fresh; [| rewrite Forall_map].
  - exact Hm.
  - apply Forall_app. split; [now apply Forall_lt_S |].
    repeat constructor.
  - now apply Forall_lt_S.
  - apply Forall_app. split; [exact Hu |]. repeat constructor. simpl.
    apply existsb_exists in E as [x [Hx Ex]].
    apply Nat.eqb_eq in Ex. now subst x.
  - eapply Forall_impl; [| exact Hfk]. simpl. intros m Hin.
    apply in_or_app. now left.
Qed.

Lemma consistent_appendMessage (d : Db.t) (auth_uid sid : uuid) role content :
  db_consistent d ->
  db_consistent (snd (Db.appendMessage auth_uid sid role content d)).
Proof.
  intros (Hs & Hm & Hsl & Hml & Hu & Hfk). unfold Db.appendMessage.
  destruct (Db.owns_session d auth_uid sid) eqn:E;
    cbn [negb snd]; [| now repeat split].
  unfold db_consistent.
  cbn [Db.chat_sessions Db.messages Db.next_uuid Db.users].
  rewrite map_app. cbn [map m_id].
  repeat split.
  - exact Hs.
  - now apply NoDup_snoc_fresh; [| rewrite Forall_map].
  - now apply Forall_lt_S.
  - apply Forall_app. split; [now apply Forall_lt_S |].
    repeat constructor.
  - exact Hu.
  - apply Forall_app. split; [exact Hfk |]. repeat constructor. simpl.
    apply owns_session_In in E as (s & Hin & Hid & _).
    apply in_map_iff. now exists s.
Qed.

Lemma consistent_touchSession (d : Db.t) (auth_uid sid : uuid) t :
  db_consistent d ->
  db_consistent (snd (Db.touchSession auth_uid sid t d)).
Proof.
  intros (Hs & Hm & Hsl & Hml & Hu & Hfk).
  pose proof (touched_map _ cs_id auth_uid sid t d (fun _ => eq_refl)) as Eid.
  pose proof (touched_map _ cs_user_id auth_uid sid t d (fun _ => eq_refl))
    as Eu.
  unfold touched in Eid, Eu. unfold db_consistent.
  cbn [Db.touchSession snd Db.chat_sessions Db.messages Db.next_uuid Db.users]
    in *.
  rewrite Eid. repeat split; try assumption.
  - apply Forall_map. eapply Forall_impl; [| exact Hsl]. intros s Hlt.
    now destruct ((cs_id s =? sid) && (cs_user_id s =? auth_uid)).
  - apply Forall_map. eapply Forall_impl; [| exact Hu]. intros s Hin.
    now destruct ((cs_id s =? sid) && (cs_user_id s =? auth_uid)).
Qed.

Lemma listMessages_In (u sid : uuid) (d : Db.t) (m : Message) :
  In m (Db.listMessages u sid d)
  <-> In m (Db.messages d) /\ m_session_id m = sid
      /\ Db.owns_session d u sid = true.
Proof.
  unfold Db.listMessages. split.
  - intros H. eapply Permutation_in in H; [| apply order_by_Permutation].
    apply filter_In in H as [H1 H2]. apply andb_true_iff in H2 as [H2 H3].
    apply Nat.eqb_eq in H2. subst sid. now repeat split.
  - intros (H1 & H2 & H3).
    eapply Permutation_in; [symmetry; apply order_by_Permutation |].
    apply filter_In. split; [exact H1 |].
    subst sid. now rewrite Nat.eqb_refl, H3.
Qed.

Lemma NoDup_map_filter (A : Type) (f : A -> nat) (p : A -> bool) (l : list A) :
  NoDup (map f l) -> NoDup (map f (filter p l)).
Proof.
  induction l as [|x l IH]; simpl; [trivial |].
  intros H. inversion H as [|? ? Hx Hl]; subst.
  destruct (p x); [| now apply IH].
  simpl. constructor; [| now apply IH].
  intros Hin. apply Hx. apply in_map_iff in Hin as [y [Hy Hin]].
  apply filter_In in Hin as [Hin _]. apply in_map_iff. now exists y.
Qed.

Lemma NoDup_map_order_by (A : Type) (f : A -> nat) (key : A -> timestamptz)
    (asc : bool) (l : list A) :
  NoDup (map f l) -> NoDup (map f (order_by key asc l)).
Proof.
  intros H. eapply Permutation_NoDup; [| exact H].
  apply Permutation_map. symmetry. apply order_by_Permutation.
Qed.

Lemma listMessages_not_owned (u sid : uuid) (d : Db.t) :
  Db.owns_session d u sid = false -> Db.listMessages u sid d = [].
Proof.
  intros Hown. destruct (Db.listMessages u sid d) as [|m l] eqn:E;
    [reflexivity |].
  assert (Hin : In m (Db.listMessages u sid d)) by (rewrite E; now left).
  apply listMessages_In in Hin as (_ & _ & Hin). congruence.
Qed.

(* ================================================================= *)
(** ** What a send adds *)

Lemma send_adds_none_or_pair (w : World) :
  (exists added,
      Db.messages (db (exec sendMessage w)) = Db.messages (db w) ++ added
      /\ (added = []
          \/ exists cur,
               currentSession (view w) = Some cur
               /\ (added = [user_turn w cur]
                   \/ added = [user_turn w cur; assistant_turn w cur])))
  /\ Db.users (db (exec sendMessage w)) = Db.users (db w)
  /\ map cs_id (Db.chat_sessions (db (exec sendMessage w)))
     = map cs_id (Db.chat_sessions (db w))
  /\ map cs_user_id (Db.chat_sessions (db (exec sendMessage w)))
     = map cs_user_id (Db.chat_sessions (db w))
  /\ map cs_title (Db.chat_sessions (db (exec sendMessage w)))
     = map cs_title (Db.chat_sessions (db w))
  /\ map cs_created_at (Db.chat_sessions (db (exec sendMessage w)))
     = map cs_created_at (Db.chat_sessions (db w)).
Proof.
  pose proof (sendMessage_runs w) as Hrun.
  remember (exec sendMessage w) as w' eqn:Ew. clear Ew.
  destruct Hrun as [Hguard | cur e Hcur Hld Hin Herr | cur Hcur Hld Hin H0 Hown].
  - split; [exists []; now rewrite app_nil_r; split; [| left] |].
    now repeat split.
  - cbn [db]. split; [exists []; now rewrite app_nil_r; split; [| left] |].
    now repeat split.
  - cbn [db].
    destruct (after_touch_messages w cur) as (Em & Eu & _ & _).
    rewrite Em, Eu, after_touch_sessions, after_assistant_owned by assumption.
    cbn [Db.messages Db.users]. split.
    + eexists. split; [reflexivity |]. right. exists cur. split; [exact Hcur |].
      destruct (verdict 2 w); [now left | now right].
    + split; [reflexivity |].
      destruct (verdict 4 w); [now repeat split |].
      repeat split; now apply touched_map.
Qed.

(** Whatever the store answers, a send leaves every stored message as it
    was and adds nothing, the [user] row alone, or the [user] row
    followed by the [assistant] row: a reply is never stored without the
    message it answers.  The users table and the identity, owner, title
    and creation time of every session are left alone. *)
Theorem send_adds_at_most_the_pair (w : World) :
  (exists added,
      Db.messages (db (exec sendMessage w)) = Db.messages (db w) ++ added
      /\ (added = []
          \/ exists cur,
               currentSession (view w) = Some cur
               /\ (added = [user_turn w cur]
                   \/ added = [user_turn w cur; assistant_turn w cur])))
  /\ Db.users (db (exec sendMessage w)) = Db.users (db w)
  /\ map cs_id (Db.chat_sessions (db (exec sendMessage w)))
     = map cs_id (Db.chat_sessions (db w))
  /\ map cs_user_id (Db.chat_sessions (db (exec sendMessage w)))
     = map cs_user_id (Db.chat_sessions (db w))
  /\ map cs_title (Db.chat_sessions (db (exec sendMessage w)))
     = map cs_title (Db.chat_sessions (db w))
  /\ map cs_created_at (Db.chat_sessions (db (exec sendMessage w)))
     = map cs_created_at (Db.chat_sessions (db w)).
Proof. exact (send_adds_none_or_pair w). Qed.

(** A send never changes the session list or the selection it holds in
    memory, not even the [updated_at] it has just written to the store;
    it ends idle whenever it started idle; and when it got past the guard
    the input is empty afterwards, whether or not anything was stored. *)
Theorem send_keeps_selection_and_ends_idle (w : World) :
  sessions (view (exec sendMessage w)) = sessions (view w)
  /\ currentSession (view (exec sendMessage w)) = currentSession (view w)
  /\ uid (exec sendMessage w) = uid w
  /\ (loading (view w) = false -> idle (exec sendMessage w))
  /\ (exec sendMessage w = w \/ input (view (exec sendMessage w)) = "").
Proof.
  pose proof (sendMessage_runs w) as Hrun.
  remember (exec sendMessage w) as w' eqn:Ew. clear Ew.
  destruct Hrun as [Hguard | cur e Hcur Hld Hin Herr | cur Hcur Hld Hin H0 Hown];
    unfold idle; cbn [view sessions currentSession loading input uid];
    rewrite ?Hcur; repeat split; auto.
Qed.


(* ================================================================= *)
(** ** What a send leaves alone *)

Lemma owns_session_keys (d d' : Db.t) (u sid : uuid) :
  map cs_id (Db.chat_sessions d') = map cs_id (Db.chat_sessions d) ->
  map cs_user_id (Db.chat_sessions d') = map cs_user_id (Db.chat_sessions d) ->
  Db.owns_session d' u sid = Db.owns_session d u sid.
Proof.
  unfold Db.owns_session.
  generalize (Db.chat_sessions d) as l, (Db.chat_sessions d') as l'.
  induction l as [|s l IH]; intros [|s' l'] Hid Hu; try discriminate;
    [reflexivity |].
  simpl in *. injection Hid as Hid1 Hid2. injection Hu as Hu1 Hu2.
  now rewrite Hid1, Hu1, (IH l').
Qed.

Lemma listMessages_frame (u sid : uuid) (d d' : Db.t) (added : list Message) :
  map cs_id (Db.chat_sessions d') = map cs_id (Db.chat_sessions d) ->
  map cs_user_id (Db.chat_sessions d') = map cs_user_id (Db.chat_sessions d) ->
  Db.messages d' = Db.messages d ++ added ->
  Forall (fun m => m_session_id m <> sid) added ->
  Db.listMessages u sid d' = Db.listMessages u sid d.
Proof.
  intros Hid Hu Hm Hadded. unfold Db.listMessages. rewrite Hm, filter_app.
  replace (filter _ added) with (@nil Message).
  - rewrite app_nil_r. f_equal. apply filter_ext. intros m.
    now rewrite (owns_session_keys d d').
  - symmetry. clear Hm. induction Hadded as [|m l Hm' _ IH]; [reflexivity |].
    simpl. apply Nat.eqb_neq in Hm'. rewrite Hm'. simpl. exact IH.
Qed.

Lemma listSessions_touched_other (u u' sid : uuid) (t : timestamptz) (d : Db.t) :
  u' <> u ->
  filter (fun s => cs_user_id s =? u') (touched u sid t d)
  = filter (fun s => cs_user_id s =? u') (Db.chat_sessions d).
Proof.
  intros Hne. unfold touched. cbn [Db.touchSession snd Db.chat_sessions].
  induction (Db.chat_sessions d) as [|s l IH]; [reflexivity |].
  cbn [map filter]. rewrite IH.
  destruct ((cs_id s =? sid) && (cs_user_id s =? u)) eqn:E; [| reflexivity].
  apply andb_true_iff in E as [_ E]. apply Nat.eqb_eq in E.
  cbn [cs_user_id]. rewrite E.
  replace (u =? u') with false; [reflexivity |].
  symmetry. apply Nat.eqb_neq. congruence.
Qed.

Lemma owner_unique (d : Db.t) (u u' sid : uuid) :
  NoDup (map cs_id (Db.chat_sessions d)) ->
  Db.owns_session d u sid = true -> u' <> u ->
  Db.owns_session d u' sid = false.
Proof.
  intros Hnd Hown Hne.
  destruct (Db.owns_session d u' sid) eqn:Hown'; [| reflexivity].
  apply owns_session_In in Hown as (s & Hs & Hid & Hu).
  apply owns_session_In in Hown' as (s' & Hs' & Hid' & Hu').
  assert (s = s'); [| congruence].
  clear Hu Hu' Hne. revert Hnd Hs Hs'. subst sid.
  induction (Db.chat_sessions d) as [|x l IH]; [intros _ [] |].
  simpl. intros Hnd [->|Hs] [->|Hs']; inversion Hnd as [|? ? Hx Hl]; subst.
  - reflexivity.
  - exfalso. apply Hx. rewrite <- Hid'. now apply in_map.
  - exfalso. apply Hx. rewrite Hid'. now apply in_map.
  - now apply IH.
Qed.

(** Sending in one chat does not change what any user is shown of any
    other chat: the message list of every session but the selected one
    reads the same before and after, whatever the store answers. *)
Theorem send_leaves_other_chats (w : World) (reader sid : uuid) :
  (forall cur, currentSession (view w) = Some cur -> cs_id cur <> sid) ->
  Db.listMessages reader sid (db (exec sendMessage w))
  = Db.listMessages reader sid (db w).
Proof.
  intros Hother.
  destruct (send_adds_none_or_pair w)
    as ((added & Hm & Hadded) & _ & Hid & Hu & _).
  apply (listMessages_frame reader sid (db w) _ added Hid Hu Hm).
  destruct Hadded as [-> | (cur & Hcur & [-> | ->])]; repeat constructor;
    simpl; now apply Hother.
Qed.

Lemma send_leaves_other_chats_witness :
  Db.listMessages 7 100 (db (exec sendMessage second_chat))
  = Db.listMessages 7 100 (db second_chat)
  /\ map m_session_id (Db.messages (db second_chat)) = [100; 100]
  /\ map m_session_id (Db.messages (db (exec sendMessage second_chat)))
     = [100; 100; 103; 103].
Proof.
  split; [| split; vm_compute; reflexivity].
  refine (send_leaves_other_chats second_chat 7 100 _).
  intros cur Hcur. vm_compute in Hcur. injection Hcur as <-.
  vm_compute. discriminate.
Defined.

(** A send is invisible to every other user: with primary keys
    distinct, neither the session list nor any message list of a user
    other than the sender reads differently afterwards. *)
Theorem send_is_invisible_to_other_users (w : World) (other : uuid) :
  db_consistent (db w) ->
  other <> uid w ->
  Db.listSessions other (db (exec sendMessage w)) = Db.listSessions other (db w)
  /\ forall sid,
       Db.listMessages other sid (db (exec sendMessage w))
       = Db.listMessages other sid (db w).
Proof.
  intros Hok Hne.
  pose proof (sendMessage_runs w) as Hrun.
  remember (exec sendMessage w) as w' eqn:Ew. clear Ew.
  destruct Hrun as [Hguard | cur e Hcur Hld Hin Herr | cur Hcur Hld Hin H0 Hown];
    [now split | now split |].
  cbn [db]. split.
  - unfold Db.listSessions. rewrite after_touch_sessions by assumption.
    destruct (verdict 4 w); [reflexivity |].
    now rewrite listSessions_touched_other.
  - intros sid.
    assert (Hkeys :
              map cs_id (Db.chat_sessions (after_touch w cur))
              = map cs_id (Db.chat_sessions (db w))
              /\ map cs_user_id (Db.chat_sessions (after_touch w cur))
                 = map cs_user_id (Db.chat_sessions (db w))).
    { rewrite after_touch_sessions by assumption.
      destruct (verdict 4 w); [now split |].
      split; now apply touched_map. }
    destruct Hkeys as [Hid Hu].
    destruct (Nat.eq_dec (cs_id cur) sid) as [<-|Hsid].
    + destruct Hok as (Hnd & _).
      pose proof (owner_unique (db w) (uid w) other (cs_id cur) Hnd Hown Hne)
        as Hno.
      rewrite (listMessages_not_owned other (cs_id cur) (db w) Hno).
      apply listMessages_not_owned.
      now rewrite (owns_session_keys (db w)).
    + destruct (after_touch_messages w cur) as (Em & _).
      rewrite after_assistant_owned in Em by assumption.
      cbn [Db.messages] in Em.
      apply (listMessages_frame other sid (db w) _ _ Hid Hu Em).
      destruct (verdict 2 w); repeat constructor; exact Hsid.
Qed.

Lemma surgery_db_consistent : db_consistent surgery_db.
Proof.
  unfold db_consistent, surgery_db, surgery_session. simpl.
  repeat split; repeat constructor; simpl; try lia; auto.
Qed.

Lemma send_is_invisible_to_other_users_witness :
  Db.listSessions 8 (db (exec sendMessage (surgery "flu" [])))
  = Db.listSessions 8 surgery_db.
Proof.
  refine (proj1 (send_is_invisible_to_other_users (surgery "flu" []) 8 _ _)).
  - exact surgery_db_consistent.
  - simpl. discriminate.
Defined.

(* ================================================================= *)
(** ** The handlers keep keys distinct and references alive *)

Lemma select_chat_sessions_keeps_consistent :
  keeps db_consistent select_chat_sessions.
Proof. intros w. apply keeps_await. now intros d. Qed.

Lemma select_messages_keeps_consistent (sid : uuid) :
  keeps db_consistent (select_messages sid).
Proof. intros w. apply keeps_await. now intros d. Qed.

Lemma insert_chat_session_keeps_consistent (user_id : uuid) title :
  keeps db_consistent (insert_chat_session user_id title).
Proof.
  intros w. apply keeps_await. intros d. apply consistent_createSession.
Qed.

Lemma insert_message_keeps_consistent (sid : uuid) role content :
  keeps db_consistent (insert_message sid role content).
Proof.
  intros w. apply keeps_await. intros d. apply consistent_appendMessage.
Qed.

Lemma update_chat_session_keeps_consistent (sid : uuid) t :
  keeps db_consistent (update_chat_session sid t).
Proof.
  intros w. apply keeps_await. intros d. apply consistent_touchSession.
Qed.

#[local] Hint Resolve select_chat_sessions_keeps_consistent
  select_messages_keeps_consistent insert_chat_session_keeps_consistent
  insert_message_keeps_consistent update_chat_session_keeps_consistent
  : keeps.

Lemma loadSessions_keeps_consistent : keeps db_consistent loadSessions.
Proof. unfold loadSessions. keeps_through. Qed.

Lemma loadMessages_keeps_consistent (sid : uuid) :
  keeps db_consistent (loadMessages sid).
Proof. unfold loadMessages. keeps_through. Qed.

Lemma createNewSession_keeps_consistent : keeps db_consistent createNewSession.
Proof.
  unfold createNewSession. keeps_through. intros w H. exact H.
Qed.

Lemma sendMessage_keeps_consistent : keeps db_consistent sendMessage.
Proof.
  pose proof loadMessages_keeps_consistent as Hl.
  unfold sendMessage. keeps_through.
Qed.

(** Whatever the store answers to them, the four handlers leave the
    tables as the schema wants them: primary keys pairwise distinct,
    every session owned by a registered user, every message in a session
    that exists. *)
Theorem handlers_keep_keys_and_references (w : World) :
  db_consistent (db w) ->
  db_consistent (db (exec loadSessions w))
  /\ (forall sessionId, db_consistent (db (exec (loadMessages sessionId) w)))
  /\ db_consistent (db (exec createNewSession w))
  /\ db_consistent (db (exec sendMessage w)).
Proof.
  intros H. split; [now apply loadSessions_keeps_consistent |].
  split; [intros sid; now apply loadMessages_keeps_consistent |].
  split; [now apply createNewSession_keeps_consistent |].
  now apply sendMessage_keeps_consistent.
Qed.

Lemma handlers_keep_keys_and_references_witness :
  db_consistent (db (exec sendMessage (surgery "flu" []))).
Proof.
  apply (handlers_keep_keys_and_references (surgery "flu" [])).
  exact surgery_db_consistent.
Defined.

(* ================================================================= *)
(** ** New chat, first load and switching chats *)

Lemma ChatSession_eqb_eq (a b : ChatSession) :
  ChatSession_eqb a b = true <-> a = b.
Proof.
  unfold ChatSession_eqb. destruct a, b. cbn [cs_id cs_user_id cs_title
    cs_created_at cs_updated_at].
  rewrite !andb_true_iff, !Nat.eqb_eq, String.eqb_eq. split.
  - intros [[[[-> ->] ->] ->] ->]. reflexivity.
  - intros [= -> -> -> -> ->]. now repeat split.
Qed.

Lemma selection_eqb_eq (a b : option ChatSession) :
  selection_eqb a b = true <-> a = b.
Proof.
  destruct a as [x|], b as [y|]; simpl; try easy.
  rewrite ChatSession_eqb_eq. split; [now intros -> | now intros [= ->]].
Qed.

Lemma selection_eqb_refl (a : option ChatSession) : selection_eqb a a = true.
Proof. now apply selection_eqb_eq. Qed.

Lemma selection_eqb_neq (a b : option ChatSession) :
  a <> b -> selection_eqb a b = false.
Proof.
  intros H. destruct (selection_eqb a b) eqn:E; [| reflexivity].
  apply selection_eqb_eq in E. contradiction.
Qed.

Lemma createNewSession_let_through (w : World) :
  verdict 0 w = None ->
  In (uid w) (Db.users (db w)) ->
  exec createNewSession w
  = mkWorld (mkView (session_A (uid w) (db w) :: sessions (view w))
                    (Some (session_A (uid w) (db w))) []
                    (input (view w)) (loading (view w)))
            (Db.mk (Db.users (db w))
                   (Db.chat_sessions (db w) ++ [session_A (uid w) (db w)])
                   (Db.messages (db w))
                   (S (Db.next_uuid (db w))) (S (Db.now (db w))))
            (uid w) (clock w) (tl (tape w))
            (requests w ++ [InsertChatSession (uid w) "New Chat"])
            (console w).
Proof.
  intros H0 Hu. unfold exec, createNewSession, bind, closure, insert_chat_session.
  rewrite await_let_through by assumption.
  rewrite createSession_own by assumption. reflexivity.
Qed.

Lemma fresh_session_lists_nothing (d : Db.t) (u : uuid) :
  db_consistent d -> forall d',
  Db.messages d' = Db.messages d ->
  Db.listMessages u (Db.next_uuid d) d' = [].
Proof.
  intros (_ & _ & Hsl & _ & _ & Hfk) d' Em. apply listMessages_none.
  rewrite Em. intros m Hm Heq.
  rewrite Forall_forall in Hfk. apply Hfk in Hm.
  apply in_map_iff in Hm as (s & Hid & Hs).
  rewrite Forall_forall in Hsl. apply Hsl in Hs. lia.
Qed.

(** A click on "+ New Chat" that the store accepts puts a session titled
    "New Chat", owned by the user, at the head of the list, selects it and
    shows an empty conversation, whether or not the reload that follows
    the new selection succeeds; the store holds the new row, with an id no
    session had before, and no message for it. *)
Theorem new_chat_opens_an_empty_chat (w : World) :
  verdict 0 w = None ->
  In (uid w) (Db.users (db w)) ->
  db_consistent (db w) ->
  (forall c, currentSession (view w) = Some c -> cs_id c < Db.next_uuid (db w)) ->
  let row := mkChatSession (Db.next_uuid (db w)) (uid w) "New Chat"
                           (Db.now (db w)) (Db.now (db w)) in
  view (exec newChat w)
  = mkView (row :: sessions (view w)) (Some row) []
           (input (view w)) (loading (view w))
  /\ requests (exec newChat w)
     = requests w ++ [InsertChatSession (uid w) "New Chat";
                      SelectMessages (cs_id row)]
  /\ Db.chat_sessions (db (exec newChat w)) = Db.chat_sessions (db w) ++ [row]
  /\ Db.messages (db (exec newChat w)) = Db.messages (db w)
  /\ ~ In (cs_id row) (map cs_id (Db.chat_sessions (db w)))
  /\ Db.listMessages (uid w) (cs_id row) (db (exec newChat w)) = [].
Proof.
  intros H0 Hu Hok Hsel row.
  assert (Hfresh : forall d', Db.messages d' = Db.messages (db w) ->
                              Db.listMessages (uid w) (cs_id row) d' = [])
    by (apply fresh_session_lists_nothing; exact Hok).
  assert (Hnew : ~ In (cs_id row) (map cs_id (Db.chat_sessions (db w)))).
  { destruct Hok as (_ & _ & Hsl & _). intros Hin.
    apply in_map_iff in Hin as (s & Hid & Hs).
    rewrite Forall_forall in Hsl. apply Hsl in Hs. simpl in Hid. lia. }
  assert (Hchanged : selection_eqb (currentSession (view w)) (Some row) = false).
  { apply selection_eqb_neq. intros E. apply Hsel in E. simpl in E. lia. }
  unfold exec, newChat, bind, closure.
  pose proof (createNewSession_let_through w H0 Hu) as Ec.
  unfold exec, session_A in Ec. destruct (createNewSession w) as [[] w1].
  cbn [snd] in Ec. subst w1 row.
  unfold rerender, bind, closure. fields. rewrite Hchanged.
  unfold currentSession_effect, bind, closure. fields.
  destruct (verdict 1 w) as [e|] eqn:H1.
  - rewrite loadMessages_rejected with (e := e)
      by (unfold verdict; fields; now rewrite nth_tl).
    cbn [snd]. fields. rewrite <- app_assoc.
    rewrite Hfresh by reflexivity.
    repeat split; first [reflexivity | exact Hnew].
  - rewrite loadMessages_let_through
      by (unfold verdict; fields; now rewrite nth_tl).
    cbn [snd]. fields. rewrite <- app_assoc.
    rewrite !Hfresh by reflexivity.
    repeat split; first [reflexivity | exact Hnew].
Qed.

Lemma new_chat_opens_an_empty_chat_witness :
  currentSession (view (exec newChat (surgery "" [None; Some FetchFailed])))
  = Some (mkChatSession 101 7 "New Chat" 11 11)
  /\ messages (view (exec newChat (surgery "" [None; Some FetchFailed]))) = [].
Proof.
  pose proof (new_chat_opens_an_empty_chat
                (surgery "" [None; Some FetchFailed]) eq_refl) as H.
  cbv zeta in H. destruct H as (Hv & _).
  - simpl. now left.
  - exact surgery_db_consistent.
  - intros c [= <-]. simpl. lia.
  - rewrite Hv. split; reflexivity.
Defined.




Lemma loadSessions_let_through (w : World) :
  verdict 0 w = None ->
  exec loadSessions w
  = mkWorld (mkView (Db.listSessions (uid w) (db w))
                    (match currentSession (view w) with
                     | Some c => Some c
                     | None => hd_error (Db.listSessions (uid w) (db w))
                     end)
                    (messages (view w)) (input (view w)) (loading (view w)))
            (db w) (uid w) (clock w) (tl (tape w))
            (requests w ++ [SelectChatSessions]) (console w).
Proof.
  intros H0. unfold exec, loadSessions, bind, closure, select_chat_sessions.
  rewrite await_let_through by assumption.
  cbn [fst snd error data fulfilled or_empty].
  destruct (Db.listSessions (uid w) (db w)) as [|first rest];
    destruct (currentSession (view w)) eqn:E; cbn; rewrite ?E; reflexivity.
Qed.

Lemma StronglySorted_head (A : Type) (R : A -> A -> Prop) (x : A) (l : list A) :
  StronglySorted R (x :: l) -> Forall (R x) l.
Proof. intros H. now inversion H. Qed.

Lemma rerender_same (before : View) (w : World) :
  currentSession (view w) = currentSession before ->
  rerender before w = (tt, w).
Proof.
  intros E. unfold rerender, bind, closure. now rewrite E, selection_eqb_refl.
Qed.

Lemma rerender_changed (before : View) (w : World) (c : ChatSession) :
  currentSession (view w) = Some c ->
  currentSession before <> Some c ->
  rerender before w = loadMessages (cs_id c) w.
Proof.
  intros E Hne. unfold rerender, bind, closure. rewrite E.
  rewrite selection_eqb_neq by exact Hne.
  unfold currentSession_effect, bind, closure. now rewrite E.
Qed.

Lemma select_same_session (w : World) (session : ChatSession) :
  currentSession (view w) = Some session ->
  exec (selectSession session) w = w /\ uid (exec (selectSession session) w) = uid w.
Proof.
  intros E. unfold exec, selectSession, bind, closure, setCurrentSession. fields.
  rewrite rerender_same by (fields; now rewrite E).
  cbn [snd]. unfold with_view. rewrite <- E. now destruct w as [[]].
Qed.

(** A click on a session other than the selected one selects it and asks
    for its messages.  When they arrive they replace the list on screen;
    when the request fails the failure is logged and the list of the chat
    shown before stays on screen under the new selection.  A click on the
    selected session does nothing at all. *)
Theorem select_shows_the_chat_or_keeps_the_old_list
    (w : World) (session : ChatSession) :
  (currentSession (view w) = Some session ->
   exec (selectSession session) w = w)
  /\ (currentSession (view w) <> Some session ->
      currentSession (view (exec (selectSession session) w)) = Some session
      /\ requests (exec (selectSession session) w)
         = requests w ++ [SelectMessages (cs_id session)]
      /\ db (exec (selectSession session) w) = db w
      /\ (verdict 0 w = None ->
          messages (view (exec (selectSession session) w))
          = Db.listMessages (uid w) (cs_id session) (db w))
      /\ (forall e, verdict 0 w = Some e ->
            messages (view (exec (selectSession session) w))
            = messages (view w)
            /\ console (exec (selectSession session) w)
               = console w ++ [("Error loading messages:", e)])).
Proof.
  unfold exec, selectSession, bind, closure, setCurrentSession. fields.
  split.
  - intros E. rewrite rerender_same by (fields; now rewrite E).
    cbn [snd]. unfold with_view. rewrite <- E. now destruct w as [[]].
  - intros Hne.
    rewrite (rerender_changed (view w) _ session) by (fields; auto).
    destruct (verdict 0 w) as [e|] eqn:H0.
    + rewrite loadMessages_rejected with (e := e) by exact H0.
      cbn [snd with_view]. fields.
      do 3 (split; [reflexivity |]).
      split; [intros H; discriminate H |].
      intros e' [= <-]. split; reflexivity.
    + rewrite loadMessages_let_through by exact H0.
      cbn [snd with_view]. fields.
      do 3 (split; [reflexivity |]).
      split; [intros _; reflexivity | intros e' H; discriminate H].
Qed.

Lemma select_shows_the_chat_or_keeps_the_old_list_witness :
  currentSession
    (view (exec (selectSession (mkChatSession 101 7 "New Chat" 11 11))
             (exec sendMessage (surgery "flu" [None; None; None; None; None;
                                               Some FetchFailed]))))
  = Some (mkChatSession 101 7 "New Chat" 11 11)
  /\ map m_session_id
       (messages
          (view (exec (selectSession (mkChatSession 101 7 "New Chat" 11 11))
                   (exec sendMessage
                      (surgery "flu" [None; None; None; None; None;
                                      Some FetchFailed])))))
     = [100; 100].
Proof.
  destruct (select_shows_the_chat_or_keeps_the_old_list
              (exec sendMessage (surgery "flu" [None; None; None; None; None;
                                                Some FetchFailed]))
              (mkChatSession 101 7 "New Chat" 11 11)) as [_ H].
  destruct H as (Hsel & _ & _ & _ & Hfail).
  - vm_compute. discriminate.
  - split; [exact Hsel |].
    destruct (Hfail FetchFailed eq_refl) as [Hm _].
    rewrite Hm. vm_compute. reflexivity.
Defined.

Lemma loadSessions_rejected (w : World) (e : PostgrestError) :
  verdict 0 w = Some e ->
  exec loadSessions w
  = mkWorld (view w) (db w) (uid w) (clock w) (tl (tape w))
            (requests w ++ [SelectChatSessions])
            (console w ++ [("Error loading sessions:", e)]).
Proof.
  intros H0. unfold exec, loadSessions, bind, closure, select_chat_sessions.
  now rewrite await_rejected with (e := e).
Qed.

(** On mount the session list is asked for.  When it fails or is empty
    nothing else is asked and the cells keep their initial values.
    Otherwise the first session of the list is selected and its messages
    are asked for; they are shown when they arrive, and the conversation
    stays empty when they do not. *)
Theorem mount_opens_the_newest_chat (w : World) :
  (forall e, verdict 0 w = Some e ->
     view (exec mount w) = initial_view
     /\ requests (exec mount w) = requests w ++ [SelectChatSessions]
     /\ console (exec mount w) = console w ++ [("Error loading sessions:", e)])
  /\ (verdict 0 w = None ->
      Db.listSessions (uid w) (db w) = [] ->
      view (exec mount w) = initial_view
      /\ requests (exec mount w) = requests w ++ [SelectChatSessions])
  /\ (verdict 0 w = None ->
      forall first rest,
        Db.listSessions (uid w) (db w) = first :: rest ->
        sessions (view (exec mount w)) = first :: rest
        /\ currentSession (view (exec mount w)) = Some first
        /\ requests (exec mount w)
           = requests w ++ [SelectChatSessions; SelectMessages (cs_id first)]
        /\ (verdict 1 w = None ->
            messages (view (exec mount w))
            = Db.listMessages (uid w) (cs_id first) (db w))
        /\ (verdict 1 w <> None -> messages (view (exec mount w)) = [])).
Proof.
  unfold exec, mount, bind. cbv beta iota.
  split; [| split].
  - intros e H0.
    pose proof (loadSessions_rejected (with_view initial_view w) e H0) as E.
    unfold exec in E. destruct (loadSessions _) as [[] w1].
    cbn [snd] in E. subst w1.
    cbn [with_view initial_view view db uid clock tape requests console
         sessions currentSession messages input loading].
    rewrite rerender_same by reflexivity. now repeat split.
  - intros H0 Hnone.
    pose proof (loadSessions_let_through (with_view initial_view w) H0) as E.
    unfold exec in E. destruct (loadSessions _) as [[] w1].
    cbn [snd] in E. subst w1.
    cbn [with_view initial_view view db uid clock tape requests console
         sessions currentSession messages input loading].
    rewrite Hnone. cbn [hd_error].
    rewrite rerender_same by reflexivity. now repeat split.
  - intros H0 first rest Hlist.
    pose proof (loadSessions_let_through (with_view initial_view w) H0) as E.
    unfold exec in E. destruct (loadSessions _) as [[] w1].
    cbn [snd] in E. subst w1.
    cbn [with_view initial_view view db uid clock tape requests console
         sessions currentSession messages input loading].
    rewrite Hlist. cbn [hd_error].
    rewrite (rerender_changed _ _ first) by (fields; easy).
    destruct (verdict 1 w) as [e|] eqn:H1.
    + rewrite loadMessages_rejected with (e := e)
        by (unfold verdict; fields; now rewrite nth_tl).
      cbn [snd]. fields. rewrite <- app_assoc.
      do 3 (split; [reflexivity |]).
      split; [intros H; discriminate H | reflexivity].
    + rewrite loadMessages_let_through
        by (unfold verdict; fields; now rewrite nth_tl).
      cbn [snd]. fields. rewrite <- app_assoc.
      do 3 (split; [reflexivity |]).
      split; [reflexivity | intros H; now contradiction H].
Qed.

Lemma mount_opens_the_newest_chat_witness :
  currentSession (view (exec mount (surgery "" []))) = Some surgery_session.
Proof.
  destruct (mount_opens_the_newest_chat (surgery "" [])) as (_ & _ & H).
  destruct (H eq_refl surgery_session [] eq_refl) as (_ & Hsel & _).
  exact Hsel.
Defined.

(* ================================================================= *)
(** ** The send button, the Enter key and the guard *)

Lemma app_grows (A : Type) (l more : list A) :
  more <> [] -> l ++ more <> l.
Proof.
  intros Hne E. apply Hne. apply (app_inv_head l). now rewrite app_nil_r.
Qed.

Lemma send_goes_iff_guard (w : World) :
  requests (exec sendMessage w) <> requests w
  <-> currentSession (view w) <> None
      /\ loading (view w) = false
      /\ Js.trim (input (view w)) <> "".
Proof.
  pose proof (sendMessage_runs w) as Hrun.
  remember (exec sendMessage w) as w' eqn:Ew. clear Ew.
  destruct Hrun as [Hguard | cur e Hcur Hld Hin Herr | cur Hcur Hld Hin H0 Hown].
  - split; [intros H; now contradiction H |].
    intros (H1 & H2 & H3). destruct Hguard as [H | [H | H]]; congruence.
  - cbn [requests]. split.
    + intros _. rewrite Hcur. now repeat split.
    + intros _. now apply app_grows.
  - cbn [requests]. split.
    + intros _. rewrite Hcur. now repeat split.
    + intros _. now apply app_grows.
Qed.

(** The send button is shown and enabled exactly when a send goes past
    the guard, which is exactly when a session is selected, no exchange is
    in flight and the input holds a unit that is not whitespace.  Enter
    without Shift is a send whose default action is always suppressed,
    also when the guard stops it; any other key changes nothing. *)
Theorem send_button_tells_whether_send_goes (w : World) :
  (requests (exec sendMessage w) <> requests w
   <-> exists b, send_button (view w) = Some b /\ disabled b = false)
  /\ (requests (exec sendMessage w) <> requests w
      <-> currentSession (view w) <> None
          /\ loading (view w) = false
          /\ blank (input (view w)) = false)
  /\ forall e,
       (fst (handleKeyPress e w) = true
        <-> key e = "Enter" /\ shiftKey e = false)
       /\ snd (handleKeyPress e w)
          = if fst (handleKeyPress e w) then exec sendMessage w else w.
Proof.
  split; [| split].
  - rewrite send_goes_iff_guard. unfold send_button.
    destruct (currentSession (view w)) as [cur|]; cbn [disabled].
    + split.
      * intros (_ & Hld & Hin). eexists. split; [reflexivity |].
        cbn [disabled]. rewrite Hld.
        destruct (Js.trim (input (view w))); [contradiction | reflexivity].
      * intros (b & [= <-] & Hb). cbn [disabled] in Hb.
        apply orb_false_iff in Hb as [Hld Hin].
        split; [discriminate |]. split; [exact Hld |].
        intros E. rewrite E in Hin. discriminate Hin.
    + split; [intros (H & _); now contradiction H |].
      intros (b & Hb & _). discriminate Hb.
  - rewrite send_goes_iff_guard.
    assert (Hb : Js.trim (input (view w)) <> ""
                 <-> blank (input (view w)) = false).
    { rewrite trim_blank. now destruct (blank (input (view w))). }
    now rewrite Hb.
  - intros e. unfold handleKeyPress, bind, ret, exec.
    destruct (String.eqb_spec (key e) "Enter") as [Hk|Hk];
      destruct (shiftKey e); cbn [andb negb fst snd].
    + split; [split; [intros H; discriminate H | intros [_ H]; discriminate H]
             | reflexivity].
    + destruct (sendMessage w) as [[] w1]. cbn [fst snd].
      split; [split; [now intros _ | reflexivity] | reflexivity].
    + split; [split; [intros H; discriminate H | intros [H _]; contradiction]
             | reflexivity].
    + split; [split; [intros H; discriminate H | intros [H _]; contradiction]
             | reflexivity].
Qed.

(* ================================================================= *)
(** ** Keys of the lists the store returns *)

Lemma exec_bind (A B : Type) (m : Task A) (k : A -> Task B) (w : World) :
  exec (bind m k) w = exec (k (fst (m w))) (snd (m w)).
Proof. unfold exec, bind. now destruct (m w). Qed.

Lemma listMessages_NoDup (u sid : uuid) (d : Db.t) :
  db_consistent d -> NoDup (map m_id (Db.listMessages u sid d)).
Proof.
  intros (_ & Hm & _). unfold Db.listMessages.
  now apply NoDup_map_order_by, NoDup_map_filter.
Qed.

Lemma listSessions_NoDup (u : uuid) (d : Db.t) :
  db_consistent d -> NoDup (map cs_id (Db.listSessions u d)).
Proof.
  intros (Hs & _). unfold Db.listSessions.
  now apply NoDup_map_order_by, NoDup_map_filter.
Qed.

Lemma owned_id_is_old (d : Db.t) (u sid : uuid) :
  db_consistent d -> Db.owns_session d u sid = true -> sid < Db.next_uuid d.
Proof.
  intros (_ & _ & Hsl & _) Hown.
  apply owns_session_In in Hown as (s & Hs & <- & _).
  rewrite Forall_forall in Hsl. now apply Hsl.
Qed.

Lemma owns_session_more (d : Db.t) (u sid : uuid) (row : ChatSession) us ms n t :
  Db.owns_session d u sid = true ->
  Db.owns_session (Db.mk us (Db.chat_sessions d ++ [row]) ms n t) u sid = true.
Proof.
  unfold Db.owns_session. cbn [Db.chat_sessions]. intros H.
  now rewrite existsb_app, H.
Qed.

Lemma createNewSession_outcomes (w : World) :
  (view (exec createNewSession w) = view w
   /\ db (exec createNewSession w) = db w
   /\ uid (exec createNewSession w) = uid w
   /\ tape (exec createNewSession w) = tl (tape w))
  \/ (verdict 0 w = None /\ In (uid w) (Db.users (db w))).
Proof.
  destruct (verdict 0 w) as [e|] eqn:H0.
  - left. unfold exec, createNewSession, bind, closure, insert_chat_session.
    rewrite await_rejected with (e := e) by exact H0. now repeat split.
  - destruct (existsb (Nat.eqb (uid w)) (Db.users (db w))) eqn:E.
    + right. split; [reflexivity |].
      apply existsb_exists in E as (x & Hx & Ex).
      apply Nat.eqb_eq in Ex. now subst x.
    + left. unfold exec, createNewSession, bind, closure, insert_chat_session.
      rewrite await_let_through by exact H0.
      unfold Db.createSession. rewrite Nat.eqb_refl, E. now repeat split.
Qed.

Lemma one_item_matches (c : ChatSession) (l : list ChatSession) :
  NoDup (map cs_id l) -> In c l ->
  List.length (filter (fun s => cs_id c =? cs_id s) l) = 1.
Proof.
  induction l as [|x l IH]; [intros _ [] |].
  cbn [map filter]. intros Hnd Hin. inversion Hnd as [|? ? Hx Hl]; subst.
  destruct Hin as [-> | Hin].
  - rewrite Nat.eqb_refl. cbn [List.length]. f_equal.
    destruct (filter (fun s => cs_id c =? cs_id s) l) as [|y rest] eqn:E;
      [reflexivity |].
    exfalso. apply Hx.
    assert (Hy : In y (filter (fun s => cs_id c =? cs_id s) l))
      by (rewrite E; now left).
    apply filter_In in Hy as [Hy Hid]. apply Nat.eqb_eq in Hid.
    rewrite Hid. now apply in_map.
  - destruct (Nat.eqb_spec (cs_id c) (cs_id x)) as [Hid|_]; [| now apply IH].
    exfalso. apply Hx. rewrite <- Hid. now apply in_map.
Qed.

(* ================================================================= *)
(** ** Signing in *)

Lemma useAuth_step_unmounted (evs : list AuthEvent) (st : AuthState) :
  auth_mounted st = false -> fold_left useAuth_step evs st = st.
Proof.
  intros H. induction evs as [|ev evs IH]; [reflexivity |].
  cbn [fold_left]. unfold useAuth_step at 2. now rewrite H.
Qed.

Lemma useAuth_loading_stays_off (evs : list AuthEvent) (st : AuthState) :
  auth_loading st = false ->
  auth_loading (fold_left useAuth_step evs st) = false.
Proof.
  revert st. induction evs as [|ev evs IH]; intros st H; [exact H |].
  cbn [fold_left]. apply IH. unfold useAuth_step.
  destruct (auth_mounted st); [| exact H]. now destruct ev.
Qed.

Lemma useAuth_waits_for_resolution (evs : list AuthEvent) (st : AuthState) :
  auth_loading st = true -> auth_mounted st = true ->
  existsb is_resolution evs = false -> existsb is_unmount evs = false ->
  auth_loading (fold_left useAuth_step evs st) = true
  /\ auth_mounted (fold_left useAuth_step evs st) = true.
Proof.
  revert st. induction evs as [|ev evs IH]; intros st Hl Hm Hr Hu;
    [now split |].
  cbn [existsb] in Hr, Hu.
  apply orb_false_iff in Hr as [Hr1 Hr2]. apply orb_false_iff in Hu as [Hu1 Hu2].
  cbn [fold_left]. apply IH; try assumption;
    unfold useAuth_step; rewrite Hm; destruct ev; try discriminate;
    assumption || reflexivity.
Qed.

Lemma useAuth_step_mounted (st : AuthState) (ev : AuthEvent) :
  auth_mounted st = true ->
  useAuth_step st ev
  = match ev with
    | SessionResolved session => mkAuthState (user_or_null session) false true
    | AuthStateChange session =>
        mkAuthState (user_or_null session) (auth_loading st) true
    | Unmount => mkAuthState (auth_user st) (auth_loading st) false
    end.
Proof. unfold useAuth_step. now intros ->. Qed.

(** [App] shows the loading screen from the mount until [getSession] has
    answered, whatever the subscription reports meanwhile, and never
    again afterwards. *)
Theorem loading_screen_until_the_session_resolves
    (before after : list AuthEvent) (session : option AuthSession) :
  existsb is_resolution before = false ->
  existsb is_unmount before = false ->
  App (useAuth_after before) = LoadingScreen
  /\ App (useAuth_after (before ++ SessionResolved session :: after))
     <> LoadingScreen.
Proof.
  intros Hr Hu. unfold useAuth_after.
  destruct (useAuth_waits_for_resolution before useAuth_initial
              eq_refl eq_refl Hr Hu) as [Hl Hm].
  split.
  - unfold App. now rewrite Hl.
  - rewrite fold_left_app. cbn [fold_left].
    unfold App. rewrite useAuth_loading_stays_off.
    + now destruct (auth_user _).
    + now rewrite useAuth_step_mounted.
Qed.

Lemma loading_screen_until_the_session_resolves_witness :
  App (useAuth_after
         [AuthStateChange (Some (mkAuthSession (mkSupabaseUser 7 "a@b.c")))])
  = LoadingScreen.
Proof.
  refine (proj1 (loading_screen_until_the_session_resolves
                   [AuthStateChange
                      (Some (mkAuthSession (mkSupabaseUser 7 "a@b.c")))]
                   [] None eq_refl eq_refl)).
Defined.

Lemma useAuth_stays_mounted (evs : list AuthEvent) (st : AuthState) :
  auth_mounted st = true -> existsb is_unmount evs = false ->
  auth_mounted (fold_left useAuth_step evs st) = true.
Proof.
  revert st. induction evs as [|ev evs IH]; intros st Hst Hu; [exact Hst |].
  cbn [existsb] in Hu. apply orb_false_iff in Hu as [Hu1 Hu2].
  cbn [fold_left]. apply IH; [| exact Hu2].
  unfold useAuth_step. rewrite Hst. now destruct ev.
Qed.

Lemma useAuth_resolved (evs : list AuthEvent) (st : AuthState) :
  auth_mounted st = true -> existsb is_unmount evs = false ->
  existsb is_resolution evs = true ->
  auth_loading (fold_left useAuth_step evs st) = false.
Proof.
  revert st. induction evs as [|ev evs IH]; intros st Hst Hu Hr;
    [discriminate Hr |].
  cbn [existsb] in Hu, Hr. apply orb_false_iff in Hu as [Hu1 Hu2].
  cbn [fold_left].
  destruct ev as [session | session |]; try discriminate Hu1.
  - apply useAuth_loading_stays_off. unfold useAuth_step. now rewrite Hst.
  - apply IH; [| exact Hu2 | exact Hr].
    unfold useAuth_step. now rewrite Hst.
Qed.

(** Once [getSession] has answered, the screen follows the report that
    came last, be it the answer of [getSession] or a call of the
    subscription: the chat of the reported user, or the sign-in form when
    the report carries no session.  An answer of [getSession] that comes
    after a report of the subscription overrides it. *)
Theorem screen_follows_the_last_report
    (before : list AuthEvent) (session : option AuthSession) :
  existsb is_unmount before = false ->
  (App (useAuth_after (before ++ [SessionResolved session]))
   = match session with
     | Some s => ChatScreen (session_user s)
     | None => AuthScreen
     end)
  /\ (existsb is_resolution before = true ->
      App (useAuth_after (before ++ [AuthStateChange session]))
      = match session with
        | Some s => ChatScreen (session_user s)
        | None => AuthScreen
        end).
Proof.
  intros Hu. unfold useAuth_after. rewrite !fold_left_app. cbn [fold_left].
  pose proof (useAuth_stays_mounted before useAuth_initial eq_refl Hu) as Hm.
  split.
  - rewrite useAuth_step_mounted by exact Hm.
    unfold App. cbn [auth_loading auth_user]. now destruct session.
  - intros Hr.
    pose proof (useAuth_resolved before useAuth_initial eq_refl Hu Hr) as Hl.
    rewrite useAuth_step_mounted by exact Hm.
    unfold App. cbn [auth_loading auth_user]. rewrite Hl. now destruct session.
Qed.

Lemma screen_follows_the_last_report_witness :
  App (useAuth_after
         [AuthStateChange (Some (mkAuthSession (mkSupabaseUser 7 "a@b.c")));
          SessionResolved None])
  = AuthScreen.
Proof.
  refine (proj1 (screen_follows_the_last_report
                   [AuthStateChange
                      (Some (mkAuthSession (mkSupabaseUser 7 "a@b.c")))]
                   None eq_refl)).
Defined.

(* ================================================================= *)
(** ** What a send stores *)

Lemma trim_ends (s : string) :
  (forall c, first_unit (Js.trim s) = Some c -> Js.isWhiteSpace c = false)
  /\ (forall c, last_unit (Js.trim s) = Some c -> Js.isWhiteSpace c = false).
Proof.
  unfold Js.trim. split.
  - intros c Hc. destruct (Js.trimEnd (Js.trimStart s)) eqn:E;
      [discriminate Hc |].
    rewrite <- E in Hc. rewrite trimEnd_first in Hc by (rewrite E; discriminate).
    now apply (trimStart_first s).
  - apply trimEnd_last.
Qed.

(** Every row a send adds belongs to the selected session.  A [user] row
    holds the typed text without the whitespace around it: it is not
    empty, neither starts nor ends with whitespace, and the typed text is
    that content between two runs of whitespace.  An [assistant] row
    holds the selector's answer to the typed text, one of the five canned
    strings. *)
Theorem send_stores_trimmed_text_and_its_answer (w : World) :
  exists added,
    Db.messages (db (exec sendMessage w)) = Db.messages (db w) ++ added
    /\ Forall
         (fun m =>
            (exists cur, currentSession (view w) = Some cur
                         /\ m_session_id m = cs_id cur)
            /\ match m_role m with
               | user =>
                   m_content m = Js.trim (input (view w))
                   /\ m_content m <> ""
                   /\ (forall c, first_unit (m_content m) = Some c ->
                                 Js.isWhiteSpace c = false)
                   /\ (forall c, last_unit (m_content m) = Some c ->
                                 Js.isWhiteSpace c = false)
                   /\ exists pre post,
                        input (view w) = (pre ++ m_content m ++ post)%string
                        /\ blank pre = true /\ blank post = true
               | assistant =>
                   m_content m = generateMedicalResponse (input (view w))
                   /\ In (m_content m) canned_responses
               end)
         added.
Proof.
  pose proof (sendMessage_runs w) as Hrun.
  remember (exec sendMessage w) as w' eqn:Ew. clear Ew.
  destruct Hrun as [Hguard | cur e Hcur Hld Hin Herr | cur Hcur Hld Hin H0 Hown].
  - exists []. now rewrite app_nil_r.
  - exists []. cbn [db]. now rewrite app_nil_r.
  - cbn [db]. destruct (after_touch_messages w cur) as (Em & _).
    rewrite Em, after_assistant_owned by assumption. cbn [Db.messages].
    eexists. split; [reflexivity |].
    assert (Hu : (exists c, currentSession (view w) = Some c
                            /\ m_session_id (user_turn w cur) = cs_id c)
                 /\ m_content (user_turn w cur) = Js.trim (input (view w))
                 /\ m_content (user_turn w cur) <> ""
                 /\ (forall c, first_unit (m_content (user_turn w cur)) = Some c
                               -> Js.isWhiteSpace c = false)
                 /\ (forall c, last_unit (m_content (user_turn w cur)) = Some c
                               -> Js.isWhiteSpace c = false)
                 /\ exists pre post,
                      input (view w)
                      = (pre ++ m_content (user_turn w cur) ++ post)%string
                      /\ blank pre = true /\ blank post = true).
    { cbn [user_turn m_content m_session_id].
      destruct (trim_ends (input (view w))) as [Hf Hl].
      split; [now exists cur |]. split; [reflexivity |].
      split; [exact Hin |]. split; [exact Hf |]. split; [exact Hl |].
      apply trim_spec. }
    constructor; [exact Hu |].
    destruct (verdict 2 w); constructor; [| constructor].
    cbn [assistant_turn m_role m_content m_session_id].
    split; [now exists cur |].
    rewrite generateMedicalResponse_trim.
    split; [reflexivity | apply generateMedicalResponse_canned].
Qed.

(* ================================================================= *)
(** ** Which sessions the sidebar lists *)

Lemma createNewSession_succeeds_iff (w : World) :
  sessions (view (exec createNewSession w)) <> sessions (view w)
  <-> verdict 0 w = None /\ In (uid w) (Db.users (db w)).
Proof.
  destruct (createNewSession_outcomes w) as [(Ev & _) | [H0 Hu]].
  - rewrite Ev. split; [intros H; now contradiction H |].
    intros [H0 Hu]. pose proof (createNewSession_let_through w H0 Hu) as E.
    rewrite E in Ev. cbn [view] in Ev.
    apply (f_equal sessions) in Ev. cbn [sessions] in Ev.
    apply (f_equal (@List.length _)) in Ev. cbn [List.length] in Ev. lia.
  - split; [now intros _ |]. intros _.
    rewrite (createNewSession_let_through w H0 Hu). fields.
    intros E. apply (f_equal (@List.length _)) in E.
    cbn [List.length] in E. lia.
Qed.

(** A new session is refused only when the request itself fails or the
    user has no row in the users table; the row-level policy never stands
    in the way, because the handler always writes the signed-in user as
    the owner.  For a user without such a row the store reports the
    foreign key, which is logged, and nothing is written. *)
Theorem new_session_is_refused_only_for_transport_or_unknown_user (w : World) :
  (sessions (view (exec createNewSession w)) <> sessions (view w)
   <-> verdict 0 w = None /\ In (uid w) (Db.users (db w)))
  /\ (verdict 0 w = None -> ~ In (uid w) (Db.users (db w)) ->
      console (exec createNewSession w)
      = console w ++ [("Error creating session:", ForeignKey)]
      /\ db (exec createNewSession w) = db w
      /\ view (exec createNewSession w) = view w).
Proof.
  split; [apply createNewSession_succeeds_iff |].
  intros H0 Hu.
  unfold exec, createNewSession, bind, closure, insert_chat_session.
  rewrite await_let_through by exact H0.
  unfold Db.createSession. rewrite Nat.eqb_refl. cbn [negb].
  destruct (existsb (Nat.eqb (uid w)) (Db.users (db w))) eqn:E.
  - exfalso. apply Hu. apply existsb_exists in E as (x & Hx & Ex).
    apply Nat.eqb_eq in Ex. now subst x.
  - now repeat split.
Qed.

Lemma new_session_is_refused_only_for_transport_or_unknown_user_witness :
  console (exec createNewSession
             (mkWorld initial_view surgery_db 8 50 [] [] []))
  = [("Error creating session:", ForeignKey)].
Proof.
  refine (proj1 (proj2 (new_session_is_refused_only_for_transport_or_unknown_user
                          (mkWorld initial_view surgery_db 8 50 [] [] []))
                       eq_refl _)).
  simpl. intros [H|[]]. discriminate H.
Defined.
(* ================================================================= *)
(** ** Any schedule of clicks, requests and answers *)

Ltac page_fields :=
  cbn [update fetch pick world pending picked exec snd fst bind ret
       setSessions setCurrentSession setMessages setInput setLoading
       console_error record_request with_view with_db
       view db uid clock tape requests console
       sessions currentSession messages input loading] in *.

Lemma grown_refl (u : uuid) (d : Db.t) : grown u d d.
Proof.
  split; [now intros sid H |]. intros sid. exists []. now rewrite app_nil_r.
Qed.

Lemma grown_createSession (u : uuid) (d : Db.t) title :
  db_consistent d ->
  grown u d (snd (Db.createSession u u title d)).
Proof.
  intros Hdb. unfold Db.createSession. rewrite Nat.eqb_refl. cbn [negb].
  destruct (existsb (Nat.eqb u) (Db.users d)); cbn [negb snd];
    [| apply grown_refl].
  split.
  - intros sid H. now apply owns_session_more.
  - intros sid. exists []. rewrite app_nil_r.
    unfold Db.listMessages. cbn [Db.messages]. f_equal.
    apply filter_ext_in. intros m Hm.
    destruct (m_session_id m =? sid); [| reflexivity]. cbn [andb].
    unfold Db.owns_session. cbn [Db.chat_sessions].
    rewrite existsb_app. cbn [existsb cs_id cs_user_id].
    destruct Hdb as (_ & _ & Hsl & _ & _ & Href).
    rewrite Forall_forall in Href. specialize (Href m Hm).
    apply in_map_iff in Href as (s & Hs & Hin).
    rewrite Forall_forall in Hsl. specialize (Hsl s Hin).
    assert (E : (Db.next_uuid d =? m_session_id m) = false)
      by (apply Nat.eqb_neq; lia).
    rewrite E. cbn [andb orb]. now rewrite orb_false_r.
Qed.

Lemma grown_appendMessage (u : uuid) (d : Db.t) (sid : uuid) role content :
  Db.stamped d ->
  grown u d (snd (Db.appendMessage u sid role content d)).
Proof.
  intros Hst.
  destruct (Db.owns_session d u sid) eqn:Hown.
  - rewrite appendMessage_owned by exact Hown. cbn [snd].
    split.
    + intros sid' H. erewrite owns_session_chat_sessions; [exact H | reflexivity].
    + intros sid'. destruct (Nat.eq_dec sid' sid) as [-> | Hne].
      * eexists. now apply listMessages_appended.
      * exists []. rewrite app_nil_r.
        apply listMessages_frame
          with (added := [mkMessage (Db.next_uuid d) sid role content
                                    (Db.now d)]);
          try reflexivity.
        constructor; [| constructor]. cbn [m_session_id]. congruence.
  - rewrite appendMessage_denied by exact Hown. apply grown_refl.
Qed.

Lemma grown_touchSession (u : uuid) (d : Db.t) (sid : uuid) t :
  grown u d (snd (Db.touchSession u sid t d)).
Proof.
  assert (Hid : map cs_id (Db.chat_sessions (snd (Db.touchSession u sid t d)))
                = map cs_id (Db.chat_sessions d))
    by (apply (touched_map _ cs_id); reflexivity).
  assert (Hu : map cs_user_id
                 (Db.chat_sessions (snd (Db.touchSession u sid t d)))
               = map cs_user_id (Db.chat_sessions d))
    by (apply (touched_map _ cs_user_id); reflexivity).
  split.
  - intros sid' H. now rewrite (owns_session_keys d _ u sid' Hid Hu).
  - intros sid'. exists []. rewrite app_nil_r.
    apply listMessages_frame with (added := []); try assumption.
    + cbn [Db.touchSession snd Db.messages]. now rewrite app_nil_r.
    + constructor.
Qed.

Lemma sessions_sound_grown (u : uuid) (d d' : Db.t) (l : list ChatSession) :
  grown u d d' -> sessions_sound d u l -> sessions_sound d' u l.
Proof.
  intros [Hown _] [Hnd Hall]. split; [exact Hnd |].
  eapply Forall_impl; [| exact Hall]. intros s. apply Hown.
Qed.

Lemma conversation_prefix_grown (u : uuid) (d d' : Db.t) (l : list Message) :
  grown u d d' -> conversation_prefix d u l -> conversation_prefix d' u l.
Proof.
  intros [_ Hmore] (sid & rest & E).
  destruct (Hmore sid) as [more E']. exists sid, (rest ++ more).
  now rewrite E', E, app_assoc.
Qed.

Lemma conversation_prefix_nil (u : uuid) (d : Db.t) :
  conversation_prefix d u [].
Proof. now exists 0, (Db.listMessages u 0 d). Qed.

Lemma sessions_sound_nil (u : uuid) (d : Db.t) : sessions_sound d u [].
Proof. split; constructor. Qed.

Lemma pending_sound_grown (u : uuid) (d d' : Db.t) (h : Pending) :
  grown u d d' -> pending_sound d u h -> pending_sound d' u h.
Proof.
  intros Hg. destruct h as [[r|] | sid c [r|] | held a | | |];
    cbn [pending_sound]; try tauto.
  - now apply sessions_sound_grown.
  - now apply conversation_prefix_grown.
  - intros [Hheld Hrow]. split; [now apply (sessions_sound_grown u d) |].
    intros r row Ha Hd. destruct (Hrow r row Ha Hd) as [Hown Hnew].
    split; [| exact Hnew]. now apply (proj1 Hg).
Qed.

Lemma listSessions_sound (u : uuid) (d : Db.t) :
  db_consistent d -> sessions_sound d u (Db.listSessions u d).
Proof.
  intros Hdb. split; [now apply listSessions_NoDup |].
  apply Forall_forall. intros s Hs.
  apply listSessions_In in Hs as [Hin <-]. now apply In_owns_session.
Qed.

(** The store's answer is sound in the store it leaves, and that store
    is the old one grown. *)
Lemma serve_sound (u : uuid) (h : Pending) (d : Db.t) :
  db_consistent d -> Db.stamped d -> pending_sound d u h ->
  db_consistent (snd (serve u h d))
  /\ Db.stamped (snd (serve u h d))
  /\ grown u d (snd (serve u h d))
  /\ pending_sound (snd (serve u h d)) u (fst (serve u h d)).
Proof.
  intros Hdb Hst Hh.
  destruct h as [[r|] | sid c [r|] | held [r|] | cur um [r|] | cur ar [r|]
                 | cur date [r|]];
    cbn [serve fst snd];
    try (split; [exact Hdb | split; [exact Hst | split;
           [apply grown_refl | exact Hh]]]).
  - (* the session list *)
    split; [exact Hdb | split; [exact Hst | split; [apply grown_refl |]]].
    apply (listSessions_sound u d Hdb).
  - (* a message list *)
    split; [exact Hdb | split; [exact Hst | split; [apply grown_refl |]]].
    cbn [pending_sound data fulfilled or_empty].
    exists sid, []. now rewrite app_nil_r.
  - (* a new session *)
    pose proof (consistent_createSession d u u "New Chat" Hdb) as Hdb'.
    pose proof (stamped_createSession d u u "New Chat" Hst) as Hst'.
    pose proof (grown_createSession u d "New Chat" Hdb) as Hg.
    destruct Hh as [Hheld _].
    assert (Hrow : forall r row,
               fst (Db.createSession u u "New Chat" d) = r ->
               data r = Some row ->
               Db.owns_session (snd (Db.createSession u u "New Chat" d)) u
                               (cs_id row) = true
               /\ ~ In (cs_id row) (map cs_id held)).
    { intros r row <-. unfold Db.createSession. rewrite Nat.eqb_refl.
      cbn [negb].
      destruct (existsb (Nat.eqb u) (Db.users d)); cbn [negb fst snd data];
        [| discriminate].
      intros [= <-]. cbn [cs_id]. split.
      - unfold Db.owns_session. cbn [Db.chat_sessions].
        rewrite existsb_app. cbn [existsb cs_id cs_user_id].
        now rewrite !Nat.eqb_refl, orb_true_r.
      - intros Hin. apply in_map_iff in Hin as (s & Hid & Hs).
        destruct Hheld as [_ Hall]. rewrite Forall_forall in Hall.
        pose proof (owned_id_is_old d u (cs_id s) Hdb (Hall s Hs)). lia. }
    destruct (Db.createSession u u "New Chat" d) as [r d'].
    cbn [fst snd] in *.
    split; [exact Hdb' | split; [exact Hst' | split; [exact Hg |]]].
    split; [now apply (sessions_sound_grown u d) |].
    intros r0 row [= <-] Hd. now apply (Hrow r).
  - (* the user row *)
    pose proof (consistent_appendMessage d u (cs_id cur) user um Hdb).
    pose proof (stamped_appendMessage d u (cs_id cur) user um Hst).
    pose proof (grown_appendMessage u d (cs_id cur) user um Hst).
    destruct (Db.appendMessage u (cs_id cur) user um d).
    cbn [fst snd pending_sound] in *. tauto.
  - (* the assistant row *)
    pose proof (consistent_appendMessage d u (cs_id cur) assistant ar Hdb).
    pose proof (stamped_appendMessage d u (cs_id cur) assistant ar Hst).
    pose proof (grown_appendMessage u d (cs_id cur) assistant ar Hst).
    destruct (Db.appendMessage u (cs_id cur) assistant ar d).
    cbn [fst snd pending_sound] in *. tauto.
  - (* the touch *)
    pose proof (consistent_touchSession d u (cs_id cur) date Hdb).
    pose proof (stamped_touchSession d u (cs_id cur) date Hst).
    pose proof (grown_touchSession u d (cs_id cur) date).
    destruct (Db.touchSession u (cs_id cur) date d).
    cbn [fst snd pending_sound] in *. tauto.
Qed.

Lemma lose_sound (u : uuid) (d : Db.t) (e : PostgrestError) (h : Pending) :
  pending_sound d u h -> pending_sound d u (lose e h).
Proof.
  destruct h; cbn [lose pending_sound data rejected or_empty]; try tauto.
  - intros _. apply sessions_sound_nil.
  - intros _. apply conversation_prefix_nil.
  - intros [Hheld _]. split; [exact Hheld |]. intros r row [= <-]. discriminate.
Qed.

Lemma Forall_firstn (A : Type) (P : A -> Prop) (i : nat) (l : list A) :
  Forall P l -> Forall P (firstn i l).
Proof.
  intros Hl. revert i. induction Hl as [|x l Hx Hl IH]; intros [|i];
    cbn [firstn]; constructor; auto.
Qed.

Lemma Forall_skipn (A : Type) (P : A -> Prop) (i : nat) (l : list A) :
  Forall P l -> Forall P (skipn i l).
Proof.
  intros Hl. revert i. induction Hl as [|x l Hx Hl IH]; intros [|i];
    cbn [skipn]; auto.
Qed.

Lemma Forall_put (A : Type) (P : A -> Prop) (i : nat) (x : A) (l : list A) :
  Forall P l -> P x -> Forall P (put i x l).
Proof.
  intros Hl Hx. unfold put. apply Forall_app. split.
  - now apply Forall_firstn.
  - constructor; [exact Hx | now apply Forall_skipn].
Qed.

Lemma Forall_drop (A : Type) (P : A -> Prop) (i : nat) (l : list A) :
  Forall P l -> Forall P (drop i l).
Proof.
  intros Hl. unfold drop. apply Forall_app. split.
  - now apply Forall_firstn.
  - now apply Forall_skipn.
Qed.

Lemma Forall_nth_error (A : Type) (P : A -> Prop) (i : nat) (x : A)
    (l : list A) :
  Forall P l -> nth_error l i = Some x -> P x.
Proof.
  intros Hl Hx. rewrite Forall_forall in Hl. apply Hl.
  now apply nth_error_In with (n := i).
Qed.

Ltac sound_parts :=
  split; [| split; [| split; [| split; [| split; [| split]]]]].

Lemma fetch_sound (rq : Request) (h : Pending) (p : Page) :
  page_sound p -> pending_sound (db (world p)) (uid (world p)) h ->
  page_sound (fetch rq h p).
Proof.
  intros (Hdb & Hst & Hss & Hms & Hsel & Hcs & Hpd) Hh.
  unfold page_sound. page_fields. sound_parts; try assumption.
  apply Forall_app. split; [exact Hpd | now constructor].
Qed.

Lemma selection_effect_sound (p : Page) :
  page_sound p -> page_sound (selection_effect p).
Proof.
  intros Hp. unfold selection_effect.
  destruct (currentSession (view (world p))); [| exact Hp].
  now apply fetch_sound.
Qed.

Lemma begin_sendMessage_sound (p : Page) :
  page_sound p -> page_sound (begin_sendMessage p).
Proof.
  intros Hp. unfold begin_sendMessage. cbv zeta.
  destruct (currentSession (view (world p))) as [cur|] eqn:Hcur; [| exact Hp].
  destruct (negb (Js.truthy (Js.trim (input (view (world p)))))
            || loading (view (world p))); [exact Hp |].
  apply fetch_sound; [| exact I].
  destruct Hp as (Hdb & Hst & Hss & Hms & Hsel & Hcs & Hpd).
  unfold page_sound. page_fields. sound_parts; try assumption.
  all: try (destruct (picked p); page_fields; exact Hsel).
Qed.

Lemma resume_sound (h : Pending) (p : Page) :
  page_sound p -> pending_sound (db (world p)) (uid (world p)) h ->
  page_sound (resume h p).
Proof.
  intros Hp Hh.
  pose proof Hp as (Hdb & Hst & Hss & Hms & Hsel & Hcs & Hpd).
  destruct h as [[r|] | sid c [r|] | held [r|] | cur um [r|] | cur ar [r|]
                 | cur date [r|]];
    cbn [resume]; try exact Hp.
  - (* lines 38-46 *)
    cbn [pending_sound] in Hh.
    destruct (error r) as [e|].
    { unfold page_sound. page_fields. now sound_parts. }
    cbv zeta.
    destruct (data r) as [[|first rest]|]; cbn [or_empty] in Hh.
    + unfold page_sound. page_fields. sound_parts; try assumption.
      now right.
    + apply selection_effect_sound.
      unfold page_sound. page_fields. sound_parts; try assumption.
      * now exists first.
      * intros c [= <-]. destruct Hh as [_ Hall].
        now inversion Hall.
    + unfold page_sound. page_fields. sound_parts; try assumption.
      now right.
  - (* lines 56-61 and what the caller does next *)
    cbn [pending_sound] in Hh. cbv zeta.
    assert (Hp' : page_sound
                    match error r with
                    | Some e =>
                        update (console_error "Error loading messages:" e) p
                    | None => update (setMessages (or_empty (data r))) p
                    end).
    { destruct (error r) as [e|];
        unfold page_sound; page_fields; sound_parts; try assumption;
        try (destruct (picked p); page_fields; exact Hsel). }
    destruct c as [| cur um | cur]; [exact Hp' | |];
      (apply fetch_sound; [exact Hp' | exact I]).
  - (* lines 76-85 *)
    destruct Hh as [Hheld Hrow].
    destruct (error r) as [e|].
    { unfold page_sound. page_fields. now sound_parts. }
    destruct (data r) as [row|] eqn:Hd; [| exact Hp].
    destruct (Hrow r row eq_refl Hd) as [Hown Hnew].
    apply selection_effect_sound.
    unfold page_sound. page_fields. sound_parts; try assumption.
    + destruct Hheld as [Hnd Hall]. split.
      * cbn [map]. now constructor.
      * now constructor.
    + apply conversation_prefix_nil.
    + now exists row.
    + now intros c [= <-].
  - (* lines 103-109 *)
    destruct (error r) as [e|].
    + unfold page_sound. page_fields. sound_parts; try assumption.
      all: try (destruct (picked p); page_fields; exact Hsel).
    + now apply fetch_sound.
  - (* lines 121-125 *)
    cbv zeta. apply fetch_sound; [| exact I].
    destruct (error r) as [e|]; [| exact Hp].
    unfold page_sound. page_fields. now sound_parts.
Qed.

Lemma handle_sound (ev : Event) (p : Page) :
  page_sound p -> page_sound (handle ev p).
Proof.
  intros Hp.
  pose proof Hp as (Hdb & Hst & Hss & Hms & Hsel & Hcs & Hpd).
  destruct ev as [| n | text | e | | i | i e | i]; cbn [handle]; cbv zeta.
  - (* "+ New Chat" *)
    apply fetch_sound; [exact Hp |]. split; [exact Hss |]. discriminate.
  - (* a list item *)
    destruct (nth_error (sessions (view (world p))) n) as [session|] eqn:Hn;
      [| exact Hp].
    destruct (same_item (picked p) n); [exact Hp |].
    apply selection_effect_sound.
    unfold page_sound. page_fields. sound_parts; try assumption.
    + now exists session.
    + intros c [= <-]. destruct Hss as [_ Hall].
      rewrite Forall_forall in Hall. apply Hall.
      now apply nth_error_In with (n := n).
  - (* typing *)
    destruct (currentSession (view (world p))) eqn:Hcur; [| exact Hp].
    destruct (loading (view (world p))); [exact Hp |].
    unfold page_sound. page_fields. sound_parts; try assumption.
    all: try (destruct (picked p); page_fields; exact Hsel).
    destruct Hp as (_ & _ & _ & _ & _ & H & _). exact H.
  - (* a key *)
    destruct (currentSession (view (world p))); [| exact Hp].
    destruct (loading (view (world p))); [exact Hp |].
    destruct (String.eqb (key e) "Enter" && negb (shiftKey e));
      [now apply begin_sendMessage_sound | exact Hp].
  - (* the send button *)
    destruct (send_button (view (world p))) as [b|]; [| exact Hp].
    destruct (disabled b); [exact Hp | now apply begin_sendMessage_sound].
  - (* the store deals with a request *)
    destruct (nth_error (pending p) i) as [h|] eqn:Hi; [| exact Hp].
    pose proof (Forall_nth_error _ _ _ _ _ Hpd Hi) as Hh.
    destruct (serve_sound (uid (world p)) h (db (world p)) Hdb Hst Hh)
      as (Hdb' & Hst' & Hg & Hh').
    destruct (serve (uid (world p)) h (db (world p))) as [h' d'].
    cbn [fst snd] in *.
    unfold page_sound. page_fields. sound_parts; try assumption.
    + now apply (sessions_sound_grown _ (db (world p))).
    + now apply (conversation_prefix_grown _ (db (world p))).
    + intros c Hc. apply (proj1 Hg). now apply Hcs.
    + apply Forall_put; [| exact Hh'].
      eapply Forall_impl; [| exact Hpd].
      intros h0. now apply pending_sound_grown.
  - (* a request or its answer is lost *)
    destruct (nth_error (pending p) i) as [h|] eqn:Hi; [| exact Hp].
    pose proof (Forall_nth_error _ _ _ _ _ Hpd Hi) as Hh.
    unfold page_sound. page_fields. sound_parts; try assumption.
    apply Forall_put; [exact Hpd | now apply lose_sound].
  - (* an answer arrives *)
    destruct (nth_error (pending p) i) as [h|] eqn:Hi; [| exact Hp].
    pose proof (Forall_nth_error _ _ _ _ _ Hpd Hi) as Hh.
    destruct (answered h); [| exact Hp].
    apply resume_sound; [| exact Hh].
    unfold page_sound. page_fields. sound_parts; try assumption.
    now apply Forall_drop.
Qed.

Lemma run_sound (evs : list Event) (p : Page) :
  page_sound p -> page_sound (run evs p).
Proof.
  revert p. induction evs as [|ev evs IH]; intros p Hp; [exact Hp |].
  cbn [run fold_left]. apply IH. now apply handle_sound.
Qed.

Lemma mounted_sound (w : World) :
  db_consistent (db w) -> Db.stamped (db w) -> page_sound (mounted w).
Proof.
  intros Hdb Hst. unfold mounted, begin_loadSessions.
  apply fetch_sound; [| exact I].
  unfold page_sound, initial_view. page_fields.
  sound_parts; try assumption.
  - apply sessions_sound_nil.
  - apply conversation_prefix_nil.
  - now left.
  - discriminate.
  - constructor.
Qed.

Lemma fetch_uid (rq : Request) (h : Pending) (p : Page) :
  uid (world (fetch rq h p)) = uid (world p).
Proof. reflexivity. Qed.

Lemma selection_effect_uid (p : Page) :
  uid (world (selection_effect p)) = uid (world p).
Proof.
  unfold selection_effect. now destruct (currentSession (view (world p))).
Qed.

Lemma begin_sendMessage_uid (p : Page) :
  uid (world (begin_sendMessage p)) = uid (world p).
Proof.
  unfold begin_sendMessage. cbv zeta.
  destruct (currentSession (view (world p))); [| reflexivity].
  now destruct (negb (Js.truthy (Js.trim (input (view (world p)))))
                || loading (view (world p))).
Qed.

Lemma resume_uid (h : Pending) (p : Page) :
  uid (world (resume h p)) = uid (world p).
Proof.
  destruct h as [[r|] | sid c [r|] | held [r|] | cur um [r|] | cur ar [r|]
                 | cur date [r|]];
    cbn [resume]; cbv zeta; try reflexivity.
  - destruct (error r); [reflexivity |].
    now destruct (data r) as [[|first rest]|].
  - destruct c; now destruct (error r).
  - destruct (error r); [reflexivity |]. now destruct (data r).
  - now destruct (error r).
  - now destruct (error r).
Qed.

Lemma handle_uid (ev : Event) (p : Page) :
  uid (world (handle ev p)) = uid (world p).
Proof.
  destruct ev as [| n | text | e | | i | i e | i]; cbn [handle]; cbv zeta.
  - reflexivity.
  - destruct (nth_error (sessions (view (world p))) n); [| reflexivity].
    destruct (same_item (picked p) n); [reflexivity |].
    now rewrite selection_effect_uid.
  - destruct (currentSession (view (world p))); [| reflexivity].
    now destruct (loading (view (world p))).
  - destruct (currentSession (view (world p))); [| reflexivity].
    destruct (loading (view (world p))); [reflexivity |].
    destruct (String.eqb (key e) "Enter" && negb (shiftKey e));
      [apply begin_sendMessage_uid | reflexivity].
  - destruct (send_button (view (world p))) as [b|]; [| reflexivity].
    destruct (disabled b); [reflexivity | apply begin_sendMessage_uid].
  - destruct (nth_error (pending p) i) as [h|]; [| reflexivity].
    now destruct (serve (uid (world p)) h (db (world p))).
  - now destruct (nth_error (pending p) i).
  - destruct (nth_error (pending p) i) as [h|]; [| reflexivity].
    destruct (answered h); [| reflexivity]. now rewrite resume_uid.
Qed.

Lemma run_uid (evs : list Event) (p : Page) :
  uid (world (run evs p)) = uid (world p).
Proof.
  revert p. induction evs as [|ev evs IH]; intros p; [reflexivity |].
  cbn [run fold_left]. fold (run evs (handle ev p)).
  now rewrite IH, handle_uid.
Qed.

Lemma surgery_db_stamped : Db.stamped surgery_db.
Proof. constructor. Qed.

(** Whatever the user does and in whatever order the store deals with
    the requests and the answers come back or are lost, the lists on
    screen stay sound: the session items have pairwise distinct keys and
    are sessions of the user in the store, the message items have
    pairwise distinct keys, the selected session is a session of the
    user in the store, and unless the list is empty it is an item of the
    list, the only one marked active. *)
Theorem any_schedule_keeps_the_lists_sound (evs : list Event) (w : World) :
  db_consistent (db w) ->
  Db.stamped (db w) ->
  let p := run evs (mounted w) in
  NoDup (map cs_id (sessions (view (world p))))
  /\ Forall (fun s => Db.owns_session (db (world p)) (uid w) (cs_id s) = true)
            (sessions (view (world p)))
  /\ NoDup (map m_id (messages (view (world p))))
  /\ (forall c,
        currentSession (view (world p)) = Some c ->
        Db.owns_session (db (world p)) (uid w) (cs_id c) = true
        /\ (sessions (view (world p)) <> [] ->
            In c (sessions (view (world p)))
            /\ List.length (filter (item_active (view (world p)))
                              (sessions (view (world p)))) = 1))
  /\ db_consistent (db (world p)).
Proof.
  intros Hdb Hst p.
  pose proof (run_sound evs (mounted w) (mounted_sound w Hdb Hst))
    as (Hdb' & Hst' & [Hnd Hown] & (sid & rest & Hms) & Hsel & Hcs & _).
  fold p in Hdb', Hst', Hnd, Hown, Hms, Hsel, Hcs.
  assert (Hu : uid (world p) = uid w) by (unfold p; now rewrite run_uid).
  rewrite Hu in *.
  split; [exact Hnd |]. split; [exact Hown |]. split; [| split; [| exact Hdb']].
  - pose proof (listMessages_NoDup (uid w) sid (db (world p)) Hdb') as H.
    rewrite Hms, map_app in H. now apply NoDup_app_remove_r in H.
  - intros c Hc. split; [now apply Hcs |].
    intros Hne. unfold selection_sound in Hsel.
    destruct (picked p) as [n|].
    + destruct Hsel as (c' & Hc' & Hn). rewrite Hc in Hc'.
      injection Hc' as <-.
      assert (Hin : In c (sessions (view (world p))))
        by now apply nth_error_In with (n := n).
      split; [exact Hin |].
      unfold item_active. rewrite Hc. now apply one_item_matches.
    + destruct Hsel as [Hnone | Hnil]; congruence.
Qed.

(** Whatever the schedule, the conversation on screen is the beginning
    of what the store holds for one session of the user, in the store's
    order: every message shown is stored, all are of that one session,
    none is missing between two that are shown, and none is shown twice
    or out of order. *)
Theorem any_schedule_shows_the_start_of_a_stored_conversation
    (evs : list Event) (w : World) :
  db_consistent (db w) ->
  Db.stamped (db w) ->
  let p := run evs (mounted w) in
  exists sid rest,
    Db.listMessages (uid w) sid (db (world p))
    = messages (view (world p)) ++ rest
    /\ Forall (fun m => In m (Db.messages (db (world p)))
                        /\ m_session_id m = sid
                        /\ Db.owns_session (db (world p)) (uid w) sid = true)
              (messages (view (world p))).
Proof.
  intros Hdb Hst p.
  pose proof (run_sound evs (mounted w) (mounted_sound w Hdb Hst))
    as (_ & _ & _ & (sid & rest & Hms) & _).
  fold p in Hms.
  assert (Hu : uid (world p) = uid w) by (unfold p; now rewrite run_uid).
  rewrite Hu in Hms.
  exists sid, rest. split; [exact Hms |].
  apply Forall_forall. intros m Hm.
  apply listMessages_In. rewrite Hms. apply in_or_app. now left.
Qed.

Lemma any_schedule_keeps_the_lists_sound_witness :
  List.length
    (filter (item_active
               (view (world (run click_B_while_A_sends
                                 (mounted (surgery "" []))))))
            (sessions (view (world (run click_B_while_A_sends
                                        (mounted (surgery "" [])))))))
  = 1.
Proof.
  refine (proj2 (proj2 (proj1 (proj2 (proj2 (proj2
            (any_schedule_keeps_the_lists_sound
               click_B_while_A_sends (surgery "" [])
               surgery_db_consistent surgery_db_stamped))))
            (mkChatSession 101 7 "New Chat" 11 11) _) _)).
  - vm_compute. reflexivity.
  - vm_compute. discriminate.
Defined.

Lemma any_schedule_shows_the_start_of_a_stored_conversation_witness :
  (exists sid rest,
      Db.listMessages 7 sid
        (db (world (run click_B_while_A_sends (mounted (surgery "" [])))))
      = messages (view (world (run click_B_while_A_sends
                                   (mounted (surgery "" [])))))
        ++ rest)
  /\ map m_session_id
       (messages (view (world (run click_B_while_A_sends
                                   (mounted (surgery "" []))))))
     = [100; 100]
  /\ option_map cs_id
       (currentSession (view (world (run click_B_while_A_sends
                                         (mounted (surgery "" []))))))
     = Some 101.
Proof.
  split; [| split; vm_compute; reflexivity].
  destruct (any_schedule_shows_the_start_of_a_stored_conversation
              click_B_while_A_sends (surgery "" [])
              surgery_db_consistent surgery_db_stamped)
    as (sid & rest & H & _).
  now exists sid, rest.
Defined.

(* ================================================================= *)
(** ** Answers that come at once *)

Lemma run_app (evs evs' : list Event) (p : Page) :
  run (evs ++ evs') p = run evs' (run evs p).
Proof. apply fold_left_app. Qed.

Lemma serve_answers (u : uuid) (h : Pending) (d : Db.t) :
  answered (fst (serve u h d)) = true.
Proof.
  destruct h as [[r|] | sid c [r|] | held [r|] | cur um [r|] | cur ar [r|]
                 | cur date [r|]];
    cbn [serve]; try reflexivity.
  - now destruct (Db.createSession u u "New Chat" d).
  - now destruct (Db.appendMessage u (cs_id cur) user um d).
  - now destruct (Db.appendMessage u (cs_id cur) assistant ar d).
Qed.

Lemma lose_answers (e : PostgrestError) (h : Pending) :
  answered (lose e h) = true.
Proof. now destruct h. Qed.

(** One request in flight, answered at once. *)
Lemma run_prompt_answer (v : option PostgrestError) (h : Pending)
    (w : World) (held : option nat) :
  run (prompt_answer v) (mkPage w [h] held)
  = match v with
    | None =>
        resume (fst (serve (uid w) h (db w)))
               (mkPage (with_db (snd (serve (uid w) h (db w))) w) [] held)
    | Some e => resume (lose e h) (mkPage w [] held)
    end.
Proof.
  destruct v as [e|]; cbn [prompt_answer run fold_left handle world pending
                           picked nth_error].
  - cbv zeta. cbn [put firstn skipn app nth_error drop].
    now rewrite lose_answers.
  - cbv zeta. pose proof (serve_answers (uid w) h (db w)) as Ha.
    destruct (serve (uid w) h (db w)) as [h' d'].
    cbn [fst snd world pending picked put firstn skipn app nth_error drop
         with_db uid db view] in *.
    now rewrite Ha.
Qed.

Lemma run_nothing_pending (n : nat) (tp : list (option PostgrestError))
    (p : Page) :
  pending p = [] -> run (promptly n tp) p = p.
Proof.
  revert tp. induction n as [|n IH]; intros tp Hp; [reflexivity |].
  cbn [promptly]. rewrite run_app.
  assert (E : run (prompt_answer (hd None tp)) p = p).
  { destruct p as [w pd held]. cbn [pending] in Hp. subst pd.
    now destruct (hd None tp). }
  rewrite E. now apply IH.
Qed.

Lemma promptly_5 (tp : list (option PostgrestError)) :
  promptly 5 tp
  = prompt_answer (nth 0 tp None) ++ prompt_answer (nth 1 tp None)
    ++ prompt_answer (nth 2 tp None) ++ prompt_answer (nth 3 tp None)
    ++ prompt_answer (nth 4 tp None).
Proof.
  cbn [promptly]. rewrite app_nil_r.
  now destruct tp as [|v0 [|v1 [|v2 [|v3 [|v4 tp]]]]].
Qed.

Lemma run_cons (ev : Event) (evs : list Event) (p : Page) :
  run (ev :: evs) p = run evs (handle ev p).
Proof. reflexivity. Qed.

Lemma with_tape_same (w : World) : with_tape (tape w) w = w.
Proof. now destruct w. Qed.

Ltac seq_fields :=
  repeat progress
    (cbn [resume serve lose fst snd error data fulfilled rejected or_empty
          selection_effect world pending picked exec bind ret
          setSessions setCurrentSession setMessages setInput setLoading
          console_error record_request with_view with_db with_tape
          view db uid clock tape requests console
          sessions currentSession messages input loading app];
     unfold begin_loadMessages, begin_createNewSession, begin_loadSessions,
       fetch, update, pick).

Lemma click_send_goes (w : World) (held : option nat) (cur : ChatSession) :
  currentSession (view w) = Some cur ->
  loading (view w) = false ->
  Js.trim (input (view w)) <> "" ->
  handle ClickSend (mkPage w [] held)
  = mkPage (mkWorld (mkView (sessions (view w)) (Some cur) (messages (view w))
                            "" true)
                    (db w) (uid w) (clock w) (tape w)
                    (requests w
                     ++ [InsertMessage (cs_id cur) user
                                       (Js.trim (input (view w)))])
                    (console w))
           [awaits_user_insert cur (Js.trim (input (view w))) None] held.
Proof.
  intros Hcur Hld Hin.
  cbn [handle world]. cbv zeta. unfold send_button, begin_sendMessage.
  cbn [world]. cbv zeta. rewrite Hcur, Hld. cbn [disabled].
  destruct (Js.trim (input (view w))) as [|a t] eqn:Et; [contradiction |].
  cbn [Js.truthy negb orb]. seq_fields. now rewrite Hcur.
Qed.

(** A send whose five requests are answered at once, as the tape says,
    is the handler run in one go. *)
Theorem prompt_answers_run_send_in_one_go (w : World) (held : option nat) :
  run (ClickSend :: promptly 5 (tape w)) (mkPage w [] held)
  = mkPage (with_tape (tape w) (exec sendMessage w)) [] held.
Proof.
  remember (exec sendMessage w) as w' eqn:E.
  pose proof (sendMessage_runs w) as Hrun. rewrite <- E in Hrun. clear E.
  rewrite run_cons.
  destruct Hrun as [Hg | cur e Hcur Hld Hin Herr | cur Hcur Hld Hin H0 Hown].
  - (* stopped by the guard *)
    assert (Hs : handle ClickSend (mkPage w [] held) = mkPage w [] held).
    { cbn [handle world]. cbv zeta. unfold send_button, begin_sendMessage.
      cbn [world]. cbv zeta.
      destruct (currentSession (view w)); [| reflexivity].
      cbn [disabled].
      destruct Hg as [Hg | [Hg | Hg]]; [discriminate | |]; rewrite Hg;
        [reflexivity | now rewrite orb_true_r]. }
    rewrite Hs, run_nothing_pending by reflexivity.
    now rewrite with_tape_same.
  - (* the user row is refused *)
    rewrite (click_send_goes w held cur Hcur Hld Hin).
    change (promptly 5 (tape w))
      with (prompt_answer (hd None (tape w)) ++ promptly 4 (tl (tape w))).
    rewrite run_app, run_prompt_answer.
    assert (Hv : hd None (tape w) = verdict 0 w)
      by (unfold verdict; now destruct (tape w)).
    rewrite Hv.
    destruct (verdict 0 w) as [e0|] eqn:H0.
    + rewrite insert_message_rejected with (e := e0) in Herr by exact H0.
      cbn in Herr. injection Herr as ->.
      seq_fields. now rewrite run_nothing_pending.
    + destruct (Db.owns_session (db w) (uid w) (cs_id cur)) eqn:Hown.
      * rewrite insert_message_let_through in Herr by assumption.
        discriminate Herr.
      * rewrite insert_message_denied in Herr by assumption.
        cbn in Herr. injection Herr as <-.
        seq_fields. rewrite appendMessage_denied by exact Hown.
        seq_fields. now rewrite run_nothing_pending.
  - (* the whole exchange *)
    rewrite (click_send_goes w held cur Hcur Hld Hin), promptly_5, !run_app.
    unfold shown_after, after_touch, after_assistant, after_user, exchange,
      verdict in *.
    rewrite (appendMessage_owned (db w) (uid w) (cs_id cur) user _ Hown).
    cbn [snd].
    assert (Hown' : forall ms n t,
               Db.owns_session
                 (Db.mk (Db.users (db w)) (Db.chat_sessions (db w)) ms n t)
                 (uid w) (cs_id cur) = true) by (intros; exact Hown).
    rewrite H0, run_prompt_answer. seq_fields.
    rewrite (appendMessage_owned (db w) (uid w) (cs_id cur) user _ Hown).
    seq_fields.
    destruct (nth 1 (tape w) None) as [e1|];
      rewrite run_prompt_answer; seq_fields;
      (destruct (nth 2 (tape w) None) as [e2|];
       rewrite run_prompt_answer; seq_fields;
       rewrite ?appendMessage_owned by apply Hown'; seq_fields;
       (destruct (nth 3 (tape w) None) as [e3|];
        rewrite run_prompt_answer; seq_fields;
        (destruct (nth 4 (tape w) None) as [e4|];
         rewrite run_prompt_answer; seq_fields;
         cbn [logged app Db.touchSession snd];
         rewrite <- ?app_assoc, ?app_nil_r; cbn [app]; reflexivity))).
Qed.

Lemma hd_verdict (w : World) : hd None (tape w) = verdict 0 w.
Proof. unfold verdict. now destruct (tape w). Qed.

Lemma hd_tl_verdict (w : World) : hd None (tl (tape w)) = verdict 1 w.
Proof. unfold verdict. now destruct (tape w) as [|v0 [|v1 tp]]. Qed.

(** The mount whose requests are answered at once is [mount] run in one
    go: the list, and then the messages of its first session. *)
Theorem prompt_answers_run_mount_in_one_go (w : World) :
  exists held,
    run (promptly 2 (tape w)) (mounted w)
    = mkPage (with_tape (tape w) (exec mount w)) [] held.
Proof.
  unfold mount. rewrite !exec_bind. cbn [fst snd].
  set (w0 := with_view initial_view w).
  change (snd (loadSessions w0)) with (exec loadSessions w0).
  change (promptly 2 (tape w))
    with (prompt_answer (hd None (tape w))
          ++ prompt_answer (hd None (tl (tape w))) ++ []).
  rewrite app_nil_r, !run_app, hd_verdict, hd_tl_verdict.
  unfold mounted. seq_fields. rewrite run_prompt_answer.
  assert (V0 : verdict 0 w0 = verdict 0 w) by reflexivity.
  destruct (verdict 0 w) as [e0|] eqn:H0.
  - (* the list is refused *)
    exists None. rewrite (loadSessions_rejected w0 e0) by exact V0.
    subst w0. unfold with_view, initial_view. seq_fields.
    unfold exec. rewrite rerender_same by reflexivity. cbn [snd].
    seq_fields.
    destruct (verdict 1 w); reflexivity.
  - rewrite (loadSessions_let_through w0) by exact V0.
    subst w0. unfold with_view, initial_view. seq_fields.
    destruct (Db.listSessions (uid w) (db w)) as [|first rest] eqn:El.
    + (* no session yet *)
      exists None. unfold exec. rewrite rerender_same by reflexivity.
      cbn [snd hd_error].
      seq_fields. destruct (verdict 1 w); reflexivity.
    + (* the first session opens *)
      exists (Some 0). cbn [hd_error]. seq_fields.
      unfold exec.
      rewrite rerender_changed with (c := first);
        [| reflexivity | discriminate].
      rewrite run_prompt_answer.
      destruct (verdict 1 w) as [e1|] eqn:H1.
      * erewrite loadMessages_rejected
          by (unfold verdict in *; fields; rewrite nth_tl; exact H1).
        seq_fields. reflexivity.
      * rewrite loadMessages_let_through
          by (unfold verdict in *; fields; rewrite nth_tl; exact H1).
        seq_fields. reflexivity.
Qed.

Lemma createSession_no_user (u : uuid) (title : string) (d : Db.t) :
  ~ In u (Db.users d) ->
  Db.createSession u u title d = (rejected ForeignKey, d).
Proof.
  intros Hu. unfold Db.createSession. rewrite Nat.eqb_refl.
  destruct (existsb (Nat.eqb u) (Db.users d)) eqn:E; [| reflexivity].
  exfalso. apply Hu. apply existsb_exists in E as (x & Hx & Ex).
  apply Nat.eqb_eq in Ex. now subst x.
Qed.

Lemma createNewSession_refused (w : World) (e : PostgrestError) :
  verdict 0 w = Some e
  \/ (verdict 0 w = None /\ ~ In (uid w) (Db.users (db w))
      /\ e = ForeignKey) ->
  exec createNewSession w
  = mkWorld (view w) (db w) (uid w) (clock w) (tl (tape w))
            (requests w ++ [InsertChatSession (uid w) "New Chat"])
            (console w ++ [("Error creating session:", e)]).
Proof.
  intros [H0 | (H0 & Hu & ->)];
    unfold exec, createNewSession, bind, closure, insert_chat_session.
  - now rewrite await_rejected with (e := e) by exact H0.
  - rewrite await_let_through by exact H0.
    now rewrite createSession_no_user by exact Hu.
Qed.

Lemma nth_error_NoDup_keys (l : list ChatSession) (m n : nat)
    (a b : ChatSession) :
  NoDup (map cs_id l) ->
  nth_error l m = Some a -> nth_error l n = Some b -> a = b -> m = n.
Proof.
  intros Hnd Ha Hb <-.
  rewrite NoDup_nth_error in Hnd. apply Hnd.
  - rewrite length_map. apply nth_error_Some. now rewrite Ha.
  - now rewrite !nth_error_map, Ha, Hb.
Qed.

(** A click whose requests are answered at once is the handler of the
    click run in one go, followed by the effect of the new selection:
    "+ New Chat" is [newChat], a click on an item of the list is
    [selectSession] of that item.  That the selection cell is compared by
    object identity makes no difference as long as the keys of the list
    are distinct and no selected session has the key the store hands out
    next. *)
Theorem prompt_answers_run_a_click_in_one_go
    (w : World) (held : option nat) :
  selection_sound (view w) held ->
  NoDup (map cs_id (sessions (view w))) ->
  (forall c, currentSession (view w) = Some c ->
             cs_id c < Db.next_uuid (db w)) ->
  (exists held',
      run (ClickNewChat :: promptly 2 (tape w)) (mkPage w [] held)
      = mkPage (with_tape (tape w) (exec newChat w)) [] held')
  /\ forall n,
       exists held',
         run (ClickSession n :: promptly 1 (tape w)) (mkPage w [] held)
         = mkPage (with_tape (tape w)
                     (exec match nth_error (sessions (view w)) n with
                           | Some session => selectSession session
                           | None => ret tt
                           end w))
                  [] held'.
Proof.
  intros Hsel Hnd Hold. split.
  - (* "+ New Chat" *)
    unfold newChat. rewrite !exec_bind. cbn [closure fst snd].
    change (snd (createNewSession w)) with (exec createNewSession w).
    change (promptly 2 (tape w))
      with (prompt_answer (hd None (tape w))
            ++ prompt_answer (hd None (tl (tape w))) ++ []).
    rewrite run_cons, app_nil_r, !run_app, hd_verdict, hd_tl_verdict.
    cbn [handle]. seq_fields. rewrite run_prompt_answer. seq_fields.
    destruct (verdict 0 w) as [e0|] eqn:H0.
    + exists held. rewrite (createNewSession_refused w e0) by now left.
      unfold exec. rewrite rerender_same by reflexivity. cbn [snd].
      seq_fields. destruct (verdict 1 w); reflexivity.
    + destruct (in_dec Nat.eq_dec (uid w) (Db.users (db w))) as [Hu | Hu].
      * exists (Some 0).
        rewrite createNewSession_let_through by assumption.
        rewrite createSession_own by exact Hu. unfold session_A.
        seq_fields. unfold exec.
        rewrite rerender_changed
          with (c := mkChatSession (Db.next_uuid (db w)) (uid w) "New Chat"
                                   (Db.now (db w)) (Db.now (db w)));
          [| reflexivity
           | intros E; specialize (Hold _ E); cbn [cs_id] in Hold; lia].
        rewrite run_prompt_answer. cbn [cs_id].
        destruct (verdict 1 w) as [e1|] eqn:H1.
        -- erewrite loadMessages_rejected
             by (unfold verdict in *; fields; rewrite nth_tl; exact H1).
           seq_fields. reflexivity.
        -- rewrite loadMessages_let_through
             by (unfold verdict in *; fields; rewrite nth_tl; exact H1).
           seq_fields. reflexivity.
      * exists held.
        rewrite (createNewSession_refused w ForeignKey)
          by (right; now repeat split).
        rewrite createSession_no_user by exact Hu.
        unfold exec. rewrite rerender_same by reflexivity. cbn [snd].
        seq_fields. destruct (verdict 1 w); reflexivity.
  - (* an item of the list *)
    intros n.
    change (promptly 1 (tape w)) with (prompt_answer (hd None (tape w)) ++ []).
    rewrite run_cons, app_nil_r, hd_verdict.
    cbn [handle world picked]. cbv zeta.
    destruct (nth_error (sessions (view w)) n) as [session|] eqn:Hn.
    2:{ exists held. cbn [exec ret snd]. rewrite with_tape_same.
        destruct (verdict 0 w); reflexivity. }
    destruct (same_item held n) eqn:Hsame.
    + (* the item that is selected *)
      exists held. destruct held as [m|]; [| discriminate].
      cbn [same_item] in Hsame. apply Nat.eqb_eq in Hsame. subst m.
      destruct Hsel as (c & Hc & Hc'). rewrite Hn in Hc'.
      injection Hc' as <-.
      rewrite (proj1 (select_same_session w session Hc)), with_tape_same.
      destruct (verdict 0 w); reflexivity.
    + (* another item *)
      exists (Some n).
      assert (Hne : currentSession (view w) <> Some session).
      { intros E. destruct held as [m|].
        - destruct Hsel as (c & Hc & Hm). rewrite E in Hc.
          injection Hc as <-.
          pose proof (nth_error_NoDup_keys _ _ _ _ _ Hnd Hm Hn eq_refl).
          subst m. cbn [same_item] in Hsame.
          now rewrite Nat.eqb_refl in Hsame.
        - destruct Hsel as [Hnone | Hnil]; [congruence |].
          rewrite Hnil in Hn. now destruct n. }
      unfold selectSession. rewrite !exec_bind. cbn [closure fst snd].
      seq_fields. unfold exec.
      rewrite rerender_changed with (c := session);
        [| reflexivity | exact Hne].
      rewrite run_prompt_answer.
      destruct (verdict 0 w) as [e0|] eqn:H0.
      * erewrite loadMessages_rejected by exact H0.
        seq_fields. reflexivity.
      * rewrite loadMessages_let_through by exact H0.
        seq_fields. reflexivity.
Qed.

Lemma prompt_answers_run_a_click_in_one_go_witness :
  (exists held',
      run (ClickNewChat :: promptly 2 []) (mkPage (surgery "" []) [] (Some 0))
      = mkPage (with_tape [] (exec newChat (surgery "" []))) [] held')
  /\ option_map cs_id (currentSession (view (exec newChat (surgery "" []))))
     = Some 101.
Proof.
  split; [| vm_compute; reflexivity].
  refine (proj1 (prompt_answers_run_a_click_in_one_go
                   (surgery "" []) (Some 0) _ _ _)).
  - exists surgery_session. split; reflexivity.
  - repeat constructor. intros [].
  - intros c [= <-]. cbn [cs_id surgery_session db surgery surgery_db
                          Db.next_uuid]. lia.
Defined.

(* ================================================================= *)
(** ** One exchange at a time *)

Lemma nth_error_parts (A : Type) (l : list A) (i : nat) (x : A) :
  nth_error l i = Some x ->
  forall y, put i y l = firstn i l ++ y :: skipn (S i) l
            /\ l = firstn i l ++ x :: skipn (S i) l.
Proof.
  intros H y. split; [reflexivity |].
  revert i H. induction l as [|a l IH]; intros [|i] H; try discriminate.
  - now injection H as ->.
  - cbn [firstn skipn app]. f_equal. now apply IH.
Qed.

Lemma count_put (l : list Pending) (i : nat) (h h' : Pending) :
  nth_error l i = Some h -> in_exchange h' = in_exchange h ->
  List.length (filter in_exchange (put i h' l))
  = List.length (filter in_exchange l).
Proof.
  intros Hi Hk. destruct (nth_error_parts _ l i h Hi h') as [_ E].
  rewrite E at 2. unfold put.
  rewrite !filter_app, !length_app. cbn [filter]. rewrite Hk.
  now destruct (in_exchange h).
Qed.

Lemma count_drop (l : list Pending) (i : nat) (h : Pending) :
  nth_error l i = Some h ->
  List.length (filter in_exchange l)
  = List.length (filter in_exchange (drop i l))
    + (if in_exchange h then 1 else 0).
Proof.
  intros Hi. destruct (nth_error_parts _ l i h Hi h) as [_ E].
  rewrite E at 1. unfold drop.
  rewrite !filter_app, !length_app. cbn [filter].
  destruct (in_exchange h); cbn [List.length]; lia.
Qed.

Lemma serve_kind (u : uuid) (h : Pending) (d : Db.t) :
  in_exchange (fst (serve u h d)) = in_exchange h.
Proof.
  destruct h as [[r|] | sid c [r|] | held [r|] | cur um [r|] | cur ar [r|]
                 | cur date [r|]];
    cbn [serve]; try reflexivity.
  - now destruct (Db.createSession u u "New Chat" d).
  - now destruct (Db.appendMessage u (cs_id cur) user um d).
  - now destruct (Db.appendMessage u (cs_id cur) assistant ar d).
Qed.

Lemma lose_kind (e : PostgrestError) (h : Pending) :
  in_exchange (lose e h) = in_exchange h.
Proof. now destruct h. Qed.

Lemma begin_sendMessage_exclusive (p : Page) :
  exclusive p -> exclusive (begin_sendMessage p).
Proof.
  unfold exclusive, exchanges, begin_sendMessage. cbv zeta. intros H.
  destruct (currentSession (view (world p))); [| exact H].
  destruct (loading (view (world p))) eqn:Hld.
  - rewrite orb_true_r, Hld. exact H.
  - destruct (negb (Js.truthy (Js.trim (input (view (world p))))));
      cbn [orb]; [now rewrite Hld |].
    unfold fetch, update. page_fields.
    rewrite filter_app, length_app, H. reflexivity.
Qed.

Lemma selection_effect_exclusive (p : Page) :
  exclusive p -> exclusive (selection_effect p).
Proof.
  unfold exclusive, exchanges, selection_effect. intros H.
  destruct (currentSession (view (world p))); [| exact H].
  unfold begin_loadMessages. page_fields.
  rewrite filter_app, length_app. cbn [filter in_exchange List.length]. lia.
Qed.

(** What an answer does to the count of exchanges and to [loading]: a
    handler outside an exchange leaves both, a handler inside one goes on
    to the next await of the exchange or ends it and turns [loading]
    off. *)
Lemma resume_exchanges (h : Pending) (p : Page) :
  answered h = true ->
  (in_exchange h = false
   /\ exchanges (resume h p) = exchanges p
   /\ loading (view (world (resume h p))) = loading (view (world p)))
  \/ (in_exchange h = true
      /\ ((exchanges (resume h p) = S (exchanges p)
           /\ loading (view (world (resume h p))) = loading (view (world p)))
          \/ (exchanges (resume h p) = exchanges p
              /\ loading (view (world (resume h p))) = false))).
Proof.
  assert (Hadd : forall rq h' q,
             exchanges (fetch rq h' q)
             = exchanges q + (if in_exchange h' then 1 else 0)).
  { intros rq h' q. unfold exchanges, fetch. cbn [pending].
    rewrite filter_app, length_app. cbn [filter].
    now destruct (in_exchange h'). }
  assert (Heff : forall q,
             exchanges (selection_effect q) = exchanges q
             /\ loading (view (world (selection_effect q)))
                = loading (view (world q))).
  { intros q. unfold selection_effect.
    destruct (currentSession (view (world q))); [| now split].
    unfold begin_loadMessages. rewrite Hadd. cbn [in_exchange].
    split; [lia | reflexivity]. }
  destruct h as [[r|] | sid c [r|] | held [r|] | cur um [r|] | cur ar [r|]
                 | cur date [r|]];
    cbn [answered]; try discriminate; intros _; cbn [resume in_exchange];
    cbv zeta.
  - (* the session list *)
    left. split; [reflexivity |].
    destruct (error r); [now split |].
    destruct (data r) as [[|first rest]|]; try (now split).
    match goal with
    | |- context [selection_effect ?q] => destruct (Heff q) as [-> ->]
    end.
    now split.
  - (* a message list *)
    destruct c as [| cur um | cur].
    + left. split; [reflexivity |]. now destruct (error r).
    + right. split; [reflexivity |]. left.
      unfold begin_loadMessages. rewrite Hadd. cbn [in_exchange].
      destruct (error r); split; try reflexivity;
        unfold exchanges; cbn [update pending]; lia.
    + right. split; [reflexivity |]. left.
      rewrite Hadd. cbn [in_exchange].
      destruct (error r); split; try reflexivity;
        unfold exchanges; cbn [update pending]; lia.
  - (* a new session *)
    left. split; [reflexivity |].
    destruct (error r); [now split |].
    destruct (data r) as [row|]; [| now split].
    match goal with
    | |- context [selection_effect ?q] => destruct (Heff q) as [-> ->]
    end.
    now split.
  - (* the user row *)
    right. split; [reflexivity |].
    destruct (error r).
    + right. now split.
    + left. unfold begin_loadMessages. rewrite Hadd. cbn [in_exchange].
      split; [lia | reflexivity].
  - (* the assistant row *)
    right. split; [reflexivity |]. left.
    unfold begin_loadMessages. rewrite Hadd. cbn [in_exchange].
    destruct (error r); split; try reflexivity;
      unfold exchanges; cbn [update pending]; lia.
  - (* the touch *)
    right. split; [reflexivity |]. right. now split.
Qed.

Lemma handle_exclusive (ev : Event) (p : Page) :
  exclusive p -> exclusive (handle ev p).
Proof.
  intros Hp.
  destruct ev as [| n | text | e | | i | i e | i]; cbn [handle]; cbv zeta.
  - unfold exclusive, exchanges, begin_createNewSession, fetch in *.
    page_fields. rewrite filter_app, length_app.
    cbn [filter in_exchange List.length]. lia.
  - destruct (nth_error (sessions (view (world p))) n); [| exact Hp].
    destruct (same_item (picked p) n); [exact Hp |].
    now apply selection_effect_exclusive.
  - destruct (currentSession (view (world p))); [| exact Hp].
    destruct (loading (view (world p))) eqn:Hld; [exact Hp |].
    unfold exclusive, exchanges in *. page_fields. exact Hp.
  - destruct (currentSession (view (world p))); [| exact Hp].
    destruct (loading (view (world p))); [exact Hp |].
    destruct (String.eqb (key e) "Enter" && negb (shiftKey e));
      [now apply begin_sendMessage_exclusive | exact Hp].
  - destruct (send_button (view (world p))) as [b|]; [| exact Hp].
    destruct (disabled b); [exact Hp | now apply begin_sendMessage_exclusive].
  - destruct (nth_error (pending p) i) as [h|] eqn:Hi; [| exact Hp].
    pose proof (serve_kind (uid (world p)) h (db (world p))) as Hk.
    destruct (serve (uid (world p)) h (db (world p))) as [h' d'].
    cbn [fst] in Hk. unfold exclusive, exchanges in *. page_fields.
    now rewrite (count_put _ _ h h' Hi Hk).
  - destruct (nth_error (pending p) i) as [h|] eqn:Hi; [| exact Hp].
    unfold exclusive, exchanges in *. page_fields.
    now rewrite (count_put _ _ h (lose e h) Hi (lose_kind e h)).
  - destruct (nth_error (pending p) i) as [h|] eqn:Hi; [| exact Hp].
    destruct (answered h) eqn:Ha; [| exact Hp].
    pose proof (count_drop _ _ _ Hi) as Hc.
    set (q := mkPage (world p) (drop i (pending p)) (picked p)).
    assert (Hq : exchanges p
                 = exchanges q + (if in_exchange h then 1 else 0))
      by exact Hc.
    assert (Hl : loading (view (world q)) = loading (view (world p)))
      by reflexivity.
    unfold exclusive in *.
    destruct (resume_exchanges h q Ha)
      as [(Hk & -> & ->) | (Hk & [[-> ->] | [-> ->]])];
      rewrite Hk in Hq; rewrite ?Hl;
      destruct (loading (view (world p))); lia.
Qed.

(** However the component is used and whatever the network does, at
    most one exchange is under way, and [loading] is on exactly while
    one is: the guard of line 89 keeps a second send from starting, and
    every way out of [sendMessage] turns [loading] off.  In particular
    nothing is loading once no handler waits. *)
Theorem one_exchange_at_a_time (evs : list Event) (w : World) :
  exchanges (run evs (mounted w))
  = (if loading (view (world (run evs (mounted w)))) then 1 else 0)
  /\ (pending (run evs (mounted w)) = [] ->
      loading (view (world (run evs (mounted w)))) = false).
Proof.
  assert (H : exclusive (run evs (mounted w))).
  { assert (H0 : exclusive (mounted w)) by reflexivity.
    revert H0. generalize (mounted w).
    induction evs as [|ev evs IH]; intros p Hp; [exact Hp |].
    cbn [run fold_left]. apply IH. now apply handle_exclusive. }
  split; [exact H |].
  intros Hnone. unfold exclusive, exchanges in H. rewrite Hnone in H.
  now destruct (loading (view (world (run evs (mounted w))))).
Qed.

(* ================================================================= *)
(** ** The session list is asked for once *)

Lemma fetch_list_counts (rq : Request) (h : Pending) (p : Page) :
  is_list_request rq = false -> awaits_list h = false ->
  list_requests (fetch rq h p) = list_requests p
  /\ list_handlers (fetch rq h p) = list_handlers p.
Proof.
  intros Hrq Hh. unfold list_requests, list_handlers, fetch. page_fields.
  rewrite !filter_app, !length_app. cbn [filter]. rewrite Hrq, Hh.
  cbn [List.length]. lia.
Qed.

Lemma selection_effect_list_counts (p : Page) :
  list_requests (selection_effect p) = list_requests p
  /\ list_handlers (selection_effect p) = list_handlers p.
Proof.
  unfold selection_effect.
  destruct (currentSession (view (world p))); [| now split].
  now apply fetch_list_counts.
Qed.

Ltac fetch_counts :=
  unfold begin_loadMessages;
  match goal with
  | |- context [fetch ?rq ?h ?q] =>
      destruct (fetch_list_counts rq h q eq_refl eq_refl) as [-> ->]
  end;
  now split.

Lemma begin_sendMessage_list_counts (p : Page) :
  list_requests (begin_sendMessage p) = list_requests p
  /\ list_handlers (begin_sendMessage p) = list_handlers p.
Proof.
  unfold begin_sendMessage. cbv zeta.
  destruct (currentSession (view (world p))); [| now split].
  destruct (negb (Js.truthy (Js.trim (input (view (world p)))))
            || loading (view (world p))); [now split |].
  fetch_counts.
Qed.

(** A handler that goes on never asks for the list. *)
Lemma resume_list_counts (h : Pending) (p : Page) :
  list_requests (resume h p) = list_requests p
  /\ list_handlers (resume h p) = list_handlers p.
Proof.
  destruct h as [[r|] | sid c [r|] | held [r|] | cur um [r|] | cur ar [r|]
                 | cur date [r|]];
    cbn [resume]; cbv zeta; try (now split).
  - destruct (error r); [now split |].
    destruct (data r) as [[|first rest]|]; try (now split).
    match goal with
    | |- context [selection_effect ?q] =>
        destruct (selection_effect_list_counts q) as [-> ->]
    end.
    now split.
  - destruct c as [| cur um | cur].
    + now destruct (error r).
    + destruct (error r); fetch_counts.
    + destruct (error r); fetch_counts.
  - destruct (error r); [now split |].
    destruct (data r) as [row|]; [| now split].
    match goal with
    | |- context [selection_effect ?q] =>
        destruct (selection_effect_list_counts q) as [-> ->]
    end.
    now split.
  - destruct (error r); [now split |]. fetch_counts.
  - destruct (error r); fetch_counts.
Qed.

Lemma serve_awaits_list (u : uuid) (h : Pending) (d : Db.t) :
  awaits_list (fst (serve u h d)) = awaits_list h.
Proof.
  destruct h as [[r|] | sid c [r|] | held [r|] | cur um [r|] | cur ar [r|]
                 | cur date [r|]];
    cbn [serve]; try reflexivity.
  - now destruct (Db.createSession u u "New Chat" d).
  - now destruct (Db.appendMessage u (cs_id cur) user um d).
  - now destruct (Db.appendMessage u (cs_id cur) assistant ar d).
Qed.

Lemma filter_put_same (f : Pending -> bool) (l : list Pending) (i : nat)
    (h h' : Pending) :
  nth_error l i = Some h -> f h' = f h ->
  List.length (filter f (put i h' l)) = List.length (filter f l).
Proof.
  intros Hi Hk. destruct (nth_error_parts _ l i h Hi h') as [_ E].
  rewrite E at 2. unfold put.
  rewrite !filter_app, !length_app. cbn [filter]. rewrite Hk.
  now destruct (f h).
Qed.

Lemma filter_drop_le (f : Pending -> bool) (l : list Pending) (i : nat) :
  List.length (filter f (drop i l)) <= List.length (filter f l).
Proof.
  unfold drop. rewrite <- (firstn_skipn i l) at 3.
  rewrite !filter_app, !length_app.
  assert (H : List.length (filter f (skipn (S i) l))
              <= List.length (filter f (skipn i l))).
  { destruct (skipn i l) as [|x rest] eqn:E.
    - assert (E' : skipn (S i) l = []).
      { revert i E. induction l as [|a l IH]; intros [|i] E;
          try reflexivity; try discriminate.
        cbn [skipn] in *. now apply IH. }
      now rewrite E'.
    - assert (E' : skipn (S i) l = rest).
      { revert i E. induction l as [|a l IH]; intros [|i] E;
          try discriminate.
        - injection E as _ <-. reflexivity.
        - cbn [skipn] in *. now apply IH. }
      rewrite E'. cbn [filter]. destruct (f x); cbn [List.length]; lia. }
  lia.
Qed.

Lemma handle_list_counts (ev : Event) (p : Page) :
  list_requests (handle ev p) = list_requests p
  /\ list_handlers (handle ev p) <= list_handlers p.
Proof.
  destruct ev as [| n | text | e | | i | i e | i]; cbn [handle]; cbv zeta.
  - destruct (fetch_list_counts
                (InsertChatSession (uid (world p)) "New Chat")
                (awaits_new_session (sessions (view (world p))) None) p
                eq_refl eq_refl) as [E1 E2].
    unfold begin_createNewSession. rewrite E1, E2. now split.
  - destruct (nth_error (sessions (view (world p))) n); [| now split].
    destruct (same_item (picked p) n); [now split |].
    match goal with
    | |- context [selection_effect ?q] =>
        destruct (selection_effect_list_counts q) as [-> ->]
    end.
    now split.
  - destruct (currentSession (view (world p))); [| now split].
    now destruct (loading (view (world p))).
  - destruct (currentSession (view (world p))); [| now split].
    destruct (loading (view (world p))); [now split |].
    destruct (String.eqb (key e) "Enter" && negb (shiftKey e));
      [| now split].
    destruct (begin_sendMessage_list_counts p) as [-> ->]. now split.
  - destruct (send_button (view (world p))) as [b|]; [| now split].
    destruct (disabled b); [now split |].
    destruct (begin_sendMessage_list_counts p) as [-> ->]. now split.
  - destruct (nth_error (pending p) i) as [h|] eqn:Hi; [| now split].
    pose proof (serve_awaits_list (uid (world p)) h (db (world p))) as Hk.
    destruct (serve (uid (world p)) h (db (world p))) as [h' d'].
    cbn [fst] in Hk. unfold list_requests, list_handlers. page_fields.
    split; [reflexivity |].
    now rewrite (filter_put_same awaits_list _ _ h h' Hi Hk).
  - destruct (nth_error (pending p) i) as [h|] eqn:Hi; [| now split].
    unfold list_requests, list_handlers. page_fields.
    split; [reflexivity |].
    rewrite (filter_put_same awaits_list _ _ h (lose e h) Hi);
      [reflexivity | now destruct h].
  - destruct (nth_error (pending p) i) as [h|] eqn:Hi; [| now split].
    destruct (answered h); [| now split].
    destruct (resume_list_counts h
                (mkPage (world p) (drop i (pending p)) (picked p)))
      as [-> ->].
    split; [reflexivity |]. apply filter_drop_le.
Qed.

(** However long the page is used, whatever is clicked and whatever the
    network does, the session list is asked for once, at the mount, and
    never again, and at most one handler ever waits for it. *)
Theorem the_session_list_is_asked_for_once (evs : list Event) (w : World) :
  list_requests (run evs (mounted w))
  = S (List.length (filter is_list_request (requests w)))
  /\ list_handlers (run evs (mounted w)) <= 1.
Proof.
  assert (H0 : list_requests (mounted w)
               = S (List.length (filter is_list_request (requests w)))
               /\ list_handlers (mounted w) <= 1).
  { unfold list_requests, list_handlers, mounted, begin_loadSessions, fetch.
    page_fields. rewrite filter_app, length_app.
    cbn [filter is_list_request awaits_list List.length app]. lia. }
  revert H0. generalize (mounted w).
  induction evs as [|ev evs IH]; intros p Hp; [exact Hp |].
  cbn [run fold_left]. fold (run evs (handle ev p)). apply IH.
  destruct (handle_list_counts ev p) as [E1 E2]. rewrite E1. lia.
Qed.
